(** * rindechile/analysis: resumable scraping pipeline and consensus classifier

    A shallow embedding of the TypeScript sources

    - [docs/scraper-utils.ts] (the version with the permanent registry and the
      lookup cache): registry, session checkpoint, backoff, code validation,
      file names;
    - [docs/scraper-single.ts]: the format check of its command line, and the
      command itself, [processSingleCode] and [main];
    - [docs/scrape-documents.ts]: [parseArgs], [processCode] with its retry
      recursion, the resolution of the work set and the tasks of [main];
    - [docs/csv-utils.ts]: [parseCsv];
    - [scripts/gemini-processor.ts]: [processFile], [processFiles] and the
      consensus classifier [comparAndMark];
    - [scripts/data-manager.ts]: the pending / processed / failed stores;
    - [scripts/process-batch.ts]: [processSingleCode] and the batch loop;
    - [comparAndMark] and [processSingleCode] of the last two once more, in
      [Runtime], on the values [JSON.parse] returns;

    followed by the vocabulary of the statements and by the facts proved
    about the definitions.

    Conventions of the embedding.

    - A JavaScript string is a [string]; its characters stand for UTF-16 code
      units below 256.
    - A JavaScript number is a double: a [float] where the source computes
      with what it read from a response (the amounts and the total of an
      order in [Runtime], the completion of [getStats]), with [Number] and
      [String] conversions as the language defines them. Counters, lengths
      and delays are integers ([nat], [Z]) where they stay far below 2^53;
      [parseInt] and the backoff delay say where they meet that bound, and
      the 0.7 threshold of [comparAndMark] is checked against its binary64
      evaluation.
    - The modules [GeminiProcessor], [DataManager] and [ProcessBatch] read
      the extraction data at the types the interfaces declare (items with
      integer amounts); they carry the facts about the stores and the batch
      loop, which do not look inside an item. [Runtime] reads the same
      functions on JSON values, and carries the facts about the classifier
      and the total.
    - [new Date().toISOString()] is an extra argument [now] of the function
      that reads the clock.
    - A file on disk is a [File]: absent, present with unparsable text, or
      present with a value; [readFileSync] followed by [JSON.parse] is a case
      analysis on it.
    - An exception is the [Throw] case of [outcome]; the [console.*] calls
      that matter and the sleeps are collected in order.
    - The browser, the scraper process, the file system under [downloads/]
      and the extraction service are collaborators: a function or a record
      of functions giving their answers. *)

From Stdlib Require Import ZArith QArith Ascii String List Bool Lia.
From Stdlib Require Import PrimFloat Uint63 SpecFloat FloatOps FloatAxioms.
From stdpp Require Import base decidable option list sorting strings.
From stdpp Require Import pretty gmap.
From Equations Require Import Equations.


(* ====================================================================== *)
(** * Regular expressions (the fragment used by the validators) *)
(* ====================================================================== *)

Module Regex.

(** Regular expressions over code units; a character class is a boolean
    predicate. [regex.test(s)] with both anchors [^...$] is membership of the
    whole string in the language. *)
Inductive re : Type :=
| Void
| Eps
| Cls (p : ascii -> bool)
| Cat (r s : re)
| Alt (r s : re)
| Star (r : re).

Fixpoint nullable (r : re) : bool :=
  match r with
  | Void => false
  | Eps => true
  | Cls _ => false
  | Cat r s => nullable r && nullable s
  | Alt r s => nullable r || nullable s
  | Star _ => true
  end.

(** Brzozowski derivative with respect to one code unit. *)
Fixpoint deriv (a : ascii) (r : re) : re :=
  match r with
  | Void => Void
  | Eps => Void
  | Cls p => if p a then Eps else Void
  | Cat r s =>
      if nullable r then Alt (Cat (deriv a r) s) (deriv a s)
      else Cat (deriv a r) s
  | Alt r s => Alt (deriv a r) (deriv a s)
  | Star r => Cat (deriv a r) (Star r)
  end.

Fixpoint matches (r : re) (w : list ascii) : bool :=
  match w with
  | [] => nullable r
  | a :: w' => matches (deriv a r) w'
  end.

(** [r{n}] *)
Fixpoint rep (n : nat) (r : re) : re :=
  match n with
  | O => Eps
  | S n' => Cat r (rep n' r)
  end.

(** [r{0,n}] *)
Fixpoint upto (n : nat) (r : re) : re :=
  match n with
  | O => Eps
  | S n' => Alt Eps (Cat r (upto n' r))
  end.

(** [r{lo,hi}] *)
Definition range (lo hi : nat) (r : re) : re :=
  Cat (rep lo r) (upto (hi - lo) r).

(** [r+] *)
Definition plus (r : re) : re := Cat r (Star r).

Definition lit (c : ascii) : re := Cls (Ascii.eqb c).

(** [\d]: ASCII digits only (no [u] flag changes that). *)
Definition digit (c : ascii) : bool :=
  (48 <=? nat_of_ascii c)%nat && (nat_of_ascii c <=? 57)%nat.

(** [[A-Z]] *)
Definition upper (c : ascii) : bool :=
  (65 <=? nat_of_ascii c)%nat && (nat_of_ascii c <=? 90)%nat.

(** [regex.test(s)] for an anchored pattern. *)
Definition test (r : re) (s : string) : bool :=
  matches r (list_ascii_of_string s).

(** The language of a regular expression, as a relation. *)
Inductive lang : re -> list ascii -> Prop :=
| L_eps : lang Eps []
| L_cls p a : p a = true -> lang (Cls p) [a]
| L_cat r s u v : lang r u -> lang s v -> lang (Cat r s) (u ++ v)
| L_alt_l r s w : lang r w -> lang (Alt r s) w
| L_alt_r r s w : lang s w -> lang (Alt r s) w
| L_star_nil r : lang (Star r) []
| L_star_step r u v : lang r u -> lang (Star r) v -> lang (Star r) (u ++ v).

(** Every code unit of [w] is in the class [p]. *)
Definition all (p : ascii -> bool) (w : list ascii) : Prop :=
  Forall (fun a => p a = true) w.

End Regex.

(* ====================================================================== *)
(** * JavaScript run-time notions shared by the modules *)
(* ====================================================================== *)

Module Js.

(** A thrown value: the [SyntaxError] of [JSON.parse] on a text that is not
    JSON, or an [Error] with its message. *)
Inductive exn : Type :=
| SyntaxError (text : string)
| ErrorWith (message : string).

(** The result of a call that may throw. *)
Inductive outcome (A : Type) : Type :=
| Ok (a : A)
| Throw (e : exn).
Arguments Ok {A} a.
Arguments Throw {A} e.

Definition bind {A B} (m : outcome A) (k : A -> outcome B) : outcome B :=
  match m with
  | Ok a => k a
  | Throw e => Throw e
  end.

(** What [existsSync], [readFileSync] and [JSON.parse] find at a path. *)
Inductive File (A : Type) : Type :=
| Absent
| Unparsable (text : string)
| Stored (v : A).
Arguments Absent {A}.
Arguments Unparsable {A} text.
Arguments Stored {A} v.

(** [console.log] / [console.warn] / [console.error]. *)
Inductive level : Type := Info | Warn | Error.
Definition entry : Type := (level * string)%type.

Global Instance level_eq_dec : EqDecision level.
Proof. solve_decision. Defined.

Definition is_error (e : entry) : bool :=
  match fst e with Error => true | _ => false end.

(** What a run does besides computing: it logs and it sleeps. *)
Inductive effect : Type :=
| Log (e : entry)
| Sleep (ms : Z).

Definition logged_error (x : effect) : bool :=
  match x with Log e => is_error e | Sleep _ => false end.

(** White space removed by [String.prototype.trim], among code units < 256:
    TAB, LF, VT, FF, CR, SPACE and NBSP. *)
Definition is_space (c : ascii) : bool :=
  let n := nat_of_ascii c in
  ((9 <=? n) && (n <=? 13)) || (n =? 32) || (n =? 160).

Fixpoint drop_space (w : list ascii) : list ascii :=
  match w with
  | [] => []
  | c :: w' => if is_space c then drop_space w' else w
  end.

Definition trim (s : string) : string :=
  string_of_list_ascii
    (rev (drop_space (rev (drop_space (list_ascii_of_string s))))).

(** Truthiness of a string: every string but the empty one. *)
Definition truthy (s : string) : bool :=
  match s with
  | EmptyString => false
  | String _ _ => true
  end.

(** [x || d] for an optional string [x]. *)
Definition or_else (x : option string) (d : string) : string :=
  match x with
  | Some s => if truthy s then s else d
  | None => d
  end.

(** [arr.includes(x)] on strings. *)
Definition includes (arr : list string) (x : string) : bool :=
  bool_decide (x ∈ arr).

(** A [Set<string>] whose iteration order is observed: the insertion-ordered
    list of its members. [set_add] is [Set.prototype.add]. *)
Definition set_add (s : list string) (x : string) : list string :=
  if includes s x then s else s ++ [x].

(** The default comparison of [Array.prototype.sort] on strings: code units,
    lexicographically. *)
Definition str_le (a b : string) : Prop := String.leb a b = true.

Global Instance str_le_dec : RelDecision str_le.
Proof. intros a b. unfold str_le. apply _. Defined.

Definition sort (l : list string) : list string := merge_sort str_le l.

(** [s.split(sep)] for a one-character separator: the pieces between the
    separators, one more than there are separators. *)
Fixpoint splitOn (sep : ascii) (w : list ascii) : list (list ascii) :=
  match w with
  | [] => [[]]
  | c :: w' =>
      if Ascii.eqb c sep then [] :: splitOn sep w'
      else match splitOn sep w' with
           | piece :: pieces => (c :: piece) :: pieces
           | [] => [[c]]
           end
  end.

Definition split (sep : ascii) (s : string) : list string :=
  map string_of_list_ascii (splitOn sep (list_ascii_of_string s)).

Definition is_digit (c : ascii) : bool :=
  let n := nat_of_ascii c in (48 <=? n) && (n <=? 57).

(** The longest run of decimal digits a text starts with, and the number
    such a run denotes. *)
Fixpoint leadingDigits (w : list ascii) : list ascii :=
  match w with
  | [] => []
  | c :: w' => if is_digit c then c :: leadingDigits w' else []
  end.

Definition decimal (digits : list ascii) : Z :=
  fold_left (λ acc c, (10 * acc + Z.of_nat (nat_of_ascii c - 48))%Z)
            digits 0%Z.

(** The number that an integer becomes: the nearest double, a tie going to
    the even mantissa, written as the integer that double is. Up to 2^53 in
    magnitude that is the integer itself; [2 ^ 1024], one step past the
    largest double, stands for [Infinity]. *)
Definition nearestDouble (z : Z) : Z :=
  let a := Z.abs z in
  let excess := (Z.log2 a + 1 - 53)%Z in
  if (excess <=? 0)%Z then z
  else
    let unit := (2 ^ excess)%Z in
    let q := (a / unit)%Z in
    let r := (a mod unit)%Z in
    let up := (unit <? 2 * r)%Z || ((unit =? 2 * r)%Z && Z.odd q) in
    let rounded := Z.min ((if up then q + 1 else q) * unit) (2 ^ 1024) in
    if (z <? 0)%Z then (- rounded)%Z else rounded.

(** [parseInt(s, 10)]: white space is skipped, then a sign is read, then the
    digits up to the first character that is none; [None] is [NaN], the
    answer when there is no digit. The digits denote an integer, and the
    answer is the number nearest to it. *)
Definition parseInt (s : string) : option Z :=
  let w := drop_space (list_ascii_of_string s) in
  let signed :=
    match w with
    | c :: w' =>
        if Ascii.eqb c "-" then (true, w')
        else if Ascii.eqb c "+" then (false, w')
        else (false, w)
    | [] => (false, [])
    end in
  match leadingDigits (snd signed) with
  | [] => None
  | digits => Some (nearestDouble (if fst signed then (- decimal digits)%Z
                                   else decimal digits))
  end.

(** [s.toLowerCase()] on code units below 256: the letters A to Z and the
    capital letters of Latin-1 move up by 32. *)
Definition lowerChar (c : ascii) : ascii :=
  let n := nat_of_ascii c in
  if ((65 <=? n) && (n <=? 90))
     || ((192 <=? n) && (n <=? 222) && negb (n =? 215))
  then ascii_of_nat (n + 32) else c.

Definition toLowerCase (s : string) : string :=
  string_of_list_ascii (map lowerChar (list_ascii_of_string s)).

(** [s.endsWith(suffix)] *)
Definition endsWith (s suffix : string) : bool :=
  bool_decide (list_ascii_of_string suffix
               `suffix_of` list_ascii_of_string s).

(** The text from the first occurrence of [c] on, and the text up to the
    last occurrence of [c], both with that occurrence. *)
Fixpoint fromFirst (c : ascii) (w : list ascii) : option (list ascii) :=
  match w with
  | [] => None
  | d :: w' => if Ascii.eqb d c then Some w else fromFirst c w'
  end.

Definition upToLast (c : ascii) (w : list ascii) : option (list ascii) :=
  option_map (@rev ascii) (fromFirst c (rev w)).

(** The characters before the first occurrence of [c]. *)
Fixpoint before (c : ascii) (w : list ascii) : list ascii :=
  match w with
  | [] => []
  | d :: w' => if Ascii.eqb d c then [] else d :: before c w'
  end.

(** Without the occurrences of [c] it starts with. *)
Fixpoint dropLeading (c : ascii) (w : list ascii) : list ascii :=
  match w with
  | [] => []
  | d :: w' => if Ascii.eqb d c then dropLeading c w' else w
  end.

(** [path.basename(p)] of POSIX: the part after the last slash, trailing
    slashes aside. *)
Definition basename (p : string) : string :=
  string_of_list_ascii
    (rev (before "/" (dropLeading "/" (rev (list_ascii_of_string p))))).

(** ** Numbers and their text *)

(** Powers of ten and of two with any integer exponent, as rationals. *)
Definition pow10 (n : Z) : Q :=
  if (0 <=? n)%Z then inject_Z (10 ^ n) else Qinv (inject_Z (10 ^ (- n))).

Definition pow2 (n : Z) : Q :=
  if (0 <=? n)%Z then inject_Z (2 ^ n) else Qinv (inject_Z (2 ^ (- n))).

Definition Qltb (a b : Q) : bool := negb (Qle_bool b a).

Definition Qdistance (a b : Q) : Q :=
  if Qle_bool a b then (b - a)%Q else (a - b)%Q.

(** The double with mantissa [m] and exponent [e], as a rational. *)
Definition valueOf (m : positive) (e : Z) : Q :=
  (inject_Z (Zpos m) * pow2 e)%Q.

(** Whether the rational [d] lies so near the double [m * 2 ^ e] that it
    rounds to it: within half the gap to the next double on each side, the
    two ends included when [m] is even. Below a power of two the gap is half
    as wide. *)
Definition roundsTo (m : positive) (e : Z) (d : Q) : bool :=
  let above := pow2 (e - 1) in
  let below := if Pos.eqb m (2 ^ 52)%positive && (-1074 <? e)%Z
               then pow2 (e - 2) else pow2 (e - 1) in
  if Z.even (Zpos m)
  then Qle_bool (valueOf m e - below) d && Qle_bool d (valueOf m e + above)
  else Qltb (valueOf m e - below) d && Qltb d (valueOf m e + above).

(** The least [n] from [n] on with [v < 10 ^ n]. *)
Fixpoint magnitude (fuel : nat) (v : Q) (n : Z) : Z :=
  match fuel with
  | O => n
  | S fuel' => if Qltb v (pow10 n) then n else magnitude fuel' v (n + 1)
  end.

(** The decimals [s * 10 ^ (n - k)] with [k] digits that round to the
    double, for the two [n] that its size allows: the pairs [(s, n)]. *)
Definition candidates (m : positive) (e : Z) (n0 k : Z) : list (Z * Z) :=
  flat_map
    (λ n,
       let scaled := (valueOf m e / pow10 (n - k))%Q in
       let s := (Qnum scaled / Zpos (Qden scaled))%Z in
       filter (λ sn : Z * Z,
                 (10 ^ (k - 1) <=? fst sn)%Z && (fst sn <? 10 ^ k)%Z
                 && roundsTo m e (inject_Z (fst sn) * pow10 (snd sn - k))%Q
                 = true)
              [(s, n); ((s + 1)%Z, n)])
    [n0; (n0 + 1)%Z].

(** Of two candidates the one nearer to [v]; at the same distance the one
    whose [s] is even. *)
Definition closer (v : Q) (k : Z) (a b : Z * Z) : Z * Z :=
  let da := Qdistance (inject_Z (fst a) * pow10 (snd a - k))%Q v in
  let db := Qdistance (inject_Z (fst b) * pow10 (snd b - k))%Q v in
  if Qltb db da then b
  else if Qltb da db then a
  else if Z.even (fst a) then a else b.

(** The digits [s], their count [k] and the position [n] of the point that
    [Number::toString] chooses: the least [k] for which a decimal of [k]
    digits rounds to the double, and among those the nearest. *)
Fixpoint shortest (fuel : nat) (m : positive) (e : Z) (n0 k : Z)
    : Z * Z * Z :=
  match fuel with
  | O => (0%Z, 0%Z, k)
  | S fuel' =>
      match candidates m e n0 k with
      | [] => shortest fuel' m e n0 (k + 1)
      | c :: cs =>
          let best := fold_left (closer (valueOf m e) k) cs c in
          (fst best, snd best, k)
      end
  end.

(** The decimal digits of a number that is not negative. *)
Definition digitsOf (s : Z) : list ascii :=
  list_ascii_of_string (pretty (Z.to_N s)).

(** How [Number::toString] lays out the digits [s], [k] of them, with the
    point after the first [n]: plain up to 21 places before the point and 6
    zeros after it, with an exponent beyond. *)
Definition layout (s n k : Z) : list ascii :=
  let digits := digitsOf s in
  if (k <=? n)%Z && (n <=? 21)%Z then
    digits ++ replicate (Z.to_nat (n - k)) "0"%char
  else if (0 <? n)%Z && (n <=? 21)%Z then
    take (Z.to_nat n) digits ++ "."%char :: drop (Z.to_nat n) digits
  else if (-6 <? n)%Z && (n <=? 0)%Z then
    "0"%char :: "."%char :: replicate (Z.to_nat (- n)) "0"%char ++ digits
  else
    let mantissa :=
      if (k =? 1)%Z then digits
      else take 1 digits ++ "."%char :: drop 1 digits in
    mantissa ++ "e"%char :: (if (n - 1 <? 0)%Z then "-" else "+")%char
             :: digitsOf (Z.abs (n - 1)).

(** The text of the double [m * 2 ^ e]. *)
Definition positiveToString (m : positive) (e : Z) : list ascii :=
  let estimate := ((Z.log2 (Zpos m) + e) * 30103 / 100000 - 1)%Z in
  let n0 := magnitude 8 (valueOf m e) estimate in
  let '(s, n, k) := shortest 17 m e n0 1 in
  layout s n k.

(** [Number::toString(x)] in radix 10 (also [String(x)]). *)
Definition numberToString (x : float) : string :=
  match Prim2SF x with
  | S754_nan => "NaN"
  | S754_infinity negative => if negative then "-Infinity" else "Infinity"
  | S754_zero _ => "0"
  | S754_finite negative m e =>
      string_of_list_ascii
        ((if negative then ["-"%char] else []) ++ positiveToString m e)
  end.

(** The value of a digit in a radix up to 16, if it is one. *)
Definition digitValue (radix : Z) (c : ascii) : option Z :=
  let n := Z.of_nat (nat_of_ascii c) in
  let v := if (48 <=? n)%Z && (n <=? 57)%Z then (n - 48)%Z
           else if (97 <=? n)%Z && (n <=? 102)%Z then (n - 87)%Z
           else if (65 <=? n)%Z && (n <=? 70)%Z then (n - 55)%Z
           else 16%Z in
  if (v <? radix)%Z then Some v else None.

(** The digits a text starts with: the number they denote after [acc],
    their count after [count], and the rest of the text. *)
Fixpoint readDigits (radix : Z) (w : list ascii) (acc : Z) (count : nat)
    : Z * nat * list ascii :=
  match w with
  | c :: w' =>
      match digitValue radix c with
      | Some v => readDigits radix w' (radix * acc + v)%Z (S count)
      | None => (acc, count, w)
      end
  | [] => (acc, count, [])
  end.

Definition readSign (w : list ascii) : bool * list ascii :=
  match w with
  | c :: w' =>
      if Ascii.eqb c "-" then (true, w')
      else if Ascii.eqb c "+" then (false, w')
      else (false, w)
  | [] => (false, [])
  end.

(** The literals [0x...], [0o...] and [0b...]. *)
Definition nonDecimal (w : list ascii) : option Z :=
  match w with
  | zero :: x :: digits =>
      if Ascii.eqb zero "0" then
        let radix :=
          if Ascii.eqb x "x" || Ascii.eqb x "X" then Some 16%Z
          else if Ascii.eqb x "o" || Ascii.eqb x "O" then Some 8%Z
          else if Ascii.eqb x "b" || Ascii.eqb x "B" then Some 2%Z
          else None in
        match radix with
        | Some r =>
            match readDigits r digits 0 0 with
            | (z, S _, []) => Some z
            | _ => None
            end
        | None => None
        end
      else None
  | _ => None
  end.

(** A decimal literal without its sign: the digits without the point, and
    the power of ten that goes with them. *)
Definition unsignedDecimal (w : list ascii) : option (Z * Z) :=
  let '(whole, wholeCount, afterWhole) := readDigits 10 w 0 0 in
  let '(all, fractionCount, afterFraction) :=
    match afterWhole with
    | c :: w' =>
        if Ascii.eqb c "." then readDigits 10 w' whole 0
        else (whole, 0%nat, afterWhole)
    | [] => (whole, 0%nat, [])
    end in
  if (wholeCount + fractionCount =? 0)%nat then None
  else
    match afterFraction with
    | [] => Some (all, (- Z.of_nat fractionCount)%Z)
    | c :: w' =>
        if Ascii.eqb c "e" || Ascii.eqb c "E" then
          let '(negative, digits) := readSign w' in
          match readDigits 10 digits 0 0 with
          | (exponent, S _, []) =>
              Some (all, ((if negative then - exponent else exponent)
                          - Z.of_nat fractionCount)%Z)
          | _ => None
          end
        else None
    end.

(** The double nearest to [digits * 10 ^ exponent], with the sign given. *)
Definition ofDecimal (negative : bool) (digits exponent : Z) : float :=
  match digits with
  | Zpos d =>
      if (0 <=? exponent)%Z then
        SF2Prim (binary_round prec emax negative
                   (d * Z.to_pos (10 ^ exponent)) 0)
      else
        let '(q, e, l) :=
          SFdiv_core_binary prec emax (Zpos d) 0 (10 ^ (- exponent)) 0 in
        SF2Prim (binary_round_aux prec emax negative q e l)
  | _ => if negative then neg_zero else zero
  end.

(** [StringToNumber(s)]: the number a string converts to. *)
Definition stringToNumber (s : string) : float :=
  let w := list_ascii_of_string (trim s) in
  match w with
  | [] => zero
  | _ =>
      match nonDecimal w with
      | Some z => ofDecimal false z 0
      | None =>
          let '(negative, unsigned) := readSign w in
          if String.eqb (string_of_list_ascii unsigned) "Infinity" then
            if negative then neg_infinity else infinity
          else
            match unsignedDecimal unsigned with
            | Some (digits, exponent) => ofDecimal negative digits exponent
            | None => nan
            end
      end
  end.

(** A natural number as the double it is (exact below 2^53). *)
Definition ofNat (n : nat) : float :=
  PrimFloat.of_uint63 (Uint63.of_Z (Z.of_nat n)).

End Js.

(* ====================================================================== *)
(** * docs/scraper-utils.ts *)
(* ====================================================================== *)

Module ScraperUtils.
Import Js.

(** An element of [Checkpoint.failedCodes]. *)
Record FailedEntry : Type := mkFailedEntry {
  fe_code : string;
  fe_error : string;
  fe_timestamp : string;
  fe_attempts : Z;
}.

(** [interface Checkpoint]; the last field is the run-time lookup cache,
    absent ([None]) until first use and never serialized. *)
Record Checkpoint : Type := mkCheckpoint {
  processedCodes : list string;
  failedCodes : list FailedEntry;
  lastProcessedTimestamp : string;
  totalProcessed : Z;
  totalFailed : Z;
  _processedCodesSet : option (gset string);
}.

(** [interface DownloadResult] *)
Record DownloadResult : Type := mkDownloadResult {
  dr_code : string;
  dr_success : bool;
  dr_pdfCount : nat;
  dr_error : option string;
  dr_directory : option string;
}.

(** [interface ScrapedCodesRegistry] *)
Record ScrapedCodesRegistry : Type := mkRegistry {
  codes : list string;
  lastUpdated : string;
  totalCount : Z;
}.

Definition emptyRegistry (now : string) : ScrapedCodesRegistry :=
  {| codes := []; lastUpdated := now; totalCount := 0 |}.

(** [loadScrapedCodesRegistry]: the [try] around read and parse turns an
    unparsable file into the empty registry, after [console.warn]. *)
Definition loadScrapedCodesRegistry (file : File ScrapedCodesRegistry)
    (now : string) : ScrapedCodesRegistry * list entry :=
  match file with
  | Absent => (emptyRegistry now, [])
  | Stored r => (r, [])
  | Unparsable _ =>
      (emptyRegistry now, [(Warn, "Failed to load scraped codes registry:")])
  end.

(** [saveScrapedCodesRegistry]: refreshes the two derived fields of the
    object in memory and writes it. Returns the object and the file. *)
Definition saveScrapedCodesRegistry (registry : ScrapedCodesRegistry)
    (now : string) : ScrapedCodesRegistry * File ScrapedCodesRegistry :=
  let r := {| codes := codes registry; lastUpdated := now;
              totalCount := Z.of_nat (length (codes registry)) |} in
  (r, Stored r).

Definition addToScrapedRegistry (registry : ScrapedCodesRegistry)
    (code : string) (now : string) : ScrapedCodesRegistry :=
  if negb (includes (codes registry) code) then
    let codes' := codes registry ++ [code] in
    {| codes := codes'; totalCount := Z.of_nat (length codes');
       lastUpdated := now |}
  else registry.

Definition isAlreadyScraped (registry : ScrapedCodesRegistry)
    (code : string) : bool :=
  includes (codes registry) code.

Definition getNewCodesToScrape (allCodes : list string)
    (registry : ScrapedCodesRegistry) : list string :=
  let scrapedSet : gset string := list_to_set (codes registry) in
  filter (λ code, code ∉ scrapedSet) allCodes.

Definition getScrapedCodesSet (registry : ScrapedCodesRegistry)
    : gset string :=
  list_to_set (codes registry).

Definition emptyCheckpoint (now : string) : Checkpoint :=
  {| processedCodes := []; failedCodes := [];
     lastProcessedTimestamp := now;
     totalProcessed := 0; totalFailed := 0;
     _processedCodesSet := None |}.

(** [loadCheckpoint] *)
Definition loadCheckpoint (file : File Checkpoint) (now : string)
    : Checkpoint * list entry :=
  match file with
  | Absent => (emptyCheckpoint now, [])
  | Stored c => (c, [])
  | Unparsable _ =>
      (emptyCheckpoint now,
       [(Warn, "Failed to load checkpoint, starting fresh:")])
  end.

(** [saveCheckpoint]: the written copy leaves the cache out. *)
Definition saveCheckpoint (checkpoint : Checkpoint) : File Checkpoint :=
  Stored {| processedCodes := processedCodes checkpoint;
            failedCodes := failedCodes checkpoint;
            lastProcessedTimestamp := lastProcessedTimestamp checkpoint;
            totalProcessed := totalProcessed checkpoint;
            totalFailed := totalFailed checkpoint;
            _processedCodesSet := None |}.

(** The cache after the lazy initialisation that opens [markProcessed] and
    [isProcessed]. *)
Definition cacheOf (checkpoint : Checkpoint) : gset string :=
  match _processedCodesSet checkpoint with
  | Some s => s
  | None => list_to_set (processedCodes checkpoint)
  end.

Definition markProcessed (checkpoint : Checkpoint) (code : string)
    (now : string) : Checkpoint :=
  let cache := cacheOf checkpoint in
  if bool_decide (code ∉ cache) then
    {| processedCodes := processedCodes checkpoint ++ [code];
       failedCodes := failedCodes checkpoint;
       lastProcessedTimestamp := now;
       totalProcessed := totalProcessed checkpoint + 1;
       totalFailed := totalFailed checkpoint;
       _processedCodesSet := Some ({[code]} ∪ cache) |}
  else
    {| processedCodes := processedCodes checkpoint;
       failedCodes := failedCodes checkpoint;
       lastProcessedTimestamp := lastProcessedTimestamp checkpoint;
       totalProcessed := totalProcessed checkpoint;
       totalFailed := totalFailed checkpoint;
       _processedCodesSet := Some cache |}.

(** [markFailed]; [attempts] is the parameter that defaults to 1. *)
Definition markFailed (checkpoint : Checkpoint) (code error : string)
    (attempts : Z) (now : string) : Checkpoint :=
  match list_find (λ f, fe_code f = code) (failedCodes checkpoint) with
  | Some (existingIndex, existing) =>
      {| processedCodes := processedCodes checkpoint;
         failedCodes :=
           <[existingIndex :=
               {| fe_code := code; fe_error := error; fe_timestamp := now;
                  fe_attempts := fe_attempts existing + attempts |}]>
             (failedCodes checkpoint);
         lastProcessedTimestamp := lastProcessedTimestamp checkpoint;
         totalProcessed := totalProcessed checkpoint;
         totalFailed := totalFailed checkpoint;
         _processedCodesSet := _processedCodesSet checkpoint |}
  | None =>
      {| processedCodes := processedCodes checkpoint;
         failedCodes :=
           failedCodes checkpoint ++
             [{| fe_code := code; fe_error := error; fe_timestamp := now;
                 fe_attempts := attempts |}];
         lastProcessedTimestamp := lastProcessedTimestamp checkpoint;
         totalProcessed := totalProcessed checkpoint;
         totalFailed := totalFailed checkpoint + 1;
         _processedCodesSet := _processedCodesSet checkpoint |}
  end.

(** [isProcessed] answers and leaves the cache initialised. *)
Definition isProcessed (checkpoint : Checkpoint) (code : string)
    : bool * Checkpoint :=
  let cache := cacheOf checkpoint in
  (bool_decide (code ∈ cache),
   {| processedCodes := processedCodes checkpoint;
      failedCodes := failedCodes checkpoint;
      lastProcessedTimestamp := lastProcessedTimestamp checkpoint;
      totalProcessed := totalProcessed checkpoint;
      totalFailed := totalFailed checkpoint;
      _processedCodesSet := Some cache |}).

Definition getRetryableCodes (checkpoint : Checkpoint) : list string :=
  map fe_code (filter (λ f, (fe_attempts f < 3)%Z) (failedCodes checkpoint)).

(** [exponentialBackoff(attempt, baseDelayMs)] *)
Definition exponentialBackoff (attempt : nat) (baseDelayMs : Z) : Z :=
  Z.min (baseDelayMs * 2 ^ Z.of_nat attempt) 30000.

(** [/^\d{3,7}-\d{1,4}-[A-Z]{2}25$/] *)
Definition codeRegex : Regex.re :=
  Regex.Cat (Regex.range 3 7 (Regex.Cls Regex.digit))
 (Regex.Cat (Regex.lit "-")
 (Regex.Cat (Regex.range 1 4 (Regex.Cls Regex.digit))
 (Regex.Cat (Regex.lit "-")
 (Regex.Cat (Regex.rep 2 (Regex.Cls Regex.upper))
 (Regex.Cat (Regex.lit "2") (Regex.lit "5")))))).

Definition isValidCode (code : string) : bool :=
  Regex.test codeRegex code.

(** [interface Purchase] of csv-utils; a column missing from the header leaves
    its field undefined, which only matters for the one column read here. *)
Record Purchase : Type := mkPurchase {
  id : string;
  chilecompra_code : option string;
  municipality_id : string;
  supplier_rut : string;
  quantity : string;
  unit_total_price : string;
  is_expensive : string;
  price_excess_amount : string;
  price_excess_percentage : string;
  item_id : string;
}.

(** The body of the loop of [extractUniqueCodes]. *)
Definition collectCode (codeSet : list string) (row : Purchase)
    : list string :=
  match chilecompra_code row with
  | Some raw =>
      let code := trim raw in
      if truthy code && isValidCode code then set_add codeSet code
      else codeSet
  | None => codeSet
  end.

Definition extractUniqueCodes (rows : list Purchase) : list string :=
  sort (fold_left collectCode rows []).

(** The nine characters of the class replaced first by [sanitizeFilename]:
    less-than, greater-than, colon, double quote, slash, backslash, bar,
    question mark and star, by their codes. *)
Definition unsafeChar (c : ascii) : bool :=
  let n := nat_of_ascii c in
  (n =? 60) || (n =? 62) || (n =? 58) || (n =? 34) || (n =? 47)
  || (n =? 92) || (n =? 124) || (n =? 63) || (n =? 42).

Definition underscore : ascii := "_"%char.

(** [w.replace(/[p]+/g, '_')]: every maximal run of characters of the class
    [p] becomes one underscore. [inRun] tells that the previous character
    was in the class. *)
Fixpoint squeeze (p : ascii -> bool) (inRun : bool) (w : list ascii)
    : list ascii :=
  match w with
  | [] => []
  | c :: w' =>
      if p c then
        if inRun then squeeze p true w' else underscore :: squeeze p true w'
      else c :: squeeze p false w'
  end.

(** The three replacements of [sanitizeFilename], on code units. A run of
    two or more underscores becoming one underscore, with single ones left
    alone, is every run of underscores becoming one. *)
Definition sanitizeChars (w : list ascii) : list ascii :=
  squeeze (Ascii.eqb underscore) false
    (squeeze is_space false
       (map (λ c, if unsafeChar c then underscore else c) w)).

Definition sanitizeFilename (filename : string) : string :=
  trim (string_of_list_ascii (sanitizeChars (list_ascii_of_string filename))).

(** [s.padStart(targetLength, fill)] for a one-character [fill]. *)
Definition padStart (targetLength : nat) (fill : ascii) (s : string)
    : string :=
  string_of_list_ascii
    (replicate (targetLength - String.length s) fill
     ++ list_ascii_of_string s).

(** [getFallbackFilename(code, index)], for an index that is a natural
    number. *)
Definition getFallbackFilename (code : string) (index : nat) : string :=
  code +:+ "_" +:+ padStart 2 "0" (pretty index) +:+ ".pdf".

End ScraperUtils.

(* ====================================================================== *)
(** * docs/scraper-single.ts *)
(* ====================================================================== *)

Module ScraperSingle.

(** The "basic check" of the command line: [/^\d+-\d+-[A-Z]{2}\d{2}$/]. *)
Definition basicRegex : Regex.re :=
  Regex.Cat (Regex.plus (Regex.Cls Regex.digit))
 (Regex.Cat (Regex.lit "-")
 (Regex.Cat (Regex.plus (Regex.Cls Regex.digit))
 (Regex.Cat (Regex.lit "-")
 (Regex.Cat (Regex.rep 2 (Regex.Cls Regex.upper))
            (Regex.rep 2 (Regex.Cls Regex.digit)))))).

Definition hasBasicFormat (code : string) : bool :=
  Regex.test basicRegex code.

End ScraperSingle.

(* ====================================================================== *)
(** * docs/scrape-documents.ts *)
(* ====================================================================== *)

Module ScrapeDocuments.
Import Js ScraperUtils.

Definition MAX_RETRIES : nat := 3.
Definition RETRY_BASE_DELAY : Z := 2000.

(** One pass through the [try] block of [processCode], as the browser lets it
    go. The four stage functions catch their own errors and answer [null],
    [false] or a count, so the block either returns at one of its three
    [return]s or an exception escapes it (from closing a page, or from
    creating the download directory). [context.newPage()], which precedes
    the block, is taken to succeed. *)
Inductive Attempt : Type :=
| NavigationFailed
| NoPopup (reportDownloaded : bool)
| Downloaded (reportDownloaded : bool) (attachmentPdfCount : nat)
| Raised (errorMessage : string).

(** The browser, seen from [processCode]: what attempt number [attempt] on
    [code] runs into. *)
Definition Browser : Type := string -> nat -> Attempt.

Definition getCodeDirectory (code : string) : string :=
  "downloads/" +:+ code.

Definition reportCount (reportDownloaded : bool) : nat :=
  if reportDownloaded then 1 else 0.

(** [processCode(context, code, attempt = 1)]; the second component is what
    the call logs and sleeps, in order. *)
Equations processCode (browser : Browser) (code : string) (attempt : nat)
    : DownloadResult * list effect by wf (MAX_RETRIES - attempt) lt :=
processCode browser code attempt with browser code attempt := {
  | NavigationFailed =>
      ({| dr_code := code; dr_success := false; dr_pdfCount := 0;
          dr_error := Some "Failed to navigate to purchase order";
          dr_directory := None |}, [])
  | NoPopup reportDownloaded =>
      ({| dr_code := code; dr_success := true;
          dr_pdfCount := reportCount reportDownloaded;
          dr_error := None;
          dr_directory := Some (getCodeDirectory code) |}, [])
  | Downloaded reportDownloaded attachmentPdfCount =>
      ({| dr_code := code; dr_success := true;
          dr_pdfCount := reportCount reportDownloaded + attachmentPdfCount;
          dr_error := None;
          dr_directory := Some (getCodeDirectory code) |}, [])
  | Raised errorMessage with lt_dec attempt MAX_RETRIES := {
      | left _ =>
          let delay := exponentialBackoff attempt RETRY_BASE_DELAY in
          let next := processCode browser code (attempt + 1) in
          (fst next,
           Log (Warn, "Attempt " +:+ pretty attempt +:+ " failed for " +:+
                      code +:+ ", retrying in " +:+ pretty delay +:+ "ms...")
           :: Sleep delay :: snd next)
      | right _ =>
          ({| dr_code := code; dr_success := false; dr_pdfCount := 0;
              dr_error := Some ("Failed after " +:+ pretty MAX_RETRIES +:+
                                " attempts: " +:+ errorMessage);
              dr_directory := None |}, []) } }.
Next Obligation. lia. Qed.

(** [interface CliArgs] *)
Record CliArgs : Type := mkCliArgs {
  fresh : bool;
  test : option nat;
  retry : bool;
}.

(** "Determine which codes to process" in [main]. [args.test] is truthy when
    it is a number other than 0. *)
Definition codesToProcess (args : CliArgs) (allCodes : list string)
    (registry : ScrapedCodesRegistry) (checkpoint : Checkpoint)
    : list string :=
  if retry args then getRetryableCodes checkpoint
  else
    match test args with
    | Some (S k) =>
        let newCodes := getNewCodesToScrape allCodes registry in
        take (S k) newCodes
    | _ => getNewCodesToScrape allCodes registry
    end.

(** The mutable state of [main] while the tasks run. *)
Record Session : Type := mkSession {
  checkpoint : Checkpoint;
  registry : ScrapedCodesRegistry;
  processedCount : nat;
  succeededCount : nat;
  failedCount : nat;
  checkpointFile : File Checkpoint;
  registryFile : File ScrapedCodesRegistry;
  results : list (option DownloadResult);
  trace : list effect;
}.

Definition progressLabel (processedCount total : nat) (code : string)
    : string :=
  "[" +:+ pretty processedCount +:+ "/" +:+ pretty total +:+ "] " +:+ code.

(** What the task does with the result of [processCode]: the two branches on
    [result.success], then the periodic save. [now] is the clock reading. *)
Definition recordResult (total : nat) (now : string) (st : Session)
    (code : string) (result : DownloadResult) (eff : list effect)
    : Session :=
  let processedCount' := S (processedCount st) in
  let st1 :=
    if dr_success result then
      {| checkpoint := markProcessed (checkpoint st) code now;
         registry := addToScrapedRegistry (registry st) code now;
         processedCount := processedCount';
         succeededCount := S (succeededCount st);
         failedCount := failedCount st;
         checkpointFile := checkpointFile st;
         registryFile := registryFile st;
         results := results st;
         trace := trace st ++ eff ++
           [Log (Info, progressLabel processedCount' total code +:+ ": " +:+
                       pretty (dr_pdfCount result) +:+ " PDFs")] |}
    else
      {| checkpoint :=
           markFailed (checkpoint st) code
             (or_else (dr_error result) "Unknown error") 1 now;
         registry := registry st;
         processedCount := processedCount';
         succeededCount := succeededCount st;
         failedCount := S (failedCount st);
         checkpointFile := checkpointFile st;
         registryFile := registryFile st;
         results := results st;
         trace := trace st ++ eff ++
           [Log (Error, progressLabel processedCount' total code +:+ ": " +:+
                        default "undefined" (dr_error result))] |} in
  let st2 :=
    if (processedCount' mod 10 =? 0)%nat then
      let saved := saveScrapedCodesRegistry (registry st1) now in
      {| checkpoint := checkpoint st1;
         registry := fst saved;
         processedCount := processedCount st1;
         succeededCount := succeededCount st1;
         failedCount := failedCount st1;
         checkpointFile := saveCheckpoint (checkpoint st1);
         registryFile := snd saved;
         results := results st1;
         trace := trace st1 |}
    else st1 in
  {| checkpoint := checkpoint st2;
     registry := registry st2;
     processedCount := processedCount st2;
     succeededCount := succeededCount st2;
     failedCount := failedCount st2;
     checkpointFile := checkpointFile st2;
     registryFile := registryFile st2;
     results := results st2 ++ [Some result];
     trace := trace st2 |}.

(** One task of the [Promise.all]; with [CONCURRENCY = 1] the tasks run one
    after the other, in the order of [codesToProcess]. *)
Definition runTask (args : CliArgs) (browser : Browser)
    (clock : string -> string) (total : nat) (st : Session) (code : string)
    : Session :=
  let skip :=
    if fresh args then (false, checkpoint st)
    else isProcessed (checkpoint st) code in
  if fst skip then
    {| checkpoint := snd skip;
       registry := registry st;
       processedCount := processedCount st;
       succeededCount := succeededCount st;
       failedCount := failedCount st;
       checkpointFile := checkpointFile st;
       registryFile := registryFile st;
       results := results st ++ [None];
       trace := trace st ++
         [Log (Info, "Already processed in this session: " +:+ code)] |}
  else
    let run := processCode browser code 1 in
    recordResult total (clock code)
      {| checkpoint := snd skip;
         registry := registry st;
         processedCount := processedCount st;
         succeededCount := succeededCount st;
         failedCount := failedCount st;
         checkpointFile := checkpointFile st;
         registryFile := registryFile st;
         results := results st;
         trace := trace st |}
      code (fst run) (snd run).

Definition runTasks (args : CliArgs) (browser : Browser)
    (clock : string -> string) (st : Session) (todo : list string)
    : Session :=
  fold_left (runTask args browser clock (length todo)) todo st.

(** The session [main] starts the tasks from. *)
Definition startSession (checkpoint0 : Checkpoint)
    (registry0 : ScrapedCodesRegistry) (cf : File Checkpoint)
    (rf : File ScrapedCodesRegistry) : Session :=
  {| checkpoint := checkpoint0; registry := registry0;
     processedCount := 0; succeededCount := 0; failedCount := 0;
     checkpointFile := cf; registryFile := rf;
     results := []; trace := [] |}.

(** [results.filter((r) => r !== null && r.success)], the manifest. *)
Definition manifestOf (st : Session) : list DownloadResult :=
  omap (λ r, match r with
             | Some result => if dr_success result then Some result else None
             | None => None
             end) (results st).

(** [main], from the two files and the parsed rows to the session it ends
    with: load, resolve, run the tasks, save. With nothing to process it
    returns before the browser is launched and saves nothing. *)
Definition main (args : CliArgs) (rows : list Purchase) (browser : Browser)
    (clock : string -> string) (now : string)
    (cf : File Checkpoint) (rf : File ScrapedCodesRegistry) : Session :=
  let loadedRegistry := loadScrapedCodesRegistry rf now in
  let loadedCheckpoint :=
    if fresh args then (emptyCheckpoint now, [])
    else loadCheckpoint cf now in
  let st0 :=
    {| checkpoint := fst loadedCheckpoint;
       registry := fst loadedRegistry;
       processedCount := 0; succeededCount := 0; failedCount := 0;
       checkpointFile := cf; registryFile := rf;
       results := [];
       trace := map Log (snd loadedRegistry ++ snd loadedCheckpoint) |} in
  let allCodes := extractUniqueCodes rows in
  let todo := codesToProcess args allCodes (registry st0) (checkpoint st0) in
  if (length todo =? 0)%nat then st0
  else
    let st := runTasks args browser clock st0 todo in
    let saved := saveScrapedCodesRegistry (registry st) now in
    {| checkpoint := checkpoint st;
       registry := fst saved;
       processedCount := processedCount st;
       succeededCount := succeededCount st;
       failedCount := failedCount st;
       checkpointFile := saveCheckpoint (checkpoint st);
       registryFile := snd saved;
       results := results st;
       trace := trace st |}.

(** The body of the loop of [parseArgs]. A [--test=] argument counts when
    what follows the sign [=] (up to a second one) reads as a number above 0;
    any other argument is passed over. *)
Definition parseArg (parsed : CliArgs) (arg : string) : CliArgs :=
  if String.eqb arg "--fresh" then
    {| fresh := true; test := test parsed; retry := retry parsed |}
  else if String.eqb arg "--retry" then
    {| fresh := fresh parsed; test := test parsed; retry := true |}
  else if String.prefix "--test=" arg then
    match split "=" arg !! 1%nat ≫= parseInt with
    | Some value =>
        if (0 <? value)%Z then
          {| fresh := fresh parsed; test := Some (Z.to_nat value);
             retry := retry parsed |}
        else parsed
    | None => parsed
    end
  else parsed.

(** [parseArgs()], from [process.argv]. *)
Definition parseArgs (argv : list string) : CliArgs :=
  fold_left parseArg (drop 2 argv)
            {| fresh := false; test := None; retry := false |}.

End ScrapeDocuments.

(* ====================================================================== *)
(** * JSON.stringify, on the values the classifier serializes *)
(* ====================================================================== *)

Module Json.

Definition dquote : ascii := "034"%char.
Definition backslash : ascii := "092"%char.

(** One hexadecimal digit, lower case. *)
Definition hexDigit (n : nat) : ascii :=
  match n with
  | 0 => "0" | 1 => "1" | 2 => "2" | 3 => "3" | 4 => "4" | 5 => "5"
  | 6 => "6" | 7 => "7" | 8 => "8" | 9 => "9" | 10 => "a" | 11 => "b"
  | 12 => "c" | 13 => "d" | 14 => "e" | _ => "f"
  end%char.

(** What [QuoteJSONString] writes for one code unit: the two-character
    escapes, [\u00XX] for the other control characters, the code unit
    itself otherwise. *)
Definition escape (c : ascii) : list ascii :=
  let n := nat_of_ascii c in
  if (n =? 34)%nat then [backslash; dquote]
  else if (n =? 92)%nat then [backslash; backslash]
  else if (n =? 8)%nat then [backslash; "b"%char]
  else if (n =? 12)%nat then [backslash; "f"%char]
  else if (n =? 10)%nat then [backslash; "n"%char]
  else if (n =? 13)%nat then [backslash; "r"%char]
  else if (n =? 9)%nat then [backslash; "t"%char]
  else if (n <? 32)%nat then
    [backslash; "u"%char; "0"%char; "0"%char;
     hexDigit (n / 16); hexDigit (n mod 16)]
  else [c].

(** A string, quoted. *)
Definition quote (s : string) : list ascii :=
  dquote :: flat_map escape (list_ascii_of_string s) ++ [dquote].

(** An integer: its decimal digits, after a minus sign if negative. *)
Definition number (z : Z) : list ascii :=
  list_ascii_of_string (pretty z).

(** The elements after the first, each after a comma. *)
Fixpoint afterFirst (xs : list (list ascii)) : list ascii :=
  match xs with
  | [] => []
  | x :: rest => ","%char :: x ++ afterFirst rest
  end.

(** An array of serialized elements. *)
Definition array (xs : list (list ascii)) : list ascii :=
  "["%char ::
  match xs with
  | [] => []
  | x :: rest => x ++ afterFirst rest
  end ++ ["]"%char].

(** ** The values of [JSON.parse] *)

(** What [JSON.parse] returns. An object is the list of its properties in
    the order in which the engine enumerates them. *)
#[warnings="-register-all"] Inductive value : Type :=
| JNull
| JBool (b : bool)
| JNumber (x : float)
| JString (s : string)
| JArray (elements : list value)
| JObject (properties : list (string * value)).

(** The own property [key] of an object. *)
Fixpoint property (key : string) (properties : list (string * value))
    : option value :=
  match properties with
  | [] => None
  | (k, v) :: rest => if String.eqb k key then Some v else property key rest
  end.

(** [v.key] for a value other than [null] and a name that is no index, not
    [length] and not defined by a prototype: the own property of an object,
    [undefined] on everything else. *)
Definition get (v : value) (key : string) : option value :=
  match v with
  | JObject properties => property key properties
  | _ => None
  end.

(** Truthiness. *)
Definition truthy (v : value) : bool :=
  match v with
  | JNull => false
  | JBool b => b
  | JNumber x => negb (PrimFloat.is_zero x || PrimFloat.is_nan x)
  | JString s => Js.truthy s
  | JArray _ | JObject _ => true
  end.

(** A number as [JSON.stringify] writes it: [null] when it is not finite. *)
Definition numberText (x : float) : list ascii :=
  match Prim2SF x with
  | S754_nan | S754_infinity _ => list_ascii_of_string "null"
  | _ => list_ascii_of_string (Js.numberToString x)
  end.

(** An object of serialized members. *)
Definition object (members : list (list ascii)) : list ascii :=
  "{"%char ::
  match members with
  | [] => []
  | x :: rest => x ++ afterFirst rest
  end ++ ["}"%char].

(** The text [JSON.stringify] writes for a value. *)
Fixpoint write (v : value) : list ascii :=
  match v with
  | JNull => list_ascii_of_string "null"
  | JBool b => list_ascii_of_string (if b then "true" else "false")
  | JNumber x => numberText x
  | JString s => quote s
  | JArray elements => array (map write elements)
  | JObject properties =>
      object (map (λ p, quote (fst p) ++ ":"%char :: write (snd p))
                  properties)
  end.

(** [JSON.stringify(v)]; of [undefined] it is [undefined]. *)
Definition stringify (v : option value) : option string :=
  (λ v, string_of_list_ascii (write v)) <$> v.

(** [a === b] for two results of [JSON.stringify]. *)
Definition sameText (a b : option string) : bool :=
  match a, b with
  | Some s, Some t => String.eqb s t
  | None, None => true
  | _, _ => false
  end.

Definition notPrimitive : Js.exn :=
  Js.ErrorWith "Cannot convert object to primitive value".

(** [String(v)]. An array joins the texts of its elements, [null] counting
    for nothing; an object answers with the [toString] it inherits, unless a
    property of its own hides that one, and then the conversion throws. *)
Fixpoint toText (v : value) : Js.outcome string :=
  match v with
  | JNull => Js.Ok "null"
  | JBool b => Js.Ok (if b then "true" else "false")
  | JNumber x => Js.Ok (Js.numberToString x)
  | JString s => Js.Ok s
  | JArray elements =>
      Js.bind
        ((fix join (l : list value) : Js.outcome (list string) :=
            match l with
            | [] => Js.Ok []
            | element :: l' =>
                Js.bind match element with
                        | JNull => Js.Ok ""
                        | _ => toText element
                        end (λ t,
                Js.bind (join l') (λ ts, Js.Ok (t :: ts)))
            end) elements)
        (λ parts, Js.Ok (String.concat "," parts))
  | JObject properties =>
      match property "toString" properties with
      | Some _ => Js.Throw notPrimitive
      | None => Js.Ok "[object Object]"
      end
  end.

(** [ToNumber(v)], as the operator [*] applies it to an operand. *)
Definition toNumber (v : option value) : Js.outcome float :=
  match v with
  | None => Js.Ok PrimFloat.nan
  | Some JNull => Js.Ok PrimFloat.zero
  | Some (JBool b) => Js.Ok (if b then PrimFloat.one else PrimFloat.zero)
  | Some (JNumber x) => Js.Ok x
  | Some (JString s) => Js.Ok (Js.stringToNumber s)
  | Some (JArray elements) =>
      Js.bind (toText (JArray elements)) (λ t, Js.Ok (Js.stringToNumber t))
  | Some (JObject properties) =>
      Js.bind (toText (JObject properties))
              (λ t, Js.Ok (Js.stringToNumber t))
  end.

End Json.

(* ====================================================================== *)
(** * scripts/gemini-processor.ts *)
(* ====================================================================== *)

Module GeminiProcessor.

(** [interface ExtractedItem] *)
Record ExtractedItem : Type := mkItem {
  descripcion : string;
  cantidad : Z;
  precio_unitario : Z;
}.

Global Instance ExtractedItem_eq_dec : EqDecision ExtractedItem.
Proof. solve_decision. Defined.

(** [interface ExtractedData] *)
Record ExtractedData : Type := mkData {
  items : list ExtractedItem;
  total_orden : option Z;
  legible : bool;
  data_error : option string;
}.

(** [interface FileProcessResult] *)
Record FileProcessResult : Type := mkFileResult {
  filename : string;
  success : bool;
  data : option ExtractedData;
  error : option string;
}.

Inductive Marca : Type := sobreprecio | falta_datos | normal.
Inductive Confidence : Type := alta | media | baja.

Global Instance Marca_eq_dec : EqDecision Marca.
Proof. solve_decision. Defined.
Global Instance Confidence_eq_dec : EqDecision Confidence.
Proof. solve_decision. Defined.

(** The object [comparAndMark] returns. *)
Record Comparison : Type := mkComparison {
  c_marca : Marca;
  c_confidence : Confidence;
  c_items : list ExtractedItem;
  c_filesProcessed : nat;
}.

(** [r.success && r.data]: an object is always truthy. *)
Definition isSuccessful (r : FileProcessResult) : bool :=
  success r && bool_decide (is_Some (data r)).

(** [r.data!.items] *)
Definition itemsOf (r : FileProcessResult) : list ExtractedItem :=
  from_option items [] (data r).

(** [JSON.stringify] of one item: its three properties, in the order of
    the interface. *)
Definition stringifyItem (item : ExtractedItem) : list ascii :=
  "{"%char :: Json.quote "descripcion" ++
  ":"%char :: Json.quote (descripcion item) ++
  ","%char :: Json.quote "cantidad" ++
  ":"%char :: Json.number (cantidad item) ++
  ","%char :: Json.quote "precio_unitario" ++
  ":"%char :: Json.number (precio_unitario item) ++ ["}"%char].

(** [JSON.stringify(items)] *)
Definition stringify (items : list ExtractedItem) : string :=
  string_of_list_ascii (Json.array (map stringifyItem items)).

(** [JSON.stringify(a) === JSON.stringify(b)] *)
Definition sameJson (a b : list ExtractedItem) : bool :=
  String.eqb (stringify a) (stringify b).

(** [successfulResults.length >= results.length * 0.7]. The product is a
    double; for the lengths an array can have it compares with an integer as
    the exact product does, which is the comparison written here (see
    [threshold_double] for the check against binary64 arithmetic). *)
Definition meetsThreshold (successful total : nat) : bool :=
  (7 * Z.of_nat total <=? 10 * Z.of_nat successful)%Z.

(** The same test evaluated in binary64, as the engine does; the literal is
    the double that [0.7] denotes. *)
Definition meetsThresholdDouble (successful total : nat) : bool :=
  PrimFloat.leb
    (PrimFloat.mul (PrimFloat.of_uint63 (Uint63.of_Z (Z.of_nat total)))
                   0x1.6666666666666p-1%float)
    (PrimFloat.of_uint63 (Uint63.of_Z (Z.of_nat successful))).

Definition comparAndMark (results : list FileProcessResult) : Comparison :=
  let successfulResults := filter (λ r, isSuccessful r = true) results in
  if (length successfulResults =? 0)%nat then
    {| c_marca := falta_datos; c_confidence := baja; c_items := [];
       c_filesProcessed := 0 |}
  else
    let itemsArrays := map itemsOf successfulResults in
    let first := default [] (itemsArrays !! 0%nat) in
    let allEqual := forallb (λ items, sameJson items first) itemsArrays in
    let verdict :=
      if allEqual && (length first =? 1)%nat then (sobreprecio, alta)
      else if negb allEqual then
        (falta_datos,
         if meetsThreshold (length successfulResults) (length results)
         then media else baja)
      else (normal, alta) in
    {| c_marca := fst verdict; c_confidence := snd verdict;
       c_items := first;
       c_filesProcessed := length successfulResults |}.

(** The MIME type [processFile] sends with a file. *)
Definition mimeTypeOf (filePath : string) : string :=
  let lower := Js.toLowerCase filePath in
  if Js.endsWith lower ".pdf" then "application/pdf"
  else if Js.endsWith lower ".jpg" || Js.endsWith lower ".jpeg"
       then "image/jpeg"
  else if Js.endsWith lower ".png" then "image/png"
  else "application/pdf".

(** [text.match(/\{[\s\S]*\}/)]: from the first opening brace to the last
    closing brace after it. *)
Definition extractJson (text : string) : option string :=
  match Js.fromFirst "{" (list_ascii_of_string text) with
  | Some (brace :: rest) =>
      (λ body, string_of_list_ascii (brace :: body))
        <$> Js.upToLast "}" rest
  | _ => None
  end.

(** What [processFile] works with: the environment variable, the file
    system, the service and the parser. The service is asked once per file;
    what it answers to the request for the file at position [index] of a run
    is the response text, or an exception. [parseJson] is [JSON.parse] read
    at the type [ExtractedData], and [parseMessage] the message of its
    [SyntaxError]. *)
Record Gemini : Type := mkGemini {
  apiKey : option string;
  readFileSync : string -> Js.outcome string;
  generateContent : nat -> string -> string -> Js.outcome string;
  parseJson : string -> Js.outcome ExtractedData;
  parseMessage : string -> string;
}.

(** The [try] block of [processFile]. *)
Definition tryProcessFile (g : Gemini) (index : nat) (filePath : string)
    : Js.outcome FileProcessResult :=
  let filename := Js.basename filePath in
  if negb (Js.truthy (default "" (apiKey g))) then
    Js.Throw
      (Js.ErrorWith "GOOGLE_AI_API_KEY environment variable is not set")
  else
    Js.bind (readFileSync g filePath) (λ fileBuffer,
    Js.bind (generateContent g index fileBuffer (mimeTypeOf filePath))
            (λ text,
    match extractJson text with
    | None =>
        Js.Ok {| filename := filename; success := false; data := None;
                 error := Some ("No JSON found in response. Got: " +:+
                                substring 0 100 text) |}
    | Some json =>
        Js.bind (parseJson g json) (λ parsed,
        if negb (legible parsed) then
          Js.Ok {| filename := filename; success := false; data := None;
                   error := Some (Js.or_else (data_error parsed)
                                             "Document not readable") |}
        else
          Js.Ok {| filename := filename; success := true;
                   data := Some parsed; error := None |})
    end)).

(** [processFile]: what the block returns, or the failure its [catch] makes
    of what it throws. *)
Definition processFile (g : Gemini) (index : nat) (filePath : string)
    : FileProcessResult :=
  match tryProcessFile g index filePath with
  | Js.Ok result => result
  | Js.Throw e =>
      {| filename := Js.basename filePath; success := false; data := None;
         error := Some match e with
                       | Js.ErrorWith message => message
                       | Js.SyntaxError text => parseMessage g text
                       end |}
  end.

(** [processFiles]: the results in the order of the paths, and the pauses. *)
Definition processFiles (g : Gemini) (filePaths : list string)
    : list FileProcessResult * list Js.effect :=
  (imap (processFile g) filePaths, map (λ _, Js.Sleep 4000) filePaths).

End GeminiProcessor.

(* ====================================================================== *)
(** * scripts/data-manager.ts *)
(* ====================================================================== *)

Module DataManager.
Import Js.

(** [interface PendingData] *)
Record PendingData : Type := mkPending {
  p_codes : list string;
  p_lastUpdated : string;
  totalPending : Z;
}.

(** [interface ProcessedOrder] *)
Record ProcessedOrder : Type := mkOrder {
  po_code : string;
  po_marca : GeminiProcessor.Marca;
  po_items : list GeminiProcessor.ExtractedItem;
  po_total_orden : option Z;
  processedAt : string;
  po_confidence : GeminiProcessor.Confidence;
  po_filesProcessed : nat;
}.

(** [interface ProcessedData] *)
Record ProcessedData : Type := mkProcessed {
  orders : list ProcessedOrder;
  totalProcessed : Z;
  o_lastUpdated : string;
}.

(** [interface FailedCode] *)
Record FailedCode : Type := mkFailedCode {
  fc_code : string;
  fc_error : string;
  fc_attempts : Z;
  lastAttempt : string;
}.

(** [interface FailedData] *)
Record FailedData : Type := mkFailed {
  f_codes : list FailedCode;
  totalFailed : Z;
  f_lastUpdated : string;
}.

(** The three files of [DATA_DIR]. *)
Record Disk : Type := mkDisk {
  pendingFile : File PendingData;
  processedFile : File ProcessedData;
  failedFile : File FailedData;
}.

(** The loaders have no [try]: an unparsable file throws out of them. *)
Definition loadPending (disk : Disk) (now : string) : outcome PendingData :=
  match pendingFile disk with
  | Absent => Ok {| p_codes := []; p_lastUpdated := now; totalPending := 0 |}
  | Unparsable text => Throw (SyntaxError text)
  | Stored v => Ok v
  end.

Definition savePending (disk : Disk) (data : PendingData) (now : string)
    : Disk :=
  {| pendingFile :=
       Stored {| p_codes := p_codes data; p_lastUpdated := now;
                 totalPending := Z.of_nat (length (p_codes data)) |};
     processedFile := processedFile disk;
     failedFile := failedFile disk |}.

(** [arr.slice(0, n)] for an integer [n]; a negative [n] counts from the
    end. *)
Definition slice0 {A} (n : Z) (arr : list A) : list A :=
  if (n <? 0)%Z then take (Z.to_nat (Z.of_nat (length arr) + n)) arr
  else take (Z.to_nat n) arr.

Definition getPendingBatch (disk : Disk) (batchSize : Z) (now : string)
    : outcome (list string) :=
  bind (loadPending disk now) (λ pending,
  Ok (slice0 batchSize (p_codes pending))).

Definition removePendingCode (disk : Disk) (code : string) (now : string)
    : outcome Disk :=
  bind (loadPending disk now) (λ pending,
  Ok (savePending disk
        {| p_codes := filter (λ c, c ≠ code) (p_codes pending);
           p_lastUpdated := p_lastUpdated pending;
           totalPending := totalPending pending |} now)).

Definition removePendingCodes (disk : Disk) (codes : list string)
    (now : string) : outcome Disk :=
  bind (loadPending disk now) (λ pending,
  let codeSet : gset string := list_to_set codes in
  Ok (savePending disk
        {| p_codes := filter (λ c, c ∉ codeSet) (p_codes pending);
           p_lastUpdated := p_lastUpdated pending;
           totalPending := totalPending pending |} now)).

Definition loadProcessed (disk : Disk) (now : string)
    : outcome ProcessedData :=
  match processedFile disk with
  | Absent => Ok {| orders := []; totalProcessed := 0; o_lastUpdated := now |}
  | Unparsable text => Throw (SyntaxError text)
  | Stored v => Ok v
  end.

Definition saveProcessed (disk : Disk) (data : ProcessedData) (now : string)
    : Disk :=
  {| pendingFile := pendingFile disk;
     processedFile :=
       Stored {| orders := orders data;
                 totalProcessed := Z.of_nat (length (orders data));
                 o_lastUpdated := now |};
     failedFile := failedFile disk |}.

Definition addProcessedOrder (disk : Disk) (order : ProcessedOrder)
    (now : string) : outcome Disk :=
  bind (loadProcessed disk now) (λ processed,
  let exists_ :=
    existsb (λ o, bool_decide (po_code o = po_code order))
            (orders processed) in
  if negb exists_ then
    Ok (saveProcessed disk
          {| orders := orders processed ++ [order];
             totalProcessed := totalProcessed processed;
             o_lastUpdated := o_lastUpdated processed |} now)
  else Ok disk).

Definition addProcessedOrders (disk : Disk) (new : list ProcessedOrder)
    (now : string) : outcome Disk :=
  bind (loadProcessed disk now) (λ processed,
  let existingCodes : gset string :=
    list_to_set (map po_code (orders processed)) in
  let newOrders := filter (λ o, po_code o ∉ existingCodes) new in
  Ok (saveProcessed disk
        {| orders := orders processed ++ newOrders;
           totalProcessed := totalProcessed processed;
           o_lastUpdated := o_lastUpdated processed |} now)).

Definition loadFailed (disk : Disk) (now : string) : outcome FailedData :=
  match failedFile disk with
  | Absent => Ok {| f_codes := []; totalFailed := 0; f_lastUpdated := now |}
  | Unparsable text => Throw (SyntaxError text)
  | Stored v => Ok v
  end.

Definition saveFailed (disk : Disk) (data : FailedData) (now : string)
    : Disk :=
  {| pendingFile := pendingFile disk;
     processedFile := processedFile disk;
     failedFile :=
       Stored {| f_codes := f_codes data;
                 totalFailed := Z.of_nat (length (f_codes data));
                 f_lastUpdated := now |} |}.

Definition addFailedCode (disk : Disk) (code error : string) (now : string)
    : outcome Disk :=
  bind (loadFailed disk now) (λ failed,
  let codes' :=
    match list_find (λ f, fc_code f = code) (f_codes failed) with
    | Some (i, existing) =>
        <[i := {| fc_code := fc_code existing; fc_error := error;
                  fc_attempts := fc_attempts existing + 1;
                  lastAttempt := now |}]> (f_codes failed)
    | None =>
        f_codes failed ++
          [{| fc_code := code; fc_error := error; fc_attempts := 1;
              lastAttempt := now |}]
    end in
  Ok (saveFailed disk
        {| f_codes := codes'; totalFailed := totalFailed failed;
           f_lastUpdated := f_lastUpdated failed |} now)).

Definition getRetryableFailed (disk : Disk) (maxAttempts : Z) (now : string)
    : outcome (list string) :=
  bind (loadFailed disk now) (λ failed,
  Ok (map fc_code
        (filter (λ f, (fc_attempts f < maxAttempts)%Z) (f_codes failed)))).

(** An integer as the double it is (exact below 2^53). *)
Definition toDouble (z : Z) : float :=
  if (z <? 0)%Z then PrimFloat.opp (PrimFloat.of_uint63 (Uint63.of_Z (- z)))
  else PrimFloat.of_uint63 (Uint63.of_Z z).

(** The object [getStats] returns. *)
Record Stats : Type := mkStats {
  s_pending : Z;
  s_processed : Z;
  s_failed : Z;
  s_total : Z;
  s_completion : float;
}.

Definition getStats (disk : Disk) (now : string) : outcome Stats :=
  bind (loadPending disk now) (λ pending,
  bind (loadProcessed disk now) (λ processed,
  bind (loadFailed disk now) (λ failed,
  Ok {| s_pending := totalPending pending;
        s_processed := totalProcessed processed;
        s_failed := totalFailed failed;
        s_total := totalPending pending + totalProcessed processed
                   + totalFailed failed;
        s_completion :=
          PrimFloat.mul
            (PrimFloat.div
               (toDouble (totalProcessed processed))
               (toDouble (totalPending pending + totalProcessed processed
                          + totalFailed failed)))
            100%float |}))).

End DataManager.

(* ====================================================================== *)
(** * scripts/process-batch.ts *)
(* ====================================================================== *)

Module ProcessBatch.
Import Js GeminiProcessor DataManager.

(** The JSON object the scraper prints ([interface ScraperResult] of
    scraper-single.ts), as [processSingleCode] reads it. *)
Record ScraperResult : Type := mkScraperResult {
  sr_success : bool;
  sr_code : string;
  sr_files : option (list string);
  sr_count : option nat;
  sr_error : option string;
}.

(** What [execSync] of the scraper command comes to: it throws (a non-zero
    exit status or a spawn error), or it returns the standard output, which
    parses as JSON or does not. *)
Inductive ScraperRun : Type :=
| ExecFailed (stderr message : string)
| PrintedGarbage (stdout : string)
| Printed (scraperResult : ScraperResult).

(** The collaborators of [processSingleCode]. [existsDir] and [readdir] are
    asked about the download directory of a code; [processFiles] is the
    extraction of gemini-processor.ts, which never throws; [parseMessage] is
    the message the engine gives the [SyntaxError] for a text. *)
Record World : Type := mkWorld {
  runScraper : string -> ScraperRun;
  parseMessage : string -> string;
  existsDir : string -> bool;
  readdir : string -> list string;
  processFiles : list string -> list FileProcessResult;
}.

(** The object [processSingleCode] resolves to. *)
Record CodeResult : Type := mkCodeResult {
  r_success : bool;
  r_order : option ProcessedOrder;
  r_error : option string;
}.

Definition failure (error : option string) : CodeResult :=
  {| r_success := false; r_order := None; r_error := error |}.

Definition codeDirOf (code : string) : string :=
  "docs/downloads/" +:+ code.

(** [items.reduce((sum, item) => sum + item.precio_unitario * item.cantidad, 0)] *)
Definition orderTotal (items : list ExtractedItem) : Z :=
  fold_left (λ sum item, (sum + precio_unitario item * cantidad item)%Z)
            items 0%Z.

(** The [try] block of [processSingleCode]: it returns a result or throws.
    The second component is what it logs. *)
Definition tryProcess (world : World) (code : string) (now : string)
    : outcome CodeResult * list entry :=
  match runScraper world code with
  | ExecFailed stderr message =>
      (* the inner catch logs and throws a new Error *)
      (Throw (ErrorWith ("Scraper failed: " +:+
                         (if truthy stderr then stderr else message))),
       [(Error, "Scraper execution failed")])
  | PrintedGarbage stdout =>
      (* JSON.parse(scraperOutput.trim()) throws *)
      (Throw (SyntaxError (trim stdout)), [])
  | Printed scraperResult =>
      if negb (sr_success scraperResult) then
        (Ok (failure (sr_error scraperResult)),
         [(Error, "Scraping failed: " +:+
                  default "undefined" (sr_error scraperResult))])
      else if negb (existsDir world code) then
        (Ok (failure (Some "Download directory not found")),
         [(Error, "Download directory not found")])
      else
        let files := map (λ f, codeDirOf code +:+ "/" +:+ f)
                         (readdir world code) in
        if (length files =? 0)%nat then
          (Ok (failure (Some "No files downloaded")),
           [(Info, "Found 0 files to process");
            (Error, "No files to process")])
        else
          let geminiResults := processFiles world files in
          let comparison := comparAndMark geminiResults in
          let order :=
            {| po_code := code;
               po_marca := c_marca comparison;
               po_items := c_items comparison;
               po_total_orden := Some (orderTotal (c_items comparison));
               processedAt := now;
               po_confidence := c_confidence comparison;
               po_filesProcessed := c_filesProcessed comparison |} in
          (Ok {| r_success := true; r_order := Some order;
                 r_error := None |},
           [(Info, "Found " +:+ pretty (length files) +:+
                   " files to process");
            (Info, "Cleanup complete")])
  end.

(** [error.message] in the [catch] of [processSingleCode]. *)
Definition messageOf (world : World) (e : exn) : string :=
  match e with
  | ErrorWith message => message
  | SyntaxError text => parseMessage world text
  end.

(** [processSingleCode]: the [try] block, and the [catch] that turns what
    it throws into a failed result. *)
Definition processSingleCode (world : World) (code : string) (now : string)
    : CodeResult * list entry :=
  let attempt := tryProcess world code now in
  match fst attempt with
  | Ok result => (result, snd attempt)
  | Throw e =>
      let errorMessage := messageOf world e in
      (failure (Some errorMessage),
       snd attempt ++
       [(Error, "Error processing " +:+ code +:+ ": " +:+ errorMessage)])
  end.

(** The state of the loop of [main]. *)
Record Batch : Type := mkBatch {
  disk : Disk;
  processedCodes : list string;
  failedCodes : list string;
  journal : list entry;
}.

(** The body of the loop of [main] for one code. *)
Definition step (world : World) (clock : string -> string) (b : Batch)
    (code : string) : outcome Batch :=
  let now := clock code in
  let run := processSingleCode world code now in
  let result := fst run in
  match r_success result, r_order result with
  | true, Some order =>
      bind (addProcessedOrder (disk b) order now) (λ disk',
      Ok {| disk := disk';
            processedCodes := processedCodes b ++ [code];
            failedCodes := failedCodes b;
            journal := journal b ++ snd run ++
              [(Info, "Successfully processed " +:+ code)] |})
  | _, _ =>
      bind (addFailedCode (disk b) code
              (or_else (r_error result) "Unknown error") now) (λ disk',
      Ok {| disk := disk';
            processedCodes := processedCodes b;
            failedCodes := failedCodes b ++ [code];
            journal := journal b ++ snd run ++
              [(Info, "Failed to process " +:+ code)] |})
  end.

Fixpoint loop (world : World) (clock : string -> string) (b : Batch)
    (codes : list string) : outcome Batch :=
  match codes with
  | [] => Ok b
  | code :: rest =>
      bind (step world clock b code) (λ b', loop world clock b' rest)
  end.

(** [main]: the batch, the loop, the update of the pending file and the
    statistics of the summary. A [Throw] is the rejection that the last line
    of the script turns into exit status 1. *)
Definition main (world : World) (clock : string -> string)
    (batchSize : Z) (now : string) (disk0 : Disk)
    : outcome (Batch * option Stats) :=
  bind (getPendingBatch disk0 batchSize now) (λ codes,
  if (length codes =? 0)%nat then
    Ok ({| disk := disk0; processedCodes := []; failedCodes := [];
           journal := [(Info, "No pending codes to process!")] |}, None)
  else
    bind (loop world clock
            {| disk := disk0; processedCodes := []; failedCodes := [];
               journal := [] |} codes) (λ b,
    bind (removePendingCodes (disk b)
            (processedCodes b ++ failedCodes b) now) (λ disk',
    bind (getStats disk' now) (λ stats,
    Ok ({| disk := disk'; processedCodes := processedCodes b;
           failedCodes := failedCodes b; journal := journal b |},
        Some stats))))).

End ProcessBatch.

(* ====================================================================== *)
(** * The classifier and the order total on the values of the engine *)
(* ====================================================================== *)

(** [comparAndMark] of gemini-processor.ts and [processSingleCode] of
    process-batch.ts once more, on what the engine hands them at run time.
    The modules above read the extraction data at the types the interfaces
    declare. Here [data] is the value [JSON.parse] returned: [items] is
    whatever the response holds under that name, or nothing; an item has its
    properties in the order of the response; numbers are doubles; reading a
    property of [null] or [undefined] and calling what is no function throw
    a [TypeError], with the message of V8; and directory listing and removal
    may fail. *)
Module Runtime.
Import Js Json.

(** [interface FileProcessResult], with the parsed response as [data]. *)
Record FileProcessResult : Type := mkFileResult {
  filename : string;
  success : bool;
  data : option value;
  error : option string;
}.

(** The object [comparAndMark] returns. *)
Record Comparison : Type := mkComparison {
  c_marca : GeminiProcessor.Marca;
  c_confidence : GeminiProcessor.Confidence;
  c_items : option value;
  c_filesProcessed : nat;
}.

(** [r.success && r.data] *)
Definition isSuccessful (r : FileProcessResult) : bool :=
  success r && from_option truthy false (data r).

(** [r.data!.items], on a result that [isSuccessful]. *)
Definition itemsOf (r : FileProcessResult) : option value :=
  data r ≫= λ d, get d "items".

(** [itemsArrays[0].length === 1] *)
Definition lengthIsOne (items : option value) : outcome bool :=
  match items with
  | None =>
      Throw (ErrorWith
               "Cannot read properties of undefined (reading 'length')")
  | Some JNull =>
      Throw (ErrorWith "Cannot read properties of null (reading 'length')")
  | Some (JArray elements) => Ok (length elements =? 1)%nat
  | Some (JString s) => Ok (String.length s =? 1)%nat
  | Some (JObject properties) =>
      Ok match property "length" properties with
         | Some (JNumber x) => PrimFloat.eqb x 1%float
         | _ => false
         end
  | Some _ => Ok false
  end.

Definition comparAndMark (results : list FileProcessResult)
    : outcome Comparison :=
  let successfulResults := filter (λ r, isSuccessful r = true) results in
  if (length successfulResults =? 0)%nat then
    Ok {| c_marca := GeminiProcessor.falta_datos;
          c_confidence := GeminiProcessor.baja;
          c_items := Some (JArray []);
          c_filesProcessed := 0 |}
  else
    let itemsArrays := map itemsOf successfulResults in
    let first := default None (itemsArrays !! 0%nat) in
    let allEqual :=
      forallb (λ items, sameText (stringify items) (stringify first))
              itemsArrays in
    bind (if allEqual then lengthIsOne first else Ok false) (λ one,
    let verdict :=
      if allEqual && one
      then (GeminiProcessor.sobreprecio, GeminiProcessor.alta)
      else if negb allEqual then
        (GeminiProcessor.falta_datos,
         if GeminiProcessor.meetsThreshold (length successfulResults)
                                           (length results)
         then GeminiProcessor.media else GeminiProcessor.baja)
      else (GeminiProcessor.normal, GeminiProcessor.alta) in
    Ok {| c_marca := fst verdict; c_confidence := snd verdict;
          c_items := first;
          c_filesProcessed := length successfulResults |}).

(** [item.precio_unitario * item.cantidad]: the two properties are read,
    then converted to numbers, the left one first, then multiplied. *)
Definition lineAmount (item : value) : outcome float :=
  match item with
  | JNull =>
      Throw (ErrorWith
               "Cannot read properties of null (reading 'precio_unitario')")
  | _ =>
      bind (toNumber (get item "precio_unitario")) (λ price,
      bind (toNumber (get item "cantidad")) (λ quantity,
      Ok (price * quantity)%float))
  end.

(** The loop of [reduce], from the sum so far. *)
Fixpoint reduceFrom (sum : float) (items : list value) : outcome float :=
  match items with
  | [] => Ok sum
  | item :: rest =>
      bind (lineAmount item) (λ amount, reduceFrom (sum + amount)%float rest)
  end.

(** [comparison.items.reduce((sum, item) => sum + (item.precio_unitario *
    item.cantidad), 0)]: the elements of the array and the total. Only an
    array has a [reduce]. *)
Definition orderTotal (items : option value) : outcome (list value * float) :=
  match items with
  | None =>
      Throw (ErrorWith
               "Cannot read properties of undefined (reading 'reduce')")
  | Some JNull =>
      Throw (ErrorWith "Cannot read properties of null (reading 'reduce')")
  | Some (JArray elements) =>
      bind (reduceFrom 0%float elements) (λ total, Ok (elements, total))
  | Some _ => Throw (ErrorWith "comparison.items.reduce is not a function")
  end.

(** [interface ProcessedOrder], as [processSingleCode] builds it: the items
    are the elements of an array, the total is a double. *)
Record ProcessedOrder : Type := mkOrder {
  po_code : string;
  po_marca : GeminiProcessor.Marca;
  po_items : list value;
  po_total_orden : float;
  processedAt : string;
  po_confidence : GeminiProcessor.Confidence;
  po_filesProcessed : nat;
}.

(** The collaborators of [processSingleCode]: the scraper command, the
    message of a [SyntaxError], the download directory of a code
    ([existsSync], [readdirSync] and [rmSync], the last two of which may
    throw) and the extraction. *)
Record World : Type := mkWorld {
  runScraper : string -> ProcessBatch.ScraperRun;
  parseMessage : string -> string;
  existsDir : string -> bool;
  readdir : string -> outcome (list string);
  processFiles : list string -> list FileProcessResult;
  rmSync : string -> outcome unit;
}.

(** The object [processSingleCode] resolves to. *)
Record CodeResult : Type := mkCodeResult {
  r_success : bool;
  r_order : option ProcessedOrder;
  r_error : option string;
}.

Definition failure (error : option string) : CodeResult :=
  {| r_success := false; r_order := None; r_error := error |}.

(** Steps 3 to 6 of the [try] block: extraction, comparison, the order with
    its total, and the removal of the directory. *)
Definition buildOrder (world : World) (code : string) (now : string)
    (files : list string) : outcome ProcessedOrder :=
  let geminiResults := processFiles world files in
  bind (comparAndMark geminiResults) (λ comparison,
  bind (orderTotal (c_items comparison)) (λ totalled,
  bind (rmSync world code) (λ _,
  Ok {| po_code := code;
        po_marca := c_marca comparison;
        po_items := fst totalled;
        po_total_orden := snd totalled;
        processedAt := now;
        po_confidence := c_confidence comparison;
        po_filesProcessed := c_filesProcessed comparison |}))).

(** The [try] block of [processSingleCode]: it returns a result or throws.
    The second component is what it logs. *)
Definition tryProcess (world : World) (code : string) (now : string)
    : outcome CodeResult * list entry :=
  match runScraper world code with
  | ProcessBatch.ExecFailed stderr message =>
      (Throw (ErrorWith ("Scraper failed: " +:+
                         (if Js.truthy stderr then stderr else message))),
       [(Error, "Scraper execution failed")])
  | ProcessBatch.PrintedGarbage stdout =>
      (Throw (SyntaxError (trim stdout)), [])
  | ProcessBatch.Printed scraperResult =>
      if negb (ProcessBatch.sr_success scraperResult) then
        (Ok (failure (ProcessBatch.sr_error scraperResult)),
         [(Error, "Scraping failed: " +:+
                  default "undefined"
                          (ProcessBatch.sr_error scraperResult))])
      else if negb (existsDir world code) then
        (Ok (failure (Some "Download directory not found")),
         [(Error, "Download directory not found")])
      else
        match readdir world code with
        | Throw e => (Throw e, [])
        | Ok names =>
            let files := map (λ f, ProcessBatch.codeDirOf code +:+ "/" +:+ f)
                             names in
            if (length files =? 0)%nat then
              (Ok (failure (Some "No files downloaded")),
               [(Info, "Found 0 files to process");
                (Error, "No files to process")])
            else
              let found := (Info, "Found " +:+ pretty (length files) +:+
                                  " files to process") in
              match buildOrder world code now files with
              | Ok order =>
                  (Ok {| r_success := true; r_order := Some order;
                         r_error := None |},
                   [found; (Info, "Cleanup complete")])
              | Throw e => (Throw e, [found])
              end
        end
  end.

(** [error.message] in the [catch] of [processSingleCode]. *)
Definition messageOf (world : World) (e : exn) : string :=
  match e with
  | ErrorWith message => message
  | SyntaxError text => parseMessage world text
  end.

(** [processSingleCode]: the [try] block, and the [catch], which logs,
    removes the download directory if there is one and answers with a failed
    result. What the removal throws there, nothing catches. *)
Definition processSingleCode (world : World) (code : string) (now : string)
    : outcome CodeResult * list entry :=
  let attempt := tryProcess world code now in
  match fst attempt with
  | Ok result => (Ok result, snd attempt)
  | Throw e =>
      let errorMessage := messageOf world e in
      let log := snd attempt ++
        [(Error, "Error processing " +:+ code +:+ ": " +:+ errorMessage)] in
      if existsDir world code then
        match rmSync world code with
        | Ok _ => (Ok (failure (Some errorMessage)), log)
        | Throw e' => (Throw e', log)
        end
      else (Ok (failure (Some errorMessage)), log)
  end.

End Runtime.

(* ====================================================================== *)
(** * docs/scraper-single.ts: the command *)
(* ====================================================================== *)

Module ScraperCli.
Import Js ProcessBatch.

(** What the browser session of [processSingleCode] comes to: an exception
    escapes the function (from the launch of the browser or the opening of
    the search page, before the [try], or from the clean-up in the [catch]);
    or the order is not found; or the stages run and the download directory,
    which [getCodeDirectory] creates when it is missing, holds the files
    listed; or something throws inside the [try] and is caught. *)
Inductive Visit : Type :=
| Rejected (errorMessage : string)
| NotFound
| Visited (fileNames : list string)
| Broke (errorMessage : string).

Definition codeDirectory (code : string) : string :=
  "docs/downloads/" +:+ code.

(** [processSingleCode(code)]: the result it resolves to, or the message of
    the error it rejects with. *)
Definition processSingleCode (visit : string -> Visit) (code : string)
    : ScraperResult + string :=
  match visit code with
  | Rejected errorMessage => inr errorMessage
  | NotFound =>
      inl {| sr_success := false; sr_code := code; sr_files := None;
             sr_count := None;
             sr_error := Some "Failed to navigate to purchase order" |}
  | Visited fileNames =>
      let files := map (λ f, codeDirectory code +:+ "/" +:+ f) fileNames in
      inl {| sr_success := true; sr_code := code; sr_files := Some files;
             sr_count := Some (length files); sr_error := None |}
  | Broke errorMessage =>
      inl {| sr_success := false; sr_code := code; sr_files := None;
             sr_count := None; sr_error := Some errorMessage |}
  end.

(** What a run of the command leaves: the object printed on the standard
    output and the exit status. *)
Record Output : Type := mkOutput {
  printed : ScraperResult;
  status : nat;
}.

Definition failed (code error : string) : Output :=
  {| printed := {| sr_success := false; sr_code := code; sr_files := None;
                   sr_count := None; sr_error := Some error |};
     status := 1 |}.

(** [main()], from [process.argv[2]]. *)
Definition main (visit : string -> Visit) (argument : option string)
    : Output :=
  match argument with
  | None =>
      failed "" "Missing code argument. Usage: tsx scraper-single.ts {codigo}"
  | Some code =>
      if negb (truthy code) then
        failed ""
          "Missing code argument. Usage: tsx scraper-single.ts {codigo}"
      else if negb (ScraperSingle.hasBasicFormat code) then
        failed code ("Invalid code format: " +:+ code +:+
                     ". Expected format: XXXX-XXX-XX25")
      else
        match processSingleCode visit code with
        | inl result =>
            {| printed := result;
               status := if sr_success result then 0 else 1 |}
        | inr errorMessage =>
            failed code ("Unexpected error: " +:+ errorMessage)
        end
  end.

(** The machine process-batch.ts runs the command on: what the shell makes
    of the quoted code ([None] when the command cannot be started), the
    browser, and the two texts of the error [execSync] throws. *)
Record Machine : Type := mkMachine {
  shell : string -> option (option string);
  visit : string -> Visit;
  stderrOf : string -> string;
  commandFailed : string -> string;
}.

(** [execSync(scraperCommand)] on that machine: a status other than 0
    throws; otherwise the standard output is the one line the command
    prints. *)
Definition execScraper (m : Machine) (code : string) : ScraperRun :=
  match shell m code with
  | None => ExecFailed (stderrOf m code) (commandFailed m code)
  | Some argument =>
      let out := main (visit m) argument in
      if (status out =? 0)%nat then Printed (printed out)
      else ExecFailed (stderrOf m code) (commandFailed m code)
  end.


End ScraperCli.

(* ====================================================================== *)
(** * docs/csv-utils.ts *)
(* ====================================================================== *)

Module CsvUtils.
Import Js.

(** The object built for one line: a property for each name of the header,
    holding the value at the position of the name, or the empty string when
    the line has no value there or an empty one. A name that the header
    holds twice keeps the value of its last position. *)
Definition rowOf (header values : list string) : gmap string string :=
  fold_left (λ row p, <[snd p := or_else (values !! fst p) ""]> row)
            (imap pair header) ∅.

(** [parseCsv(filePath)]; [None] is the file that cannot be read. The second
    component is what it logs. *)
Definition parseCsv (file : option string)
    : list (gmap string string) * list entry :=
  match file with
  | None => ([], [(Error, "Failed to parse CSV:")])
  | Some content =>
      let lines := split (ascii_of_nat 10) (trim content) in
      match lines with
      | [] => ([], [])
      | first :: rest =>
          let header := split "," first in
          (map (λ line, rowOf header (split "," line)) rest, [])
      end
  end.

(** [row as Purchase]: the columns are read by name. The one column that is
    read, [chilecompra_code], is undefined when the header does not have it;
    the nine others, which nothing reads, are written as the empty string
    then. *)
Definition asPurchase (row : gmap string string) : ScraperUtils.Purchase :=
  ScraperUtils.mkPurchase
    (default "" (row !! "id"))
    (row !! "chilecompra_code")
    (default "" (row !! "municipality_id"))
    (default "" (row !! "supplier_rut"))
    (default "" (row !! "quantity"))
    (default "" (row !! "unit_total_price"))
    (default "" (row !! "is_expensive"))
    (default "" (row !! "price_excess_amount"))
    (default "" (row !! "price_excess_percentage"))
    (default "" (row !! "item_id")).

End CsvUtils.

(* ====================================================================== *)
(** * Vocabulary of the statements *)
(* ====================================================================== *)

Module Props.
Import Regex.

(** The shape [isValidCode] accepts, read off its pattern: three to seven
    digits, a hyphen, one to four digits, a hyphen, two capital letters and
    the two characters [25]. *)
Definition strictPattern (code : string) : Prop :=
  exists a b l,
    list_ascii_of_string code
      = a ++ "-"%char :: b ++ "-"%char :: l ++ ["2"%char; "5"%char]
    /\ (3 <= length a <= 7) /\ all digit a
    /\ (1 <= length b <= 4) /\ all digit b
    /\ length l = 2 /\ all upper l.

(** Following the words of the specification: "a numeric segment, a hyphen,
    a numeric segment, a hyphen, two uppercase letters, and two digits". *)
Definition describedPattern (code : string) : Prop :=
  exists a b l d,
    list_ascii_of_string code = a ++ "-"%char :: b ++ "-"%char :: l ++ d
    /\ 1 <= length a /\ all digit a
    /\ 1 <= length b /\ all digit b
    /\ length l = 2 /\ all upper l
    /\ length d = 2 /\ all digit d.

(** What a row contributes to [extractUniqueCodes]: its trimmed code, when
    that is valid. *)
Definition contributes (row : ScraperUtils.Purchase) (c : string) : Prop :=
  exists raw, ScraperUtils.chilecompra_code row = Some raw
              /\ Js.trim raw = c
              /\ ScraperUtils.isValidCode c = true.

(** ** Reading back what [Json.escape] writes *)

Definition hexValue (c : ascii) : nat :=
  match c with
  | "0" => 0 | "1" => 1 | "2" => 2 | "3" => 3 | "4" => 4 | "5" => 5
  | "6" => 6 | "7" => 7 | "8" => 8 | "9" => 9 | "a" => 10 | "b" => 11
  | "c" => 12 | "d" => 13 | "e" => 14 | _ => 15
  end%char.

(** The code unit at the head of an escaped text, and the rest; nothing for
    a text that starts with a bare quote. *)
Definition unescape (w : list ascii) : option (ascii * list ascii) :=
  match w with
  | [] => None
  | c :: r =>
      if Ascii.eqb c Json.backslash then
        match r with
        | [] => None
        | d :: r' =>
            if Ascii.eqb d Json.dquote then Some (Json.dquote, r')
            else if Ascii.eqb d Json.backslash then Some (Json.backslash, r')
            else if Ascii.eqb d "b" then Some (ascii_of_nat 8, r')
            else if Ascii.eqb d "f" then Some (ascii_of_nat 12, r')
            else if Ascii.eqb d "n" then Some (ascii_of_nat 10, r')
            else if Ascii.eqb d "r" then Some (ascii_of_nat 13, r')
            else if Ascii.eqb d "t" then Some (ascii_of_nat 9, r')
            else
              match r' with
              | _ :: _ :: h :: l :: r'' =>
                  Some (ascii_of_nat (16 * hexValue h + hexValue l), r'')
              | _ => None
              end
        end
      else if Ascii.eqb c Json.dquote then None
      else Some (c, r)
  end.

(** ** The consensus classifier *)

(** The results [comparAndMark] counts as successful: flagged so and carrying
    data. *)
Definition successfulOf (results : list GeminiProcessor.FileProcessResult)
    : list GeminiProcessor.FileProcessResult :=
  filter (λ r, GeminiProcessor.isSuccessful r = true) results.

(** All the results have the item list of [first]. *)
Definition agreeWith (first : GeminiProcessor.FileProcessResult)
    (rs : list GeminiProcessor.FileProcessResult) : Prop :=
  Forall (λ r, GeminiProcessor.itemsOf r = GeminiProcessor.itemsOf first) rs.

(** [|successful| / |results| >= 0.7], over the rationals. *)
Definition ratioAtLeast70 (successful total : nat) : Prop :=
  Qle (7 # 10)
      (Qdiv (inject_Z (Z.of_nat successful)) (inject_Z (Z.of_nat total))).

(** ** The processed store *)

(** The record the processed file holds for [code]: the first one with that
    code, if the file is there and parses. *)
Definition storedFor (disk : DataManager.Disk) (code : string)
    : option DataManager.ProcessedOrder :=
  match DataManager.processedFile disk with
  | Js.Stored data =>
      snd <$> list_find (λ o, DataManager.po_code o = code)
                        (DataManager.orders data)
  | _ => None
  end.

(** The store of a fresh checkout: none of the three files exists. *)
Definition emptyDisk : DataManager.Disk :=
  DataManager.mkDisk Js.Absent Js.Absent Js.Absent.

(** The disks the operations of data-manager.ts lead to from [emptyDisk]. *)
Inductive reachable : DataManager.Disk -> Prop :=
| reach_empty : reachable emptyDisk
| reach_savePending disk data now :
    reachable disk -> reachable (DataManager.savePending disk data now)
| reach_removePendingCodes disk codes now disk' :
    reachable disk ->
    DataManager.removePendingCodes disk codes now = Js.Ok disk' ->
    reachable disk'
| reach_addProcessedOrder disk order now disk' :
    reachable disk ->
    DataManager.addProcessedOrder disk order now = Js.Ok disk' ->
    reachable disk'
| reach_addFailedCode disk code error now disk' :
    reachable disk ->
    DataManager.addFailedCode disk code error now = Js.Ok disk' ->
    reachable disk'.

(** ** The two pipelines *)

(** The delays among the effects of a call, in order. *)
Definition sleepsOf (effects : list Js.effect) : list Z :=
  omap (λ x, match x with Js.Sleep ms => Some ms | Js.Log _ => None end)
       effects.

(** The task of scrape-documents.ts skips [code]: the run is not fresh and
    the session has the code as processed. *)
Definition skipped (args : ScrapeDocuments.CliArgs)
    (st : ScrapeDocuments.Session) (code : string) : bool :=
  negb (ScrapeDocuments.fresh args)
  && bool_decide (code ∈ ScraperUtils.cacheOf (ScrapeDocuments.checkpoint st)).



(** ** The progress stores and the operations on them *)

(** The two stores a run of scrape-documents.ts holds in memory. *)
Record Stores : Type := mkStores {
  cp : ScraperUtils.Checkpoint;
  reg : ScraperUtils.ScrapedCodesRegistry;
}.

(** One call on the stores, with its arguments. *)
Inductive StoreOp : Type :=
| MarkProcessed (code now : string)
| MarkFailed (code error : string) (attempts : Z) (now : string)
| AddToScrapedRegistry (code now : string)
| IsProcessed (code : string).

Definition applyOp (s : Stores) (op : StoreOp) : Stores :=
  match op with
  | MarkProcessed code now =>
      {| cp := ScraperUtils.markProcessed (cp s) code now; reg := reg s |}
  | MarkFailed code error attempts now =>
      {| cp := ScraperUtils.markFailed (cp s) code error attempts now;
         reg := reg s |}
  | AddToScrapedRegistry code now =>
      {| cp := cp s;
         reg := ScraperUtils.addToScrapedRegistry (reg s) code now |}
  | IsProcessed code =>
      {| cp := snd (ScraperUtils.isProcessed (cp s) code); reg := reg s |}
  end.


(** [totalProcessed == |processedCodes|] and [totalFailed == |failedCodes|]. *)
Definition countsAgree (c : ScraperUtils.Checkpoint) : Prop :=
  ScraperUtils.totalProcessed c
    = Z.of_nat (length (ScraperUtils.processedCodes c))
  /\ ScraperUtils.totalFailed c
    = Z.of_nat (length (ScraperUtils.failedCodes c)).

(** The lookup cache, once built, holds the processed codes. *)
Definition cacheCoherent (c : ScraperUtils.Checkpoint) : Prop :=
  forall s, ScraperUtils._processedCodesSet c = Some s ->
            s = list_to_set (ScraperUtils.processedCodes c).

(** What every store operation keeps, relative to the stores [s0] the
    sequence started from. *)
Definition kept (s0 s : Stores) : Prop :=
  countsAgree (cp s) /\ cacheCoherent (cp s)
  /\ ScraperUtils.codes (reg s0) `prefix_of` ScraperUtils.codes (reg s)
  /\ (NoDup (ScraperUtils.codes (reg s0))
      -> NoDup (ScraperUtils.codes (reg s)))
  /\ (NoDup (ScraperUtils.processedCodes (cp s0))
      -> NoDup (ScraperUtils.processedCodes (cp s)))
  /\ (NoDup (map ScraperUtils.fe_code (ScraperUtils.failedCodes (cp s0)))
      -> NoDup (map ScraperUtils.fe_code
                    (ScraperUtils.failedCodes (cp s)))).

(** The stores of a session. *)
Definition storesOf (st : ScrapeDocuments.Session) : Stores :=
  {| cp := ScrapeDocuments.checkpoint st;
     reg := ScrapeDocuments.registry st |}.

(** ** Sample collaborators *)

(** The browser on which every attempt throws. *)
Definition alwaysTimeout : ScrapeDocuments.Browser :=
  λ _ _, ScrapeDocuments.Raised "Timeout 60000ms exceeded".


(** An extraction that read the items [its], and one that found the
    document illegible. *)
Definition extracted (its : list GeminiProcessor.ExtractedItem)
    : GeminiProcessor.FileProcessResult :=
  GeminiProcessor.mkFileResult "orden.pdf" true
    (Some (GeminiProcessor.mkData its None true None)) None.

Definition illegible : GeminiProcessor.FileProcessResult :=
  GeminiProcessor.mkFileResult "anexo.png" false None
    (Some "Document not readable").

Definition laptop : GeminiProcessor.ExtractedItem :=
  GeminiProcessor.mkItem "Laptop" 1 500000.

Definition mouse : GeminiProcessor.ExtractedItem :=
  GeminiProcessor.mkItem "Mouse" 10 5000.

(** A browser that finds no attachments for the codes of unit 3506 and
    times out on the others. *)
Definition mixedBrowser : ScrapeDocuments.Browser :=
  λ code attempt,
    if String.prefix "3506-" code then ScrapeDocuments.NoPopup true
    else ScrapeDocuments.Raised "Timeout 60000ms exceeded".

(** A row of the purchases file with the given code column. *)
Definition purchase (code : string) : ScraperUtils.Purchase :=
  ScraperUtils.mkPurchase "1" (Some code) "13101" "76.123.456-7" "1"
                          "15042016" "1" "0" "0" "42".

(** A scraper that leaves three files, each read as the one laptop. *)
Definition threeAgreeingFiles : ProcessBatch.World :=
  {| ProcessBatch.runScraper :=
       λ code, ProcessBatch.Printed
                 (ProcessBatch.mkScraperResult true code None (Some 3%nat)
                                               None);
     ProcessBatch.parseMessage := λ _, "Unexpected end of JSON input";
     ProcessBatch.existsDir := λ _, true;
     ProcessBatch.readdir := λ _, ["a.pdf"; "b.pdf"; "c.pdf"];
     ProcessBatch.processFiles :=
       λ files, map (λ _, extracted [laptop]) files |}.

(** ** File names *)

(** No underscore is followed by an underscore. *)
Fixpoint noDoubleUnderscore (w : list ascii) : bool :=
  match w with
  | c :: w' =>
      match w' with
      | d :: _ =>
          negb (Ascii.eqb ScraperUtils.underscore c
                && Ascii.eqb ScraperUtils.underscore d)
          && noDoubleUnderscore w'
      | [] => true
      end
  | [] => true
  end.

(** A name that [sanitizeFilename] has nothing to do on: none of the nine
    characters, no white space, no two underscores in a row. *)
Definition cleanName (name : string) : Prop :=
  Forall (λ c, ScraperUtils.unsafeChar c = false /\ Js.is_space c = false)
         (list_ascii_of_string name)
  /\ noDoubleUnderscore (list_ascii_of_string name) = true.

(** ** The files of the batch pipeline *)

(** A file that is absent or holds JSON. *)
Definition parses {A} (f : Js.File A) : Prop :=
  match f with
  | Js.Unparsable _ => False
  | _ => True
  end.

(** None of the three files of the store is there with a text that is not
    JSON. *)
Definition readable (disk : DataManager.Disk) : Prop :=
  parses (DataManager.pendingFile disk)
  /\ parses (DataManager.processedFile disk)
  /\ parses (DataManager.failedFile disk).

(** The codes the pending file holds; none when there is no file. *)
Definition pendingOf (disk : DataManager.Disk) : list string :=
  match DataManager.pendingFile disk with
  | Js.Stored data => DataManager.p_codes data
  | _ => []
  end.

(** The entries the failed file holds. *)
Definition failedOf (disk : DataManager.Disk) : list DataManager.FailedCode :=
  match DataManager.failedFile disk with
  | Js.Stored data => DataManager.f_codes data
  | _ => []
  end.

(** The orders the processed file holds. *)
Definition ordersOf (disk : DataManager.Disk)
    : list DataManager.ProcessedOrder :=
  match DataManager.processedFile disk with
  | Js.Stored data => DataManager.orders data
  | _ => []
  end.


(** The stored counters of the files that are there equal the lengths of
    their lists. *)
Definition totalsAgree (disk : DataManager.Disk) : Prop :=
  (forall data, DataManager.pendingFile disk = Js.Stored data ->
     DataManager.totalPending data
     = Z.of_nat (length (DataManager.p_codes data)))
  /\ (forall data, DataManager.processedFile disk = Js.Stored data ->
        DataManager.totalProcessed data
        = Z.of_nat (length (DataManager.orders data)))
  /\ (forall data, DataManager.failedFile disk = Js.Stored data ->
        DataManager.totalFailed data
        = Z.of_nat (length (DataManager.f_codes data))).

(** The attempts the failed file has on record for [code]: those of its
    first entry, 0 without one. *)
Definition failedAttempts (disk : DataManager.Disk) (code : string) : Z :=
  from_option (λ p, DataManager.fc_attempts (snd p)) 0%Z
    (list_find (λ f, DataManager.fc_code f = code) (failedOf disk)).

(** The attempts the checkpoint has on record for [code]: those of its first
    entry, 0 without one. *)
Definition attemptsOn (c : ScraperUtils.Checkpoint) (code : string) : Z :=
  from_option (λ p, ScraperUtils.fe_attempts (snd p)) 0%Z
    (list_find (λ f, ScraperUtils.fe_code f = code)
               (ScraperUtils.failedCodes c)).

(** ** JSON text *)

(** The characters that open or close a string, an array or an object or
    part their members; and those among them that can follow a value. *)
Definition structural (c : ascii) : bool :=
  Ascii.eqb c "," || Ascii.eqb c "]" || Ascii.eqb c "}"
  || Ascii.eqb c Json.dquote || Ascii.eqb c "[" || Ascii.eqb c "{".

Definition closes (c : ascii) : bool :=
  Ascii.eqb c "," || Ascii.eqb c "]" || Ascii.eqb c "}".

(** What can stand after a value in a JSON text: nothing, or a character
    that closes. *)
Definition terminated (r : list ascii) : Prop :=
  match r with
  | [] => True
  | c :: _ => closes c = true
  end.

(** The text of [null], of a boolean, of a number. *)
Definition atomText (v : Json.value) : option (list ascii) :=
  match v with
  | Json.JNull => Some (list_ascii_of_string "null")
  | Json.JBool b => Some (list_ascii_of_string (if b then "true" else "false"))
  | Json.JNumber x => Some (Json.numberText x)
  | _ => None
  end.

(** A character that neither opens nor closes nor separates. *)
Definition plain (c : ascii) : Prop := structural c = false.

(** What [write] has to satisfy on a value for the text of an array or an
    object to be read back: before a terminated rest, its text determines
    the value up to [R] and the rest. *)
Definition delimited {A} (f : A -> list ascii) (R : A -> A -> Prop) (x : A)
    : Prop :=
  forall y r s, terminated r -> terminated s ->
    f x ++ r = f y ++ s -> R x y /\ r = s.

(** Two values are written alike: they are the same string, or arrays of
    as many elements written alike in turn, or objects with the same names
    in the same order holding values written alike, or two of [null], the
    booleans and the numbers with the same text. *)
#[warnings="-register-all"] Inductive sameWritten : Json.value -> Json.value -> Prop :=
| sw_atom a b t :
    atomText a = Some t -> atomText b = Some t -> sameWritten a b
| sw_string s : sameWritten (Json.JString s) (Json.JString s)
| sw_array xs ys :
    Forall2 sameWritten xs ys -> sameWritten (Json.JArray xs) (Json.JArray ys)
| sw_object ps qs :
    Forall2 (λ p q, fst p = fst q /\ sameWritten (snd p) (snd q)) ps qs ->
    sameWritten (Json.JObject ps) (Json.JObject qs).

(** ** The classifier on the values of the engine *)

(** The results [comparAndMark] counts: flagged a success, with data that
    are truthy. *)
Definition counted (results : list Runtime.FileProcessResult)
    : list Runtime.FileProcessResult :=
  filter (λ r, Runtime.success r = true
               /\ Json.truthy <$> Runtime.data r = Some true) results.

(** The data of the result hold [v] under the name [items]. *)
Definition carries (r : Runtime.FileProcessResult) (v : Json.value) : Prop :=
  exists d, Runtime.data r = Some d /\ Json.get d "items" = Some v.

(** Every result carries items that are written like [v]. *)
Definition agreeOn (v : Json.value) (rs : list Runtime.FileProcessResult)
    : Prop :=
  Forall (λ r, exists w, carries r w /\ sameWritten w v) rs.

(** The three fields of a line item, and two lists of items with the same
    fields in the same order. *)
Definition fieldsOf (item : Json.value)
    : option Json.value * option Json.value * option Json.value :=
  (Json.get item "descripcion", Json.get item "cantidad",
   Json.get item "precio_unitario").

Definition sameFields (a b : list Json.value) : Prop :=
  map fieldsOf a = map fieldsOf b.

(** An extraction result with the data [d]. *)
Definition answered (d : Json.value) : Runtime.FileProcessResult :=
  Runtime.mkFileResult "orden.pdf" true (Some d) None.

(** The data of a legible response with the given items. *)
Definition legibleWith (items : list Json.value) : Json.value :=
  Json.JObject [("items", Json.JArray items); ("legible", Json.JBool true)].

(** One laptop, with its properties in the order of the prompt, and with
    the quantity first. *)
Definition laptopLine : Json.value :=
  Json.JObject [("descripcion", Json.JString "Laptop");
                ("cantidad", Json.JNumber 1%float);
                ("precio_unitario", Json.JNumber 500000%float)].

Definition laptopLineQuantityFirst : Json.value :=
  Json.JObject [("cantidad", Json.JNumber 1%float);
                ("descripcion", Json.JString "Laptop");
                ("precio_unitario", Json.JNumber 500000%float)].

(** ** The total of an order *)

(** The price and the quantity of a line, as the numbers the operator [*]
    makes of them. *)
Definition priceOf (item : Json.value) : Js.outcome float :=
  Json.toNumber (Json.get item "precio_unitario").

Definition quantityOf (item : Json.value) : Js.outcome float :=
  Json.toNumber (Json.get item "cantidad").

(** The line has the amount [amount]: the product of its price and its
    quantity, rounded to a double. *)
Definition amountOf (item : Json.value) (amount : float) : Prop :=
  item <> Json.JNull
  /\ exists price quantity,
       priceOf item = Js.Ok price /\ quantityOf item = Js.Ok quantity
       /\ amount = (price * quantity)%float.

(** The sum from left to right, from 0, each addition rounded to a
    double. *)
Definition roundedSum (amounts : list float) : float :=
  fold_left PrimFloat.add amounts 0%float.

(** The integer that a double is, if it is one. *)
Definition integerOf (x : float) : option Z :=
  match Prim2SF x with
  | S754_zero _ => Some 0%Z
  | S754_finite negative m e =>
      (λ a : Z, if negative then (- a)%Z else a) <$>
      (if (0 <=? e)%Z then Some (Zpos m * 2 ^ e)%Z
       else if (Zpos m mod 2 ^ (- e) =? 0)%Z
            then Some (Zpos m / 2 ^ (- e))%Z
            else None)
  | _ => None
  end.

(** The price and the quantity of the line are the integers of [line]. *)
Definition holdsIntegers (item : Json.value) (line : Z * Z) : Prop :=
  item <> Json.JNull
  /\ exists price quantity,
       priceOf item = Js.Ok price /\ quantityOf item = Js.Ok quantity
       /\ integerOf price = Some (fst line)
       /\ integerOf quantity = Some (snd line).

(** The sum of price times quantity over the lines, and the sum of the
    magnitudes of these products. *)
Definition exactTotal (lines : list (Z * Z)) : Z :=
  fold_right Z.add 0%Z (map (λ line, fst line * snd line)%Z lines).

Definition magnitudeTotal (lines : list (Z * Z)) : Z :=
  fold_right Z.add 0%Z (map (λ line, Z.abs (fst line * snd line))%Z lines).

(** How binary64 holds an integer [z] with [0 < z < 2 ^ 53]: the mantissa
    shifted to 53 digits, and the exponent that undoes the shift. *)
Definition integerForm (negative : bool) (z : Z) : spec_float :=
  S754_finite negative (Z.to_pos (z * 2 ^ (53 - Zdigits2 z)))
              (Zdigits2 z - 53).

(** The double [x] is the integer [z]. *)
Definition isInteger (x : float) (z : Z) : Prop :=
  match z with
  | Z0 => exists negative, Prim2SF x = S754_zero negative
  | Zpos _ => Prim2SF x = integerForm false z
  | Zneg _ => Prim2SF x = integerForm true (- z)
  end.

(** The double that is the integer [z], with the zero that is positive. *)
Definition formOf (z : Z) : spec_float :=
  match z with
  | Z0 => S754_zero false
  | Zpos _ => integerForm false z
  | Zneg _ => integerForm true (- z)
  end.

(** The properties [properties] with [t] under the name [key], or without
    that name. *)
Definition withProperty (key : string) (t : option Json.value)
    (properties : list (string * Json.value)) : list (string * Json.value) :=
  filter (λ p, fst p <> key) properties
  ++ match t with Some v => [(key, v)] | None => [] end.

(** The same extraction result reporting [t] as its [total_orden]. *)
Definition reporting (t : option Json.value) (r : Runtime.FileProcessResult)
    : Runtime.FileProcessResult :=
  {| Runtime.filename := Runtime.filename r;
     Runtime.success := Runtime.success r;
     Runtime.data :=
       (λ d, match d with
             | Json.JObject properties =>
                 Json.JObject (withProperty "total_orden" t properties)
             | _ => d
             end) <$> Runtime.data r;
     Runtime.error := Runtime.error r |}.

(** The same world, whose extractions report the totals that [t] chooses. *)
Definition withReportedTotals
    (t : Runtime.FileProcessResult -> option Json.value)
    (world : Runtime.World) : Runtime.World :=
  {| Runtime.runScraper := Runtime.runScraper world;
     Runtime.parseMessage := Runtime.parseMessage world;
     Runtime.existsDir := Runtime.existsDir world;
     Runtime.readdir := Runtime.readdir world;
     Runtime.processFiles :=
       λ files, map (λ r, reporting (t r) r)
                    (Runtime.processFiles world files);
     Runtime.rmSync := Runtime.rmSync world |}.

(** A line with the given description, quantity and price. *)
Definition lineOf (description : string) (quantity price : float)
    : Json.value :=
  Json.JObject [("descripcion", Json.JString description);
                ("cantidad", Json.JNumber quantity);
                ("precio_unitario", Json.JNumber price)].

(** A scraper that leaves one file, read as the items [items], in a
    directory that lists and removes without error. *)
Definition oneFile (items : list Json.value) : Runtime.World :=
  {| Runtime.runScraper :=
       λ code, ProcessBatch.Printed
                 (ProcessBatch.mkScraperResult true code None (Some 1%nat)
                                               None);
     Runtime.parseMessage := λ _, "Unexpected end of JSON input";
     Runtime.existsDir := λ _, true;
     Runtime.readdir := λ _, Js.Ok ["orden.pdf"];
     Runtime.processFiles :=
       λ files, map (λ _, answered (legibleWith items)) files;
     Runtime.rmSync := λ _, Js.Ok tt |}.

End Props.

(* ====================================================================== *)
(** * Facts: regular expressions *)
(* ====================================================================== *)

Section RegexFacts.
Import Regex.

Lemma lang_eps_inv w : lang Eps w <-> w = [].
Proof.
  split; [inversion 1; reflexivity | intros ->; constructor].
Qed.

Lemma lang_void_inv w : ~ lang Void w.
Proof. inversion 1. Qed.

Lemma lang_cls_inv p w : lang (Cls p) w <-> exists a, w = [a] /\ p a = true.
Proof.
  split.
  - inversion 1; subst; eauto.
  - intros (a & -> & Ha). by constructor.
Qed.

Lemma lang_cat_inv r s w :
  lang (Cat r s) w <-> exists u v, w = u ++ v /\ lang r u /\ lang s v.
Proof.
  split.
  - inversion 1; subst; eauto.
  - intros (u & v & -> & Hu & Hv). by constructor.
Qed.

Lemma lang_alt_inv r s w : lang (Alt r s) w <-> lang r w \/ lang s w.
Proof.
  split.
  - inversion 1; subst; auto.
  - intros [H | H]; [by apply L_alt_l | by apply L_alt_r].
Qed.

Lemma nullable_lang r : nullable r = true <-> lang r [].
Proof.
  split.
  - induction r as [| | p | r IHr s IHs | r IHr s IHs | r IHr]; simpl;
      intros H; try discriminate.
    + constructor.
    + apply andb_true_iff in H as [Hr Hs].
      apply (L_cat r s [] []); auto.
    + apply orb_true_iff in H as [Hr | Hs];
        [apply L_alt_l | apply L_alt_r]; auto.
    + constructor.
  - intros H. remember [] as w eqn:Hw.
    induction H as [| p a Ha | r s u v Hu IHu Hv IHv | r s w Hr IHr
                   | r s w Hs IHs | r | r u v Hu IHu Hv IHv]; simpl;
      try reflexivity; try discriminate.
    + apply app_eq_nil in Hw as [-> ->].
      rewrite IHu, IHv; auto.
    + rewrite IHr; auto.
    + rewrite IHs; auto. apply orb_true_r.
Qed.

Lemma deriv_sound a r : forall w, lang (deriv a r) w -> lang r (a :: w).
Proof.
  induction r as [| | p | r IHr s IHs | r IHr s IHs | r IHr]; simpl;
    intros w H.
  - inversion H.
  - inversion H.
  - destruct (p a) eqn:Hp; inversion H; subst. by constructor.
  - destruct (nullable r) eqn:Hn.
    + apply lang_alt_inv in H as [H | H].
      * apply lang_cat_inv in H as (u & v & -> & Hu & Hv).
        apply (L_cat r s (a :: u) v); auto.
      * apply (L_cat r s [] (a :: w)); auto. by apply nullable_lang.
    + apply lang_cat_inv in H as (u & v & -> & Hu & Hv).
      apply (L_cat r s (a :: u) v); auto.
  - apply lang_alt_inv in H as [H | H];
      [apply L_alt_l | apply L_alt_r]; auto.
  - apply lang_cat_inv in H as (u & v & -> & Hu & Hv).
    apply (L_star_step r (a :: u) v); auto.
Qed.

Lemma deriv_complete a r w' :
  lang r w' -> forall w, w' = a :: w -> lang (deriv a r) w.
Proof.
  induction 1 as [| p b Hb | r s u v Hu IHu Hv IHv | r s w0 Hr IHr
                 | r s w0 Hs IHs | r | r u v Hu IHu Hv IHv];
    intros w Hw; simpl.
  - discriminate.
  - injection Hw as -> <-. rewrite Hb. constructor.
  - destruct u as [| c u]; simpl in Hw.
    + subst v. apply nullable_lang in Hu. rewrite Hu.
      apply L_alt_r. by apply IHv.
    + injection Hw as -> <-.
      assert (Hd : lang (Cat (deriv a r) s) (u ++ v))
        by (constructor; auto).
      destruct (nullable r); [by apply L_alt_l | done].
  - apply L_alt_l. by apply IHr.
  - apply L_alt_r. by apply IHs.
  - discriminate.
  - destruct u as [| c u]; simpl in Hw.
    + by apply IHv.
    + injection Hw as -> <-. constructor; auto.
Qed.

Lemma matches_lang r w : matches r w = true <-> lang r w.
Proof.
  revert r. induction w as [| a w IH]; intros r; simpl.
  - apply nullable_lang.
  - rewrite IH. split.
    + apply deriv_sound.
    + intros H. by eapply deriv_complete.
Qed.

Lemma lang_rep_cls n p w :
  lang (rep n (Cls p)) w <-> length w = n /\ all p w.
Proof.
  revert w. induction n as [| n IH]; intros w; simpl.
  - rewrite lang_eps_inv. split.
    + intros ->. split; [reflexivity | constructor].
    + intros [Hl _]. by destruct w.
  - rewrite lang_cat_inv. split.
    + intros (u & v & -> & Hu & Hv).
      apply lang_cls_inv in Hu as (a & -> & Ha).
      apply IH in Hv as [Hl Hall]. simpl. split; [by rewrite Hl |].
      by constructor.
    + intros [Hl Hall]. destruct w as [| a w]; [discriminate |].
      inversion Hall; subst. exists [a], w. split; [reflexivity |].
      split; [by constructor |]. apply IH. split; [by injection Hl | done].
Qed.

Lemma lang_upto_cls n p w :
  lang (upto n (Cls p)) w <-> length w <= n /\ all p w.
Proof.
  revert w. induction n as [| n IH]; intros w; simpl.
  - rewrite lang_eps_inv. split.
    + intros ->. split; [reflexivity | constructor].
    + intros [Hl _]. destruct w; [done | simpl in Hl; lia].
  - rewrite lang_alt_inv, lang_eps_inv, lang_cat_inv. split.
    + intros [-> | (u & v & -> & Hu & Hv)].
      * split; [simpl; lia | constructor].
      * apply lang_cls_inv in Hu as (a & -> & Ha).
        apply IH in Hv as [Hl Hall]. simpl. split; [lia |].
        by constructor.
    + intros [Hl Hall]. destruct w as [| a w]; [by left | right].
      inversion Hall; subst. exists [a], w. split; [reflexivity |].
      split; [by constructor |]. apply IH. simpl in Hl. split; [lia | done].
Qed.

Lemma lang_range_cls lo hi p w :
  lo <= hi ->
  lang (range lo hi (Cls p)) w <-> (lo <= length w <= hi) /\ all p w.
Proof.
  intros Hle. unfold range. rewrite lang_cat_inv. split.
  - intros (u & v & -> & Hu & Hv).
    apply lang_rep_cls in Hu as [Hlu Hu].
    apply lang_upto_cls in Hv as [Hlv Hv].
    rewrite length_app. split; [lia |]. by apply Forall_app.
  - intros [Hl Hall]. exists (take lo w), (drop lo w).
    split; [by rewrite take_drop |]. split.
    + apply lang_rep_cls. split; [rewrite length_take; lia |].
      by apply Forall_take.
    + apply lang_upto_cls. split; [rewrite length_drop; lia |].
      by apply Forall_drop.
Qed.

Lemma lang_star_cls p w : lang (Star (Cls p)) w <-> all p w.
Proof.
  split.
  - intros H. remember (Star (Cls p)) as r eqn:Hr.
    induction H as [| | | | | r | r u v Hu IHu Hv IHv]; try discriminate.
    + constructor.
    + injection Hr as ->. apply lang_cls_inv in Hu as (a & -> & Ha).
      simpl. constructor; [done | by apply IHv].
  - induction 1 as [| a w Ha Hw IH].
    + constructor.
    + apply (L_star_step (Cls p) [a] w); [by constructor | done].
Qed.

Lemma lang_plus_cls p w :
  lang (plus (Cls p)) w <-> (1 <= length w) /\ all p w.
Proof.
  unfold plus. rewrite lang_cat_inv. split.
  - intros (u & v & -> & Hu & Hv).
    apply lang_cls_inv in Hu as (a & -> & Ha).
    apply lang_star_cls in Hv. simpl. split; [lia | by constructor].
  - intros [Hl Hall]. destruct w as [| a w]; [simpl in Hl; lia |].
    inversion Hall; subst. exists [a], w. split; [reflexivity |].
    split; [by constructor | by apply lang_star_cls].
Qed.

Lemma lang_lit_inv c w : lang (lit c) w <-> w = [c].
Proof.
  unfold lit. rewrite lang_cls_inv. split.
  - intros (a & -> & Ha). apply Ascii.eqb_eq in Ha. by subst.
  - intros ->. exists c. split; [reflexivity | apply Ascii.eqb_refl].
Qed.

End RegexFacts.

(* ====================================================================== *)
(** * Facts: code validation and the identifier source *)
(* ====================================================================== *)

Section ValidationFacts.
Import Regex Js ScraperUtils Props.

Lemma isValidCode_strict code :
  isValidCode code = true <-> strictPattern code.
Proof.
  unfold isValidCode, test, codeRegex, strictPattern.
  rewrite matches_lang. split.
  - intros H.
    apply lang_cat_inv in H as (a & w1 & E0 & Ha & H).
    apply lang_cat_inv in H as (h1 & w2 & -> & Hh1 & H).
    apply lang_cat_inv in H as (b & w3 & -> & Hb & H).
    apply lang_cat_inv in H as (h2 & w4 & -> & Hh2 & H).
    apply lang_cat_inv in H as (l & w5 & -> & Hl & H).
    apply lang_cat_inv in H as (c2 & c5 & -> & Hc2 & Hc5).
    apply lang_lit_inv in Hh1 as ->. apply lang_lit_inv in Hh2 as ->.
    apply lang_lit_inv in Hc2 as ->. apply lang_lit_inv in Hc5 as ->.
    apply lang_range_cls in Ha as [Hla Ha]; [| lia].
    apply lang_range_cls in Hb as [Hlb Hb]; [| lia].
    apply lang_rep_cls in Hl as [Hll Hl].
    exists a, b, l. rewrite E0. simpl. auto 10.
  - intros (a & b & l & -> & Hla & Ha & Hlb & Hb & Hll & Hl).
    apply (L_cat _ _ a). { apply lang_range_cls; [lia | auto]. }
    apply (L_cat _ _ ["-"%char]). { by apply lang_lit_inv. }
    apply (L_cat _ _ b). { apply lang_range_cls; [lia | auto]. }
    apply (L_cat _ _ ["-"%char]). { by apply lang_lit_inv. }
    apply (L_cat _ _ l). { apply lang_rep_cls; auto. }
    apply (L_cat _ _ ["2"%char] ["5"%char]); by apply lang_lit_inv.
Qed.

Lemma hasBasicFormat_described code :
  ScraperSingle.hasBasicFormat code = true <-> describedPattern code.
Proof.
  unfold ScraperSingle.hasBasicFormat, test, ScraperSingle.basicRegex,
    describedPattern.
  rewrite matches_lang. split.
  - intros H.
    apply lang_cat_inv in H as (a & w1 & E0 & Ha & H).
    apply lang_cat_inv in H as (h1 & w2 & -> & Hh1 & H).
    apply lang_cat_inv in H as (b & w3 & -> & Hb & H).
    apply lang_cat_inv in H as (h2 & w4 & -> & Hh2 & H).
    apply lang_cat_inv in H as (l & d & -> & Hl & Hd).
    apply lang_lit_inv in Hh1 as ->. apply lang_lit_inv in Hh2 as ->.
    apply lang_plus_cls in Ha as [Hla Ha].
    apply lang_plus_cls in Hb as [Hlb Hb].
    apply lang_rep_cls in Hl as [Hll Hl].
    apply lang_rep_cls in Hd as [Hld Hd].
    exists a, b, l, d. rewrite E0. simpl. auto 12.
  - intros (a & b & l & d & -> & Hla & Ha & Hlb & Hb & Hll & Hl & Hld & Hd).
    apply (L_cat _ _ a). { apply lang_plus_cls; auto. }
    apply (L_cat _ _ ["-"%char]). { by apply lang_lit_inv. }
    apply (L_cat _ _ b). { apply lang_plus_cls; auto. }
    apply (L_cat _ _ ["-"%char]). { by apply lang_lit_inv. }
    apply (L_cat _ _ l d); apply lang_rep_cls; auto.
Qed.

Lemma isValidCode_truthy code : isValidCode code = true -> truthy code = true.
Proof. destruct code; [discriminate | reflexivity]. Qed.

Lemma elem_of_set_add s x y : y ∈ set_add s x <-> y ∈ s \/ y = x.
Proof.
  unfold set_add, includes. case_bool_decide as Hx.
  - split; [auto | intros [? | ->]; auto].
  - rewrite elem_of_app, list_elem_of_singleton. tauto.
Qed.

Lemma NoDup_set_add s x : NoDup s -> NoDup (set_add s x).
Proof.
  intros Hs. unfold set_add, includes. case_bool_decide as Hx; [done |].
  apply NoDup_app. split; [done |]. split.
  - intros y Hy ->%list_elem_of_singleton. contradiction.
  - apply NoDup_singleton.
Qed.

Lemma elem_of_collectCode acc row c :
  c ∈ collectCode acc row <-> c ∈ acc \/ contributes row c.
Proof.
  unfold collectCode, contributes.
  destruct (chilecompra_code row) as [raw |].
  - destruct (isValidCode (trim raw)) eqn:Hv.
    + rewrite (isValidCode_truthy _ Hv). simpl.
      rewrite elem_of_set_add. split.
      * intros [? | ->]; [by left | right; eauto].
      * intros [? | (raw' & [= <-] & <- & _)]; auto.
    + rewrite andb_false_r. split; [auto |].
      intros [? | (raw' & [= <-] & <- & Hv')]; [done | congruence].
  - split; [auto | intros [? | (raw' & ? & _)]; [done | discriminate]].
Qed.

Lemma elem_of_collected rows : forall acc c,
  c ∈ fold_left collectCode rows acc
  <-> c ∈ acc \/ exists row, row ∈ rows /\ contributes row c.
Proof.
  induction rows as [| row rows IH]; intros acc c; simpl.
  - split; [auto | intros [? | (row & Hrow & _)]; [done |]].
    by apply elem_of_nil in Hrow.
  - rewrite IH, elem_of_collectCode. split.
    + intros [[? | ?] | (r & Hr & ?)]; [by left | right.. ].
      * exists row. split; [apply list_elem_of_here | done].
      * exists r. split; [by apply list_elem_of_further | done].
    + intros [? | (r & Hr & ?)]; [by left; left |].
      apply elem_of_cons in Hr as [-> | Hr]; [left; by right |].
      right. eauto.
Qed.

Lemma NoDup_collected rows : forall acc,
  NoDup acc -> NoDup (fold_left collectCode rows acc).
Proof.
  induction rows as [| row rows IH]; intros acc Hacc; simpl; [done |].
  apply IH. unfold collectCode.
  destruct (chilecompra_code row); [| done].
  destruct (_ && _); [by apply NoDup_set_add | done].
Qed.

Lemma elem_of_sort l c : c ∈ sort l <-> c ∈ l.
Proof. unfold sort. by rewrite merge_sort_Permutation. Qed.

End ValidationFacts.

Section IdentifierSource.
Import Regex Js ScraperUtils Props.

Global Instance str_le_total : Total str_le.
Proof. intros a b. apply String.leb_total. Qed.

(** C9, as stated, fails: a code of the described shape whose last two digits
    are not [25] is rejected by [isValidCode]. *)
Lemma C9_described_pattern_rejected :
  ~ (isValidCode "3506-434-SE24" = true
     <-> describedPattern "3506-434-SE24").
Proof.
  intros [_ H].
  assert (Hd : describedPattern "3506-434-SE24")
    by (apply hasBasicFormat_described; vm_compute; reflexivity).
  apply H in Hd. vm_compute in Hd. discriminate.
Qed.

(** C9, amended: [isValidCode] accepts exactly the strings made of three to
    seven digits, a hyphen, one to four digits, a hyphen, two capital letters
    and the literal [25]; [extractUniqueCodes] returns, without ever failing,
    exactly the trimmed codes of the rows that pass this validation, each
    once and in sorted order, so a code that fails validation is left out. *)
Theorem C9_validator_and_filter :
  (forall code, isValidCode code = true <-> strictPattern code)
  /\ (forall rows c,
        c ∈ extractUniqueCodes rows
        <-> exists row, row ∈ rows /\ contributes row c)
  /\ (forall rows c, isValidCode c = false -> c ∉ extractUniqueCodes rows)
  /\ (forall rows, NoDup (extractUniqueCodes rows)
                   /\ Sorted str_le (extractUniqueCodes rows)).
Proof.
  assert (Hmem : forall rows c,
            c ∈ extractUniqueCodes rows
            <-> exists row, row ∈ rows /\ contributes row c).
  { intros rows c. unfold extractUniqueCodes.
    rewrite elem_of_sort, elem_of_collected. split.
    - intros [Hc | H]; [by apply elem_of_nil in Hc | done].
    - auto. }
  split; [apply isValidCode_strict |]. split; [exact Hmem |]. split.
  - intros rows c Hc (row & _ & raw & _ & _ & Hv)%Hmem. congruence.
  - intros rows. unfold extractUniqueCodes, sort. split.
    + rewrite merge_sort_Permutation. apply NoDup_collected, NoDup_nil_2.
    + apply Sorted_merge_sort. apply _.
Qed.

End IdentifierSource.

(* ====================================================================== *)
(** * Facts: work-set resolution *)
(* ====================================================================== *)

Section Resolution.
Import Js ScraperUtils ScrapeDocuments.

Lemma getNewCodesToScrape_filter allCodes registry :
  getNewCodesToScrape allCodes registry
  = filter (λ c, c ∉ codes registry) allCodes.
Proof.
  unfold getNewCodesToScrape. apply list_filter_iff.
  intros c. by rewrite elem_of_list_to_set.
Qed.

Lemma codesToProcess_full args allCodes registry checkpoint :
  retry args = false ->
  codesToProcess args allCodes registry checkpoint
  = match test args with
    | Some (S k) => take (S k) (getNewCodesToScrape allCodes registry)
    | _ => getNewCodesToScrape allCodes registry
    end.
Proof.
  intros Hr. unfold codesToProcess. rewrite Hr.
  by destruct (test args) as [[| k] |].
Qed.

(** C5: outside retry mode the work set is the input list with the codes of
    the registry filtered out, in the order of the input (cut to its first
    [n] elements in test mode); it depends on nothing but the input list, the
    codes of the registry and [n], so the same inputs give the same
    sequence. *)
Theorem C5_resolution_order_and_determinism
    (args : CliArgs) (allCodes : list string)
    (registry : ScrapedCodesRegistry) (checkpoint : Checkpoint) :
  retry args = false ->
  let full := getNewCodesToScrape allCodes registry in
  let out := codesToProcess args allCodes registry checkpoint in
  full = filter (λ c, c ∉ codes registry) allCodes
  /\ (forall c, c ∈ full <-> c ∈ allCodes /\ c ∉ codes registry)
  /\ full `sublist_of` allCodes
  /\ out = match test args with
           | Some (S n) => take (S n) full
           | _ => full
           end
  /\ out `sublist_of` allCodes
  /\ (forall c, c ∈ out -> c ∈ allCodes /\ c ∉ codes registry)
  /\ (forall registry' checkpoint',
        codes registry' = codes registry ->
        codesToProcess args allCodes registry' checkpoint' = out).
Proof.
  intros Hr full out.
  assert (Hfull : full = filter (λ c, c ∉ codes registry) allCodes)
    by apply getNewCodesToScrape_filter.
  assert (Hmem : forall c, c ∈ full <-> c ∈ allCodes /\ c ∉ codes registry).
  { intros c. rewrite Hfull, list_elem_of_filter. tauto. }
  assert (Hsub : full `sublist_of` allCodes).
  { rewrite Hfull. apply sublist_filter. }
  assert (Hout : out = match test args with
                       | Some (S n) => take (S n) full
                       | _ => full
                       end)
    by (apply codesToProcess_full; exact Hr).
  assert (Hpre : out `sublist_of` full).
  { rewrite Hout. destruct (test args) as [[| n] |]; try reflexivity.
    apply sublist_take. }
  split; [exact Hfull |]. split; [exact Hmem |]. split; [exact Hsub |].
  split; [exact Hout |]. split; [by etrans |]. split.
  - intros c Hc. apply Hmem. by eapply elem_of_sublist.
  - intros registry' checkpoint' Hcodes.
    subst out full. rewrite !(codesToProcess_full _ _ _ _ Hr).
    by rewrite !getNewCodesToScrape_filter, Hcodes.
Qed.

(** C5 at a concrete input: test mode with [n = 2]. *)
Lemma C5_resolution_witness :
  let args := {| fresh := false; test := Some 2; retry := false |} in
  let registry := {| codes := ["b"; "x"]; lastUpdated := "t";
                     totalCount := 2 |} in
  codesToProcess args ["a"; "b"; "c"; "d"] registry (emptyCheckpoint "t")
  = ["a"; "c"].
Proof.
  intros args registry.
  pose proof (C5_resolution_order_and_determinism args
                ["a"; "b"; "c"; "d"] registry (emptyCheckpoint "t")
                eq_refl) as (_ & _ & _ & Hout & _).
  rewrite Hout. vm_compute. reflexivity.
Defined.

End Resolution.

(* ====================================================================== *)
(** * Facts: the progress stores *)
(* ====================================================================== *)

Section ProgressStores.
Import Js ScraperUtils Props.

Lemma cacheOf_coherent c :
  cacheCoherent c -> cacheOf c = list_to_set (processedCodes c).
Proof.
  unfold cacheCoherent, cacheOf. intros H.
  destruct (_processedCodesSet c) as [s |]; [by apply H | reflexivity].
Qed.

Lemma markProcessed_counts c code now :
  countsAgree c -> countsAgree (markProcessed c code now).
Proof.
  intros [Hp Hf]. unfold markProcessed, countsAgree.
  case_bool_decide; simpl; [| done].
  rewrite length_app. simpl. split; [lia | done].
Qed.

Lemma markProcessed_coherent c code now :
  cacheCoherent c -> cacheCoherent (markProcessed c code now).
Proof.
  intros Hc. pose proof (cacheOf_coherent c Hc) as Hcache.
  unfold markProcessed, cacheCoherent.
  case_bool_decide; simpl; intros s [= <-]; rewrite Hcache; [| done].
  rewrite list_to_set_app_L. simpl.
  rewrite (union_comm_L _ ({[code]} ∪ ∅)). by rewrite union_empty_r_L.
Qed.

Lemma markProcessed_new c code now :
  cacheCoherent c -> code ∉ processedCodes c ->
  processedCodes (markProcessed c code now) = processedCodes c ++ [code]
  /\ totalProcessed (markProcessed c code now) = (totalProcessed c + 1)%Z.
Proof.
  intros Hc Hnew. unfold markProcessed.
  rewrite (cacheOf_coherent c Hc).
  rewrite bool_decide_true; [done |].
  by rewrite elem_of_list_to_set.
Qed.

Lemma markProcessed_old c code now :
  cacheCoherent c -> code ∈ processedCodes c ->
  processedCodes (markProcessed c code now) = processedCodes c
  /\ totalProcessed (markProcessed c code now) = totalProcessed c.
Proof.
  intros Hc Hold. unfold markProcessed.
  rewrite (cacheOf_coherent c Hc).
  rewrite bool_decide_false; [done |].
  rewrite elem_of_list_to_set. auto.
Qed.

Lemma markProcessed_failed c code now :
  failedCodes (markProcessed c code now) = failedCodes c.
Proof. unfold markProcessed. by case_bool_decide. Qed.

Lemma markProcessed_cache c code now :
  code ∈ cacheOf (markProcessed c code now)
  /\ _processedCodesSet (markProcessed c code now)
     = Some (cacheOf (markProcessed c code now)).
Proof.
  unfold markProcessed.
  case_bool_decide as Hin; (split; [| reflexivity]);
    unfold cacheOf at 1; simpl.
  - apply elem_of_union_l, elem_of_singleton_2. reflexivity.
  - destruct (decide (code ∈ cacheOf c)); [done | contradiction].
Qed.



Lemma markProcessed_NoDup c code now :
  cacheCoherent c -> NoDup (processedCodes c) ->
  NoDup (processedCodes (markProcessed c code now)).
Proof.
  intros Hc Hnd. destruct (decide (code ∈ processedCodes c)) as [Hin | Hin].
  - by rewrite (proj1 (markProcessed_old c code now Hc Hin)).
  - rewrite (proj1 (markProcessed_new c code now Hc Hin)).
    apply NoDup_app. split; [done |]. split; [| apply NoDup_singleton].
    intros y Hy ->%list_elem_of_singleton. contradiction.
Qed.

Lemma markFailed_counts c code error attempts now :
  countsAgree c -> countsAgree (markFailed c code error attempts now).
Proof.
  intros [Hp Hf]. unfold markFailed, countsAgree.
  destruct (list_find _ _) as [[i old] |]; simpl.
  - by rewrite length_insert.
  - rewrite length_app. simpl. split; [done | lia].
Qed.

Lemma markFailed_processed c code error attempts now :
  processedCodes (markFailed c code error attempts now) = processedCodes c
  /\ _processedCodesSet (markFailed c code error attempts now)
     = _processedCodesSet c.
Proof. unfold markFailed. by destruct (list_find _ _) as [[i old] |]. Qed.

(** A code without an entry gets one, at the end. *)
Lemma markFailed_new c code error attempts now :
  list_find (λ f, fe_code f = code) (failedCodes c) = None ->
  failedCodes (markFailed c code error attempts now)
  = failedCodes c ++ [mkFailedEntry code error now attempts]
  /\ totalFailed (markFailed c code error attempts now)
     = (totalFailed c + 1)%Z.
Proof. intros H. unfold markFailed. by rewrite H. Qed.

(** A code with an entry keeps that one entry, updated where it stands. *)
Lemma markFailed_existing c code error attempts now i old :
  list_find (λ f, fe_code f = code) (failedCodes c) = Some (i, old) ->
  failedCodes (markFailed c code error attempts now)
  = <[i := mkFailedEntry code error now (fe_attempts old + attempts)]>
      (failedCodes c)
  /\ totalFailed (markFailed c code error attempts now) = totalFailed c.
Proof. intros H. unfold markFailed. by rewrite H. Qed.


Lemma addToScrapedRegistry_prefix r code now :
  codes r `prefix_of` codes (addToScrapedRegistry r code now).
Proof.
  unfold addToScrapedRegistry.
  destruct (negb _); simpl; [by apply prefix_app_r | done].
Qed.

Lemma addToScrapedRegistry_NoDup r code now :
  NoDup (codes r) -> NoDup (codes (addToScrapedRegistry r code now)).
Proof.
  intros Hnd. unfold addToScrapedRegistry, includes.
  case_bool_decide as Hin; simpl; [done |].
  apply NoDup_app. split; [done |]. split; [| apply NoDup_singleton].
  intros y Hy ->%list_elem_of_singleton. contradiction.
Qed.

Lemma addToScrapedRegistry_elem r code now :
  code ∈ codes (addToScrapedRegistry r code now).
Proof.
  unfold addToScrapedRegistry, includes.
  case_bool_decide as Hin; simpl; [done |].
  apply elem_of_app. right. apply list_elem_of_here.
Qed.

End ProgressStores.

Create HintDb stores.
#[export] Hint Resolve markProcessed_counts markProcessed_coherent
  markProcessed_NoDup markFailed_counts addToScrapedRegistry_NoDup
  : stores.

Section StoreSequences.
Import Js ScraperUtils Props.

Lemma markFailed_keys c code error attempts now :
  map fe_code (failedCodes (markFailed c code error attempts now))
  = match list_find (λ f, fe_code f = code) (failedCodes c) with
    | Some _ => map fe_code (failedCodes c)
    | None => map fe_code (failedCodes c) ++ [code]
    end.
Proof.
  destruct (list_find _ _) as [[i old] |] eqn:Hfind.
  - rewrite (proj1 (markFailed_existing c code error attempts now i old Hfind)).
    apply list_find_Some in Hfind as (Hi & Hcode & _).
    change (map fe_code ?l) with (fe_code <$> l).
    rewrite list_fmap_insert. simpl. apply list_insert_id.
    by rewrite list_lookup_fmap, Hi, <- Hcode.
  - rewrite (proj1 (markFailed_new c code error attempts now Hfind)).
    by rewrite map_app.
Qed.

Lemma markFailed_keys_NoDup c code error attempts now :
  NoDup (map fe_code (failedCodes c)) ->
  NoDup (map fe_code (failedCodes (markFailed c code error attempts now))).
Proof.
  intros Hnd. rewrite markFailed_keys.
  destruct (list_find _ _) as [[i old] |] eqn:Hfind; [done |].
  apply NoDup_app. split; [done |]. split; [| apply NoDup_singleton].
  intros y Hy ->%list_elem_of_singleton.
  change (map fe_code ?l) with (fe_code <$> l) in Hy.
  apply list_elem_of_fmap in Hy as (f & Hf & Hin).
  apply list_find_None in Hfind.
  eapply Forall_forall in Hfind; eauto.
Qed.


Lemma kept_step s0 s op : kept s0 s -> kept s0 (applyOp s op).
Proof.
  intros (Hc & Hcoh & Hpre & Hnd & Hndp & Hndf).
  destruct op as [code now | code error attempts now | code now | code];
    unfold kept; simpl.
  - split_and!; auto with stores.
    by rewrite markProcessed_failed.
  - destruct (markFailed_processed (cp s) code error attempts now)
      as [Hp Hs].
    split_and!; auto using markFailed_keys_NoDup with stores.
    + unfold cacheCoherent. rewrite Hp, Hs. apply Hcoh.
    + rewrite Hp. exact Hndp.
  - split_and!; auto with stores.
    etrans; [exact Hpre | apply addToScrapedRegistry_prefix].
  - split_and!; auto.
    unfold cacheCoherent. simpl. intros x [= <-].
    by apply cacheOf_coherent.
Qed.




End StoreSequences.

(* ====================================================================== *)
(** * Facts: JSON.stringify is injective on item arrays *)
(* ====================================================================== *)

Section JsonFacts.
Import Regex Json GeminiProcessor Props.

Lemma unescape_escape c r : unescape (escape c ++ r) = Some (c, r).
Proof. destruct c as [[] [] [] [] [] [] [] []]; reflexivity. Qed.

Lemma escape_not_quote c r s : escape c ++ r <> dquote :: s.
Proof.
  intros H. apply (f_equal unescape) in H.
  rewrite unescape_escape in H. discriminate.
Qed.

(** The escaped body of a string ends at the first bare quote. *)
Lemma body_delimited : forall s1 s2 r s,
  flat_map escape s1 ++ dquote :: r = flat_map escape s2 ++ dquote :: s ->
  s1 = s2 /\ r = s.
Proof.
  induction s1 as [| c1 s1 IH]; intros [| c2 s2] r s; simpl; intros H.
  - by injection H.
  - rewrite <- app_assoc in H. symmetry in H.
    by apply escape_not_quote in H.
  - rewrite <- app_assoc in H. by apply escape_not_quote in H.
  - rewrite <- !app_assoc in H. apply (f_equal unescape) in H.
    rewrite !unescape_escape in H. injection H as -> H.
    apply IH in H as [-> ->]. done.
Qed.

Lemma list_ascii_of_string_inj s1 s2 :
  list_ascii_of_string s1 = list_ascii_of_string s2 -> s1 = s2.
Proof.
  intros H. apply (f_equal string_of_list_ascii) in H.
  by rewrite !string_of_list_ascii_of_string in H.
Qed.

Lemma quote_delimited a b r s :
  quote a ++ r = quote b ++ s -> a = b /\ r = s.
Proof.
  unfold quote. simpl. rewrite <- !app_assoc. simpl. intros [= H].
  apply body_delimited in H as [H ->]. split; [| done].
  by apply list_ascii_of_string_inj.
Qed.

(** A run of characters of a class ends at the first character outside
    it. *)
Lemma class_delimited (p : ascii -> bool) : forall d1 d2 c1 c2 r s,
  all p d1 -> all p d2 -> p c1 = false -> p c2 = false ->
  d1 ++ c1 :: r = d2 ++ c2 :: s -> d1 = d2 /\ c1 :: r = c2 :: s.
Proof.
  unfold all.
  induction d1 as [| x d1 IH]; intros [| y d2] c1 c2 r s H1 H2 Hc1 Hc2;
    simpl; intros H.
  - done.
  - injection H as -> _. apply Forall_cons in H2 as [Hy _]. congruence.
  - injection H as -> _. apply Forall_cons in H1 as [Hx _]. congruence.
  - injection H as -> H.
    apply Forall_cons in H1 as [_ H1]. apply Forall_cons in H2 as [_ H2].
    by destruct (IH _ _ _ _ _ H1 H2 Hc1 Hc2 H) as [-> ->].
Qed.

Lemma pretty_N_char_digit x : digit (pretty_N_char x) = true.
Proof. unfold pretty_N_char. by repeat case_match. Qed.

Lemma pretty_N_go_digits x : forall s,
  exists d, list_ascii_of_string (pretty_N_go x s)
            = d ++ list_ascii_of_string s
            /\ all digit d /\ ((0 < x)%N -> d <> []).
Proof.
  induction (N.lt_wf_0 x) as [x _ IH]. intros s.
  assert (x = 0 \/ 0 < x)%N as [-> | Hpos] by lia.
  - exists []. rewrite pretty_N_go_0. split; [done |].
    split; [constructor | lia].
  - rewrite pretty_N_go_step by done.
    destruct (IH (x `div` 10)%N (N.div_lt x 10 Hpos eq_refl)
                 (String (pretty_N_char (x `mod` 10)) s))
      as (d & Hd & Hall & _).
    exists (d ++ [pretty_N_char (x `mod` 10)]).
    rewrite Hd. simpl. rewrite <- app_assoc. split; [done |]. split.
    + apply Forall_app. split; [done |].
      constructor; [apply pretty_N_char_digit | constructor].
    + intros _. by destruct d.
Qed.

(** The text of an integer: digits, at least one, after an optional minus
    sign. *)
Lemma number_shape z :
  exists d, all digit d /\ d <> []
            /\ (number z = d \/ number z = "-"%char :: d).
Proof.
  assert (Hpos : forall q : positive,
            exists d, all digit d /\ d <> []
                      /\ list_ascii_of_string (pretty q) = d).
  { intros q. unfold pretty, pretty_positive, pretty, pretty_N.
    rewrite decide_False by done.
    destruct (pretty_N_go_digits (N.pos q) "") as (d & Hd & Hall & Hne).
    exists d. simpl in Hd. rewrite app_nil_r in Hd.
    split; [done |]. split; [apply Hne; lia | done]. }
  unfold number. destruct z as [| q | q]; unfold pretty, pretty_Z.
  - exists ["0"%char]. split; [by repeat constructor |]. split; [done |].
    by left.
  - destruct (Hpos q) as (d & Hall & Hne & Hd). exists d. auto.
  - destruct (Hpos q) as (d & Hall & Hne & Hd). exists d.
    split; [done |]. split; [done |]. right.
    change (list_ascii_of_string ("-" +:+ pretty q))
      with ("-"%char :: list_ascii_of_string (pretty q)).
    by rewrite Hd.
Qed.

Lemma number_delimited z1 z2 c1 c2 r s :
  digit c1 = false -> digit c2 = false ->
  number z1 ++ c1 :: r = number z2 ++ c2 :: s ->
  z1 = z2 /\ c1 :: r = c2 :: s.
Proof.
  intros Hc1 Hc2 H.
  assert (Hn : number z1 = number z2 /\ c1 :: r = c2 :: s).
  { destruct (number_shape z1) as (d1 & Hd1 & Hne1 & [E1 | E1]);
    destruct (number_shape z2) as (d2 & Hd2 & Hne2 & [E2 | E2]);
    rewrite E1, E2 in *; simpl in H.
    - by destruct (class_delimited digit _ _ _ _ _ _ Hd1 Hd2 Hc1 Hc2 H)
        as [-> ->].
    - destruct d1 as [| x d1]; [done |]. injection H as -> _.
      apply Forall_cons in Hd1 as [Hx _]. discriminate.
    - destruct d2 as [| y d2]; [done |]. injection H as <- _.
      apply Forall_cons in Hd2 as [Hy _]. discriminate.
    - injection H as H.
      by destruct (class_delimited digit _ _ _ _ _ _ Hd1 Hd2 Hc1 Hc2 H)
        as [-> ->]. }
  destruct Hn as [Hn Hrest]. split; [| done].
  apply list_ascii_of_string_inj in Hn. by apply (inj pretty).
Qed.

Lemma cons_tail (c : ascii) (x y : list ascii) : c :: x = c :: y -> x = y.
Proof. by intros [= ->]. Qed.

(** Reading one token off both sides of [H]: a property name, a string
    value, a number; each with the punctuation that follows it. *)
Ltac read_key H :=
  apply quote_delimited in H as [_ H]; apply cons_tail in H.
Ltac read_string H E :=
  apply quote_delimited in H as [E H]; apply cons_tail in H.
Ltac read_number H E :=
  apply number_delimited in H as [E H]; [| done..]; apply cons_tail in H.

Lemma stringifyItem_delimited a b r s :
  stringifyItem a ++ r = stringifyItem b ++ s -> a = b /\ r = s.
Proof.
  unfold stringifyItem.
  repeat (rewrite <- app_comm_cons || rewrite <- app_assoc).
  intros H. apply cons_tail in H.
  read_key H. read_string H Hd.
  read_key H. read_number H Hc.
  read_key H. read_number H Hp.
  split; [| exact H]. destruct a, b. simpl in *. by subst.
Qed.

Lemma afterFirst_delimited : forall xs ys r s,
  afterFirst (map stringifyItem xs) ++ "]"%char :: r
  = afterFirst (map stringifyItem ys) ++ "]"%char :: s ->
  xs = ys /\ r = s.
Proof.
  induction xs as [| x xs IH]; intros [| y ys] r s;
    cbn [map afterFirst]; intros H.
  - by apply cons_tail in H.
  - discriminate H.
  - discriminate H.
  - rewrite <- !app_comm_cons in H. apply cons_tail in H.
    rewrite <- !app_assoc in H.
    apply stringifyItem_delimited in H as [-> H].
    by apply IH in H as [-> ->].
Qed.

Lemma stringifyItem_head item :
  exists w, stringifyItem item = "{"%char :: w.
Proof. unfold stringifyItem. eauto. Qed.

Lemma stringify_inj a b : stringify a = stringify b -> a = b.
Proof.
  unfold stringify, array. intros H.
  apply (f_equal list_ascii_of_string) in H.
  rewrite !list_ascii_of_string_of_list_ascii in H. apply cons_tail in H.
  destruct a as [| x xs], b as [| y ys]; cbn [map] in H.
  - done.
  - exfalso. destruct (stringifyItem_head y) as [w Hw].
    rewrite Hw in H. discriminate H.
  - exfalso. destruct (stringifyItem_head x) as [w Hw].
    rewrite Hw in H. discriminate H.
  - rewrite <- !app_assoc in H.
    apply stringifyItem_delimited in H as [-> H].
    by apply afterFirst_delimited in H as [-> _].
Qed.

(** Two item arrays have the same serialization exactly when they are
    equal. *)
Lemma sameJson_eq a b : sameJson a b = true <-> a = b.
Proof.
  unfold sameJson. rewrite String.eqb_eq. split.
  - apply stringify_inj.
  - by intros ->.
Qed.

End JsonFacts.

(* ====================================================================== *)
(** * Facts: the text [JSON.stringify] writes for a parsed value *)
(* ====================================================================== *)

Section JsonText.
Import Regex Js Json Props.

(** Induction on a value, with the elements and the property values as
    smaller values. *)
Lemma value_nested_ind (P : value -> Prop) :
  P JNull -> (forall b, P (JBool b)) -> (forall x, P (JNumber x)) ->
  (forall s, P (JString s)) ->
  (forall elements, Forall P elements -> P (JArray elements)) ->
  (forall properties, Forall (λ p, P (snd p)) properties ->
     P (JObject properties)) ->
  forall v, P v.
Proof.
  intros Hnull Hbool Hnumber Hstring Harray Hobject.
  fix IH 1. intros [| b | x | s | elements | properties].
  - exact Hnull.
  - apply Hbool.
  - apply Hnumber.
  - apply Hstring.
  - apply Harray. induction elements as [| e l IHl]; constructor;
      [apply IH | exact IHl].
  - apply Hobject. induction properties as [| [k v] l IHl]; constructor;
      [apply IH | exact IHl].
Qed.

Lemma digit_plain' c : digit c = true -> plain c.
Proof.
  unfold digit, plain, structural. intros H.
  destruct c as [[] [] [] [] [] [] [] []]; try discriminate H; reflexivity.
Qed.

Lemma digitsOf_plain s : Forall plain (digitsOf s) /\ digitsOf s <> [].
Proof.
  unfold digitsOf, pretty, pretty_N. case_decide as Hz.
  - split; [by repeat constructor | done].
  - destruct (pretty_N_go_digits (Z.to_N s) "") as (d & Hd & Hall & Hne).
    simpl in Hd. rewrite app_nil_r in Hd. rewrite Hd. split.
    + eapply Forall_impl; [exact Hall |]. apply digit_plain'.
    + apply Hne. lia.
Qed.

Lemma layout_plain s n k : Forall plain (layout s n k) /\ layout s n k <> [].
Proof.
  destruct (digitsOf_plain s) as [Hd Hne].
  destruct (digitsOf_plain (Z.abs (n - 1))) as [He _].
  unfold layout.
  repeat case_match;
    (split;
     [ repeat first [ apply Forall_app; split
                    | apply Forall_cons; split
                    | apply Forall_take | apply Forall_drop
                    | apply Forall_replicate
                    | exact Hd | exact He | apply Forall_nil | reflexivity ]
     | first [ done
             | by destruct (digitsOf s)
             | by intros [_ ?]%app_eq_nil ] ]).
Qed.

Lemma numberText_plain x : Forall plain (numberText x) /\ numberText x <> [].
Proof.
  unfold numberText, numberToString.
  destruct (Prim2SF x) as [sg | sg | | sg m e].
  - split; [by repeat constructor | done].
  - split; [by repeat constructor | done].
  - split; [by repeat constructor | done].
  - rewrite list_ascii_of_string_of_list_ascii. unfold positiveToString.
    destruct (shortest _ _ _ _ _) as [[s n] k].
    destruct (layout_plain s n k) as [Hp Hne].
    split.
    + apply Forall_app. split; [| exact Hp].
      destruct sg; by repeat constructor.
    + destruct sg; [done |]. exact Hne.
Qed.

(** The text of an atom is what [write] gives, holds no structural
    character and is not empty. *)
Lemma atomText_write v t :
  atomText v = Some t -> write v = t /\ Forall plain t /\ t <> [].
Proof.
  destruct v as [| b | x | s | elements | properties]; simpl;
    intros [= <-]; (split; [reflexivity |]).
  - split; [by repeat constructor | done].
  - destruct b; (split; [by repeat constructor | done]).
  - apply numberText_plain.
Qed.

(** No text of a value starts with a character that closes. *)
Lemma write_head v : exists c w, write v = c :: w /\ closes c = false.
Proof.
  destruct v as [| b | x | s | elements | properties].
  - by eexists _, _.
  - destruct b; by eexists _, _.
  - destruct (numberText_plain x) as [Hp Hne]. simpl.
    destruct (numberText x) as [| c w]; [done |].
    exists c, w. split; [done |]. apply Forall_cons in Hp as [Hc _].
    unfold plain, structural in Hc. unfold closes.
    destruct (Ascii.eqb c ","), (Ascii.eqb c "]"), (Ascii.eqb c "}");
      try discriminate Hc; reflexivity.
  - by eexists _, _.
  - by eexists _, _.
  - by eexists _, _.
Qed.

Lemma plain_not_closing c : plain c -> closes c = true -> False.
Proof.
  unfold plain, structural, closes.
  destruct (Ascii.eqb c ","), (Ascii.eqb c "]"), (Ascii.eqb c "}");
    simpl; intros; discriminate.
Qed.

(** Two texts without structural characters, each before a terminated
    rest, are the same when the whole is. *)
Lemma plain_delimited : forall t1 t2 r s,
  Forall plain t1 -> Forall plain t2 -> terminated r -> terminated s ->
  t1 ++ r = t2 ++ s -> t1 = t2 /\ r = s.
Proof.
  induction t1 as [| c1 t1 IH]; intros [| c2 t2] r s H1 H2 Hr Hs; simpl;
    intros H.
  - done.
  - exfalso. subst r. apply Forall_cons in H2 as [Hc _].
    exact (plain_not_closing _ Hc Hr).
  - exfalso. subst s. apply Forall_cons in H1 as [Hc _].
    exact (plain_not_closing _ Hc Hs).
  - injection H as -> H. apply Forall_cons in H1 as [_ H1].
    apply Forall_cons in H2 as [_ H2].
    destruct (IH t2 r s H1 H2 Hr Hs H) as [-> ->]. done.
Qed.

(** The text of a string, an array or an object starts with a structural
    character, and so is not that of an atom. *)
Lemma write_opens v :
  atomText v = None -> exists c w, write v = c :: w /\ structural c = true.
Proof.
  destruct v; try discriminate; intros _; by eexists _, _.
Qed.

Lemma atom_not_structural a v r s :
  is_Some (atomText a) -> atomText v = None -> terminated r ->
  write a ++ r = write v ++ s -> False.
Proof.
  intros [t Ha] Hv Hr H.
  destruct (atomText_write a t Ha) as (Hw & Hp & Hne).
  destruct (write_opens v Hv) as (c & w & Hc & Hs).
  rewrite Hw, Hc in H. destruct t as [| d t]; [done |].
  injection H as -> _. apply Forall_cons in Hp as [Hd _].
  unfold plain in Hd. congruence.
Qed.

Lemma afterFirst_terminated {A} (f : A -> list ascii) xs close r :
  closes close = true -> terminated (afterFirst (map f xs) ++ close :: r).
Proof. intros Hc. by destruct xs. Qed.

(** The members after the first, up to the character that closes. *)
Lemma members_delimited {A} (f : A -> list ascii) (R : A -> A -> Prop)
    (close : ascii) :
  closes close = true -> close <> ","%char ->
  forall xs, Forall (delimited f R) xs ->
  forall ys r s,
    afterFirst (map f xs) ++ close :: r = afterFirst (map f ys) ++ close :: s ->
    Forall2 R xs ys /\ r = s.
Proof.
  intros Hclose Hcomma xs Hxs.
  induction Hxs as [| x xs Hx _ IH]; intros [| y ys] r s;
    cbn [map afterFirst]; intros H.
  - injection H as ->. split; [constructor | done].
  - exfalso. simpl in H. by injection H as -> _.
  - exfalso. simpl in H. by injection H as <- _.
  - rewrite <- !app_comm_cons, <- !app_assoc in H. apply cons_tail in H.
    apply Hx in H as [HR H]; try by apply afterFirst_terminated.
    apply IH in H as [Hall ->]. split; [by constructor | done].
Qed.

(** All the members, after the character that opens. *)
Lemma body_delimited' {A} (f : A -> list ascii) (R : A -> A -> Prop)
    (close : ascii) :
  closes close = true -> close <> ","%char ->
  (forall y, exists c w, f y = c :: w /\ closes c = false) ->
  forall xs, Forall (delimited f R) xs ->
  forall ys r s,
    match map f xs with
    | [] => []
    | x :: rest => x ++ afterFirst rest
    end ++ close :: r
    = match map f ys with
      | [] => []
      | y :: rest => y ++ afterFirst rest
      end ++ close :: s ->
    Forall2 R xs ys /\ r = s.
Proof.
  intros Hclose Hcomma Hhead xs Hxs ys r s.
  destruct Hxs as [| x xs Hx Hxs], ys as [| y ys]; cbn [map]; intros H.
  - injection H as ->. split; [constructor | done].
  - exfalso. destruct (Hhead y) as (c & w & Hy & Hc). rewrite Hy in H.
    simpl in H. injection H as <- _. congruence.
  - exfalso. destruct (Hhead x) as (c & w & Hy & Hc). rewrite Hy in H.
    simpl in H. injection H as -> _. congruence.
  - rewrite <- !app_assoc in H.
    apply Hx in H as [HR H]; try by apply afterFirst_terminated.
    apply (members_delimited f R close Hclose Hcomma xs Hxs) in H
      as [Hall ->].
    split; [by constructor | done].
Qed.

(** Before a terminated rest, the text of a value determines the value up
    to [sameWritten], and the rest. *)
Lemma atoms_delimited a t :
  atomText a = Some t -> delimited write sameWritten a.
Proof.
  intros Ha v r r' Hr Hr' H.
  destruct (atomText v) as [t' |] eqn:Hv.
  - destruct (atomText_write a t Ha) as (Hw & Hp & _).
    destruct (atomText_write v t' Hv) as (Hw' & Hp' & _).
    rewrite Hw, Hw' in H.
    apply plain_delimited in H as [<- ->]; try done.
    split; [| done]. by eapply sw_atom.
  - exfalso.
    apply (atom_not_structural a v r r'); [by rewrite Ha | done | done | done].
Qed.

Lemma write_delimited a : delimited write sameWritten a.
Proof.
  induction a as [| b | x | s | elements IH | properties IH]
    using value_nested_ind;
    try (by eapply atoms_delimited); intros v r r' Hr Hr' H.
  - destruct v as [| b | x | s' | elements | properties];
      try (exfalso; symmetry in H;
           by apply (atom_not_structural _ (JString s)) in H).
    apply quote_delimited in H as [-> ->]. split; [constructor | done].
  - destruct v as [| b | x | s' | elements' | properties];
      try (exfalso; symmetry in H;
           by apply (atom_not_structural _ (JArray elements)) in H).
    cbn [write] in H. unfold array in H.
    rewrite <- !app_comm_cons, <- !app_assoc in H. apply cons_tail in H.
    apply (body_delimited' write sameWritten "]") in H as [Hall ->];
      try done; [| apply write_head].
    split; [by constructor | done].
  - destruct v as [| b | x | s' | elements | properties'];
      try (exfalso; symmetry in H;
           by apply (atom_not_structural _ (JObject properties)) in H).
    cbn [write] in H. unfold object in H.
      rewrite <- !app_comm_cons, <- !app_assoc in H. apply cons_tail in H.
      apply (body_delimited'
               (λ p, quote (fst p) ++ ":"%char :: write (snd p))
               (λ p q, fst p = fst q /\ sameWritten (snd p) (snd q)) "}")
        in H as [Hall ->]; try done.
      * split; [by constructor | done].
      * intros y. unfold quote. by eexists _, _.
      * eapply Forall_impl; [exact IH |]. intros [k v] Hv [k' v'] t t' Ht Ht'.
        cbn [fst snd]. rewrite <- !app_assoc, <- !app_comm_cons.
        intros Heq. apply quote_delimited in Heq as [-> Heq].
        apply cons_tail in Heq. apply Hv in Heq as [Hsw ->]; done.
Qed.

(** Values written alike have the same text. *)
Lemma sameWritten_write a : forall b, sameWritten a b -> write a = write b.
Proof.
  induction a as [| b | x | s | elements IH | properties IH]
    using value_nested_ind; intros v Hsw; inversion Hsw; subst;
    try discriminate;
    try match goal with
        | Ha : atomText ?a = Some ?t, Hb : atomText ?b = Some ?t |- _ =>
            destruct (atomText_write a t Ha) as [-> _];
            by destruct (atomText_write b t Hb) as [-> _]
        end.
  - reflexivity.
  - cbn [write]. f_equal.
    match goal with H : Forall2 _ _ _ |- _ => rename H into Hall end.
    clear Hsw. induction Hall as [| x y xs ys Hxy _ IHall]; [done |].
    apply Forall_cons in IH as [Hx IH]. cbn [map].
    by rewrite (Hx y Hxy), (IHall IH).
  - cbn [write]. f_equal.
    match goal with H : Forall2 _ _ _ |- _ => rename H into Hall end.
    clear Hsw. induction Hall as [| [k x] [k' y] xs ys [Hk Hxy] _ IHall];
      [done |].
    apply Forall_cons in IH as [Hx IH]. cbn [map fst snd] in *.
    by rewrite Hk, (Hx y Hxy), (IHall IH).
Qed.

(** [JSON.stringify] gives two values the same text exactly when they are
    written alike; [undefined] has no text, and only [undefined] compares
    equal to it. *)
Lemma sameText_written (a b : option value) :
  sameText (stringify a) (stringify b) = true
  <-> match a, b with
      | Some v, Some w => sameWritten v w
      | None, None => True
      | _, _ => False
      end.
Proof.
  destruct a as [v |], b as [w |]; simpl; try done.
  rewrite String.eqb_eq. split.
  - intros H. apply (f_equal list_ascii_of_string) in H.
    rewrite !list_ascii_of_string_of_list_ascii in H.
    assert (Hd : write v ++ [] = write w ++ [])
      by (by rewrite !app_nil_r).
    by apply write_delimited in Hd as [Hsw _].
  - intros Hsw. by rewrite (sameWritten_write v w Hsw).
Qed.

End JsonText.

(* ====================================================================== *)
(** * Facts: the consensus classifier *)
(* ====================================================================== *)

Section Consensus.
Import GeminiProcessor Props.

Lemma allEqual_agree first rs :
  forallb (λ items, sameJson items (itemsOf first)) (map itemsOf rs) = true
  <-> agreeWith first rs.
Proof.
  unfold agreeWith. rewrite forallb_forall, Forall_forall. split.
  - intros H r Hr. apply sameJson_eq, H.
    apply in_map, list_elem_of_In, Hr.
  - intros H items Hin. apply in_map_iff in Hin as (r & <- & Hr).
    apply sameJson_eq, H, list_elem_of_In, Hr.
Qed.

Lemma meetsThreshold_ratio successful total :
  (0 < total)%nat ->
  meetsThreshold successful total = true <-> ratioAtLeast70 successful total.
Proof.
  intros Hpos. unfold meetsThreshold, ratioAtLeast70.
  rewrite Z.leb_le.
  destruct total as [| n]; [lia |].
  unfold Qle, Qdiv, Qmult, Qinv, inject_Z. simpl Qnum. simpl Qden.
  rewrite Nat2Z.inj_succ. unfold Z.succ.
  destruct (Z.of_nat n + 1)%Z as [| q | q] eqn:Hq; [lia | | lia].
  simpl Qnum. simpl Qden. lia.
Qed.

(** The comparison in binary64 and the exact one give the same answer for
    every pair of lengths up to 200. *)
Lemma threshold_double successful total :
  (successful <= 200)%nat -> (total <= 200)%nat ->
  meetsThresholdDouble successful total = meetsThreshold successful total.
Proof.
  intros Hs Ht.
  assert (Hall :
    forallb (λ t, forallb (λ s,
      Bool.eqb (meetsThresholdDouble s t) (meetsThreshold s t))
      (seq 0 201)) (seq 0 201) = true) by (vm_compute; reflexivity).
  rewrite forallb_forall in Hall.
  specialize (Hall total). rewrite forallb_forall in Hall.
  apply Bool.eqb_prop, Hall; apply in_seq; lia.
Qed.

Lemma successfulOf_flagged results :
  (forall r, r ∈ results -> success r = true -> is_Some (data r)) ->
  successfulOf results = filter (λ r, success r = true) results.
Proof.
  unfold successfulOf. induction results as [| r rs IH]; intros H;
    [reflexivity |].
  rewrite !filter_cons, IH
    by (intros x Hx; apply H; by apply list_elem_of_further).
  assert (Hiff : isSuccessful r = true <-> success r = true).
  { unfold isSuccessful. rewrite andb_true_iff, bool_decide_eq_true.
    split; [tauto |]. intros Hs. split; [done |].
    apply H; [apply list_elem_of_here | done]. }
  destruct (decide (isSuccessful r = true)), (decide (success r = true));
    try reflexivity; exfalso; tauto.
Qed.

(** The results that count are those [comparAndMark] filters. *)
Lemma counted_filter results :
  counted results = filter (λ r, Runtime.isSuccessful r = true) results.
Proof.
  unfold counted. apply list_filter_iff. intros r.
  unfold Runtime.isSuccessful. rewrite andb_true_iff.
  destruct (Runtime.data r) as [d |]; simpl; [| by split; intros [_ ?]].
  split; intros [Hs Ht]; (split; [exact Hs |]); congruence.
Qed.

Lemma carries_itemsOf r v : carries r v <-> Runtime.itemsOf r = Some v.
Proof.
  unfold carries, Runtime.itemsOf. split.
  - by intros (d & -> & Hd).
  - destruct (Runtime.data r) as [d |]; [| discriminate]. simpl. eauto.
Qed.

(** The test [allEqual] of [comparAndMark], against the items [v] of the
    first result. *)
Lemma allEqual_agreeOn v rs :
  forallb (λ items, Json.sameText (Json.stringify items)
                                  (Json.stringify (Some v)))
          (map Runtime.itemsOf rs) = true
  <-> agreeOn v rs.
Proof.
  unfold agreeOn. rewrite forallb_forall, Forall_forall. split.
  - intros H r Hr.
    specialize (H (Runtime.itemsOf r)
                  (in_map _ _ _ (proj1 (list_elem_of_In _ _) Hr))).
    apply sameText_written in H.
    destruct (Runtime.itemsOf r) as [w |] eqn:Hw; [| done].
    exists w. split; [by apply carries_itemsOf | done].
  - intros H items Hin. apply in_map_iff in Hin as (r & <- & Hr).
    destruct (H r (proj2 (list_elem_of_In _ _) Hr)) as (w & Hc & Hsw).
    apply carries_itemsOf in Hc. rewrite Hc. by apply sameText_written.
Qed.

(** What [comparAndMark] throws on results that carry no items: the
    comparison of [undefined] with [undefined] holds, and the length of
    [undefined] is read. *)
Lemma comparAndMark_without_items results first rest :
  counted results = first :: rest ->
  Forall (λ r, Runtime.itemsOf r = None) (counted results) ->
  Runtime.comparAndMark results
  = Js.Throw (Js.ErrorWith
                "Cannot read properties of undefined (reading 'length')").
Proof.
  intros Hs Hnone. unfold Runtime.comparAndMark.
  rewrite <- counted_filter, Hs. rewrite Hs in Hnone. cbn [length Nat.eqb].
  apply Forall_cons in Hnone as [Hfirst Hrest].
  cbn [map lookup list_lookup default id]. rewrite Hfirst.
  assert (Hall : forallb (λ items,
                    Json.sameText (Json.stringify items) (Json.stringify None))
                   (None :: map Runtime.itemsOf rest) = true).
  { simpl. apply forallb_forall. intros items Hin.
    apply in_map_iff in Hin as (r & <- & Hr).
    rewrite Forall_forall in Hrest.
    by rewrite (Hrest r (proj2 (list_elem_of_In _ _) Hr)). }
  unfold id. by rewrite Hall.
Qed.

(** C2, as stated, fails: two results with the same one item, field by
    field, count as disagreeing when the response of one lists the
    properties of the item in another order. *)
Lemma C2_key_order_breaks_agreement :
  let results := [answered (legibleWith [laptopLine]);
                  answered (legibleWith [laptopLineQuantityFirst])] in
  counted results = results
  /\ sameFields [laptopLine] [laptopLineQuantityFirst]
  /\ length [laptopLine] = 1%nat
  /\ exists out,
       Runtime.comparAndMark results = Js.Ok out
       /\ Runtime.c_marca out = falta_datos
       /\ Runtime.c_confidence out = media.
Proof.
  intros results. split_and!; try reflexivity.
  eexists. split; [vm_compute; reflexivity |]. done.
Qed.

(** C2, amended: the verdict of [comparAndMark], case by case, when the
    first result that counts carries an array of items. A result counts
    when it is flagged a success and has data. The results agree when each
    carries items that [JSON.stringify] writes like those of the first:
    arrays of as many items, each with the same property names in the same
    order, the same strings, and numbers with the same digits. *)
Theorem C2_consensus_classifier (results : list Runtime.FileProcessResult) :
  let successful := counted results in
  (successful = [] ->
     Runtime.comparAndMark results
     = Js.Ok {| Runtime.c_marca := falta_datos;
                Runtime.c_confidence := baja;
                Runtime.c_items := Some (Json.JArray []);
                Runtime.c_filesProcessed := 0 |})
  /\ (forall first rest items,
        successful = first :: rest ->
        carries first (Json.JArray items) ->
        exists out,
          Runtime.comparAndMark results = Js.Ok out
          /\ Runtime.c_items out = Some (Json.JArray items)
          /\ Runtime.c_filesProcessed out = length successful
          /\ (agreeOn (Json.JArray items) successful ->
              length items = 1%nat ->
                Runtime.c_marca out = sobreprecio
                /\ Runtime.c_confidence out = alta)
          /\ (~ agreeOn (Json.JArray items) successful ->
                Runtime.c_marca out = falta_datos
                /\ (ratioAtLeast70 (length successful) (length results)
                      -> Runtime.c_confidence out = media)
                /\ (~ ratioAtLeast70 (length successful) (length results)
                      -> Runtime.c_confidence out = baja))
          /\ (agreeOn (Json.JArray items) successful ->
              length items <> 1%nat ->
                Runtime.c_marca out = normal
                /\ Runtime.c_confidence out = alta)).
Proof.
  intros successful. unfold Runtime.comparAndMark.
  rewrite <- counted_filter. fold successful. split.
  - intros ->. reflexivity.
  - intros first rest items Hs Hfirst.
    apply carries_itemsOf in Hfirst.
    assert (Hz : (length successful =? 0)%nat = false)
      by (rewrite Hs; reflexivity).
    assert (H0 : default None (map Runtime.itemsOf successful !! 0%nat)
                 = Some (Json.JArray items))
      by (rewrite Hs; simpl; by rewrite Hfirst).
    rewrite Hz, H0.
    assert (Hlen : (0 < length results)%nat).
    { destruct results; [discriminate Hs | simpl; lia]. }
    clear Hz H0 Hs.
    pose proof (allEqual_agreeOn (Json.JArray items) successful) as Hagree.
    pose proof (meetsThreshold_ratio (length successful) (length results)
                  Hlen) as Hratio.
    destruct (forallb _ (map Runtime.itemsOf successful)) eqn:Hall; simpl.
    + assert (Ha : agreeOn (Json.JArray items) successful)
        by (by apply Hagree).
      eexists. split; [reflexivity |]. simpl.
      destruct (length items =? 1)%nat eqn:Hone; simpl.
      * apply Nat.eqb_eq in Hone. split_and!; try done.
      * apply Nat.eqb_neq in Hone. split_and!; try done.
    + assert (Ha : ~ agreeOn (Json.JArray items) successful).
      { intros Ha. apply Hagree in Ha. discriminate. }
      eexists. split; [reflexivity |]. simpl.
      split_and!; try done. intros _. split_and!; [done | |].
      * intros Hr. apply Hratio in Hr. by rewrite Hr.
      * intros Hr. destruct (meetsThreshold _ _); [| done].
        exfalso. by apply Hr, Hratio.
Qed.

End Consensus.

(* ====================================================================== *)
(** * Facts: integers in binary64 *)
(* ====================================================================== *)

Section Binary64.
Import Props.
Local Open Scope Z_scope.

(** The number of binary digits of a positive number. *)
Lemma digits_bounds (p : positive) :
  2 ^ (Zpos (digits2_pos p) - 1) <= Zpos p < 2 ^ Zpos (digits2_pos p).
Proof.
  assert (Hstep : forall d : positive,
            2 ^ Zpos (Pos.succ d) = 2 * 2 ^ Zpos d
            /\ 2 ^ (Zpos (Pos.succ d) - 1) = 2 * 2 ^ (Zpos d - 1)).
  { intros d. rewrite Pos2Z.inj_succ. split.
    - apply Z.pow_succ_r. lia.
    - replace (Z.succ (Zpos d) - 1) with (Z.succ (Zpos d - 1)) by lia.
      apply Z.pow_succ_r. lia. }
  induction p as [p IH | p IH |]; cbn [digits2_pos].
  - destruct (Hstep (digits2_pos p)) as [-> ->]. lia.
  - destruct (Hstep (digits2_pos p)) as [-> ->]. lia.
  - simpl. lia.
Qed.

Lemma digits_unique (p : positive) (d : Z) :
  2 ^ (d - 1) <= Zpos p < 2 ^ d -> Zpos (digits2_pos p) = d.
Proof.
  intros [Hlo Hhi]. pose proof (digits_bounds p) as [Hlo' Hhi'].
  assert (Hd : 0 < d).
  { destruct (Z.ltb_spec 0 d); [done |].
    assert (2 ^ d <= 2 ^ 0) by (apply Z.pow_le_mono_r; lia).
    simpl in *. lia. }
  destruct (Z.lt_trichotomy (Zpos (digits2_pos p)) d) as [H | [H | H]];
    [| done |].
  - assert (2 ^ Zpos (digits2_pos p) <= 2 ^ (d - 1))
      by (apply Z.pow_le_mono_r; lia). lia.
  - assert (2 ^ d <= 2 ^ (Zpos (digits2_pos p) - 1))
      by (apply Z.pow_le_mono_r; lia). lia.
Qed.

(** Shifting to the left by [k] digits adds [k] digits. *)
Lemma digits_shift (p : positive) (k : Z) :
  0 <= k ->
  Zdigits2 (Zpos p * 2 ^ k) = Zpos (digits2_pos p) + k.
Proof.
  intros Hk. pose proof (digits_bounds p) as [Hlo Hhi].
  assert (Hpos : 0 < 2 ^ k) by (apply Z.pow_pos_nonneg; lia).
  destruct (Zpos p * 2 ^ k) as [| q | q] eqn:Hq; [lia | | lia].
  cbn [Zdigits2]. apply digits_unique. rewrite <- Hq.
  replace (Zpos (digits2_pos p) + k - 1)
    with ((Zpos (digits2_pos p) - 1) + k) by lia.
  rewrite !Z.pow_add_r by lia. nia.
Qed.

Lemma pow2_double (k : positive) :
  2 ^ Zpos k~0 = 2 ^ Zpos k * 2 ^ Zpos k
  /\ 2 ^ Zpos k~1 = 2 * (2 ^ Zpos k * 2 ^ Zpos k).
Proof.
  assert (H0 : 2 ^ Zpos k~0 = 2 ^ Zpos k * 2 ^ Zpos k).
  { replace (Zpos k~0) with (Zpos k + Zpos k) by lia.
    apply Z.pow_add_r; lia. }
  split; [exact H0 |].
  replace (Zpos k~1) with (Z.succ (Zpos k~0)) by lia.
  rewrite Z.pow_succ_r by lia. by rewrite H0.
Qed.

Lemma iter_xO (k : positive) : forall p : positive,
  Zpos (Pos.iter xO p k) = Zpos p * 2 ^ Zpos k.
Proof.
  induction k as [k IH | k IH |]; intros p; cbn [Pos.iter];
    try destruct (pow2_double k) as [H0 H1].
  - rewrite Pos2Z.inj_xO, !IH, H1. ring.
  - rewrite !IH, H0. ring.
  - rewrite Pos2Z.inj_xO. change (2 ^ 1) with 2. ring.
Qed.

(** Dropping [n] digits that are all 0 loses nothing. *)
Lemma shr_exact (n : positive) : forall m : positive,
  SpecFloat.iter_pos shr_1 n {| shr_m := Zpos m * 2 ^ Zpos n;
                      shr_r := false; shr_s := false |}
  = {| shr_m := Zpos m; shr_r := false; shr_s := false |}.
Proof.
  assert (Hone : forall q : positive,
            shr_1 {| shr_m := Zpos q * 2; shr_r := false; shr_s := false |}
            = {| shr_m := Zpos q; shr_r := false; shr_s := false |}).
  { intros q. replace (Zpos q * 2) with (Zpos (xO q)) by lia. reflexivity. }
  induction n as [n IH | n IH |]; intros m; cbn [SpecFloat.iter_pos];
    try destruct (pow2_double n) as [H0 H1].
  - replace (Zpos m * 2 ^ Zpos n~1)
      with (Zpos (Pos.iter xO (Pos.iter xO m n) n) * 2)
      by (rewrite !iter_xO, H1; ring).
    rewrite Hone. rewrite iter_xO, IH, iter_xO, IH. reflexivity.
  - replace (Zpos m * 2 ^ Zpos n~0)
      with (Zpos (Pos.iter xO m n) * 2 ^ Zpos n)
      by (rewrite iter_xO, H0; ring).
    rewrite IH, iter_xO, IH. reflexivity.
  - change (2 ^ 1) with 2. apply Hone.
Qed.


Lemma fexp_normal (d : Z) : emin <= d - 53 -> fexp prec emax d = d - 53.
Proof. unfold fexp, prec. lia. Qed.

(** A mantissa of 53 digits followed by [n] digits 0 is cut to its 53
    digits, nothing lost. *)
Lemma shr_fexp_exact (q : positive) (n e : Z) :
  Zpos (digits2_pos q) = 53 -> 0 <= n -> emin <= e + n ->
  shr_fexp prec emax (Zpos q * 2 ^ n) e loc_Exact
  = ({| shr_m := Zpos q; shr_r := false; shr_s := false |}, e + n).
Proof.
  intros Hd Hn He. unfold shr_fexp.
  rewrite digits_shift, Hd by done.
  rewrite fexp_normal by lia.
  replace (53 + n + e - 53 - e) with n by lia.
  unfold shr, shr_record_of_loc. destruct n as [| n | n]; [| | lia].
  - by rewrite Z.mul_1_r, Z.add_0_r.
  - by rewrite shr_exact.
Qed.

Lemma round_aux_exact (s : bool) (q : positive) (n e : Z) :
  Zpos (digits2_pos q) = 53 -> 0 <= n -> emin <= e + n <= emax - prec ->
  binary_round_aux prec emax s (Zpos q * 2 ^ n) e loc_Exact
  = S754_finite s q (e + n).
Proof.
  intros Hd Hn [Hlo Hhi]. unfold binary_round_aux.
  rewrite shr_fexp_exact by done. cbn [shr_m loc_of_shr_record
                                        round_nearest_even].
  pose proof (shr_fexp_exact q 0 (e + n) Hd ltac:(lia) ltac:(lia)) as H0.
  rewrite Z.mul_1_r, Z.add_0_r in H0. rewrite H0. cbn [shr_m].
  destruct (Z.leb_spec (e + n) (emax - prec)); [done | lia].
Qed.

(** The mantissa of the form of an integer, and its digits. *)
Lemma integerForm_mantissa (p : positive) :
  Zpos p < 2 ^ 53 ->
  let q := Z.to_pos (Zpos p * 2 ^ (53 - Zpos (digits2_pos p))) in
  Zpos (digits2_pos p) <= 53
  /\ Zpos q = Zpos p * 2 ^ (53 - Zpos (digits2_pos p))
  /\ Zpos (digits2_pos q) = 53.
Proof.
  intros Hp q. pose proof (digits_bounds p) as [Hlo Hhi].
  assert (Hd : Zpos (digits2_pos p) <= 53).
  { destruct (Z.leb_spec (Zpos (digits2_pos p)) 53); [done |].
    assert (2 ^ 53 <= 2 ^ (Zpos (digits2_pos p) - 1))
      by (apply Z.pow_le_mono_r; lia). lia. }
  assert (Hpos : 0 < 2 ^ (53 - Zpos (digits2_pos p)))
    by (apply Z.pow_pos_nonneg; lia).
  assert (Hq : Zpos q = Zpos p * 2 ^ (53 - Zpos (digits2_pos p)))
    by (subst q; rewrite Z2Pos.id by (apply Z.mul_pos_pos; lia); reflexivity).
  split; [done |]. split; [done |].
  pose proof (digits_shift p (53 - Zpos (digits2_pos p)) ltac:(lia)) as Hs.
  rewrite <- Hq in Hs. cbn [Zdigits2] in Hs. lia.
Qed.

(** Rounding what is an integer below 2^53, however it is shifted, gives
    its form. *)
Lemma round_exact (s : bool) (p : positive) (k : Z) :
  Zpos p < 2 ^ 53 -> 0 <= k ->
  binary_round prec emax s (Z.to_pos (Zpos p * 2 ^ k)) (- k)
  = integerForm s (Zpos p).
Proof.
  intros Hp Hk. destruct (integerForm_mantissa p Hp) as (Hd & Hq & Hdq).
  set (d := Zpos (digits2_pos p)) in *.
  set (q := Z.to_pos (Zpos p * 2 ^ (53 - d))) in *.
  assert (Hpos : 0 < 2 ^ k) by (apply Z.pow_pos_nonneg; lia).
  set (m := Z.to_pos (Zpos p * 2 ^ k)).
  assert (Hm : Zpos m = Zpos p * 2 ^ k)
    by (subst m; rewrite Z2Pos.id by (apply Z.mul_pos_pos; lia); reflexivity).
  assert (Hdm : Zpos (digits2_pos m) = d + k).
  { pose proof (digits_shift p k Hk) as H. rewrite <- Hm in H. exact H. }
  assert (Hd1 : 1 <= d) by (subst d; lia).
  unfold integerForm. cbn [Zdigits2]. fold d. fold q.
  unfold binary_round. rewrite Hdm.
  replace (d + k + - k) with d by lia.
  rewrite fexp_normal by (unfold SpecFloat.emin, emax, prec; lia).
  unfold shl_align.
  destruct (d - 53 - - k) as [| j | j] eqn:Hj.
  - assert (Hmq : m = q).
    { apply Pos2Z.inj. rewrite Hm, Hq. by replace k with (53 - d) by lia. }
    rewrite Hmq.
    pose proof (round_aux_exact s q 0 (- k) Hdq ltac:(lia)
                  ltac:(unfold SpecFloat.emin, emax, prec; lia)) as H.
    rewrite Z.mul_1_r in H. rewrite H. f_equal. lia.
  - pose proof (round_aux_exact s q (Zpos j) (- k) Hdq ltac:(lia)
                  ltac:(unfold SpecFloat.emin, emax, prec; lia)) as H.
    replace (Zpos q * 2 ^ Zpos j) with (Zpos m) in H.
    + rewrite H. f_equal. lia.
    + rewrite Hm, Hq, <- Z.mul_assoc, <- Z.pow_add_r by lia.
      by replace (53 - d + Zpos j) with k by lia.
  - assert (Hmq : Pos.iter xO m j = q).
    { apply Pos2Z.inj. rewrite iter_xO, Hm, Hq, <- Z.mul_assoc,
        <- Z.pow_add_r by lia.
      by replace (k + Zpos j) with (53 - d) by lia. }
    rewrite Hmq.
    pose proof (round_aux_exact s q 0 (d - 53) Hdq ltac:(lia)
                  ltac:(unfold SpecFloat.emin, emax, prec; lia)) as H.
    rewrite Z.mul_1_r in H. rewrite H. f_equal. lia.
Qed.


(** The product of two integers held in binary64 is their product, when
    that is below 2^53. *)
Lemma mul_forms (sa sb : bool) (pa pb : positive) :
  Zpos (pa * pb) < 2 ^ 53 ->
  SFmul prec emax (integerForm sa (Zpos pa)) (integerForm sb (Zpos pb))
  = integerForm (xorb sa sb) (Zpos (pa * pb)).
Proof.
  intros Hc.
  assert (Ha : Zpos pa < 2 ^ 53) by nia.
  assert (Hb : Zpos pb < 2 ^ 53) by nia.
  destruct (integerForm_mantissa pa Ha) as (Hda & Hqa & _).
  destruct (integerForm_mantissa pb Hb) as (Hdb & Hqb & _).
  destruct (integerForm_mantissa (pa * pb) Hc) as (Hdc & Hqc & Hdqc).
  pose proof (digits_bounds pa) as [Hla Hua].
  pose proof (digits_bounds pb) as [Hlb Hub].
  pose proof (digits_bounds (pa * pb)) as [Hlc Huc].
  set (da := Zpos (digits2_pos pa)) in *.
  set (db := Zpos (digits2_pos pb)) in *.
  set (dc := Zpos (digits2_pos (pa * pb))) in *.
  set (qa := Z.to_pos (Zpos pa * 2 ^ (53 - da))) in *.
  set (qb := Z.to_pos (Zpos pb * 2 ^ (53 - db))) in *.
  set (qc := Z.to_pos (Zpos (pa * pb) * 2 ^ (53 - dc))) in *.
  assert (H1a : 1 <= da) by (subst da; lia).
  assert (H1b : 1 <= db) by (subst db; lia).
  assert (Hdigits : da + db - 1 <= dc).
  { destruct (Z.leb_spec (da + db - 1) dc); [done |].
    assert (2 ^ dc <= 2 ^ (da + db - 2)) by (apply Z.pow_le_mono_r; lia).
    replace (da + db - 2) with ((da - 1) + (db - 1)) in * by lia.
    rewrite Z.pow_add_r in * by lia.
    rewrite Pos2Z.inj_mul in *.
    assert (0 < 2 ^ (da - 1)) by (apply Z.pow_pos_nonneg; lia).
    assert (0 < 2 ^ (db - 1)) by (apply Z.pow_pos_nonneg; lia).
    nia. }
  unfold integerForm. cbn [Zdigits2 SFmul]. fold da db dc qa qb qc.
  pose proof (round_aux_exact (xorb sa sb) qc (53 + dc - da - db)
                (da - 53 + (db - 53)) Hdqc ltac:(lia)
                ltac:(unfold SpecFloat.emin, emax, prec; lia)) as H.
  replace (Zpos qc * 2 ^ (53 + dc - da - db)) with (Zpos (qa * qb)) in H.
  - rewrite H. f_equal. lia.
  - rewrite Pos2Z.inj_mul, Hqa, Hqb, Hqc, Pos2Z.inj_mul.
    rewrite <- !Z.mul_assoc. f_equal.
    rewrite (Z.mul_comm (2 ^ (53 - da))), <- !Z.mul_assoc. f_equal.
    rewrite <- !Z.pow_add_r by lia. f_equal. lia.
Qed.


Lemma shl_align_value (q : positive) (e ez : Z) :
  ez <= e -> Zpos (fst (shl_align q e ez)) = Zpos q * 2 ^ (e - ez).
Proof.
  intros He. unfold shl_align. destruct (ez - e) as [| j | j] eqn:Hj.
  - replace (e - ez) with 0 by lia. simpl. lia.
  - lia.
  - cbn [fst]. rewrite iter_xO. by replace (e - ez) with (Zpos j) by lia.
Qed.

Lemma cond_Zopp_mul (s : bool) (x y : Z) :
  cond_Zopp s (x * y) = cond_Zopp s x * y.
Proof. destruct s; simpl; lia. Qed.

(** Rounding an integer below 2^53 in magnitude, shifted by [k] digits. *)
Lemma normalize_exact (c k : Z) :
  Z.abs c < 2 ^ 53 -> 0 <= k ->
  binary_normalize prec emax (c * 2 ^ k) (- k) false = formOf c.
Proof.
  intros Hc Hk.
  assert (Hpos : 0 < 2 ^ k) by (apply Z.pow_pos_nonneg; lia).
  destruct c as [| pc | pc]; cbn [formOf].
  - reflexivity.
  - assert (Hs : Zpos pc * 2 ^ k = Zpos (Z.to_pos (Zpos pc * 2 ^ k)))
      by (rewrite Z2Pos.id; [done | nia]).
    rewrite Hs. cbn [binary_normalize]. apply round_exact; lia.
  - assert (Hs : Zneg pc * 2 ^ k = Zneg (Z.to_pos (Zpos pc * 2 ^ k))).
    { assert (Zpos (Z.to_pos (Zpos pc * 2 ^ k)) = Zpos pc * 2 ^ k)
        by (apply Z2Pos.id; nia). lia. }
    rewrite Hs. cbn [binary_normalize Z.opp]. apply round_exact; lia.
Qed.

(** The sum of two integers held in binary64 is their sum, when that is
    below 2^53 in magnitude. *)
Lemma add_forms (sa sb : bool) (pa pb : positive) :
  Zpos pa < 2 ^ 53 -> Zpos pb < 2 ^ 53 ->
  Z.abs (cond_Zopp sa (Zpos pa) + cond_Zopp sb (Zpos pb)) < 2 ^ 53 ->
  SFadd prec emax (integerForm sa (Zpos pa)) (integerForm sb (Zpos pb))
  = formOf (cond_Zopp sa (Zpos pa) + cond_Zopp sb (Zpos pb)).
Proof.
  intros Ha Hb Hc.
  destruct (integerForm_mantissa pa Ha) as (Hda & Hqa & _).
  destruct (integerForm_mantissa pb Hb) as (Hdb & Hqb & _).
  set (da := Zpos (digits2_pos pa)) in *.
  set (db := Zpos (digits2_pos pb)) in *.
  set (qa := Z.to_pos (Zpos pa * 2 ^ (53 - da))) in *.
  set (qb := Z.to_pos (Zpos pb * 2 ^ (53 - db))) in *.
  unfold integerForm. cbn [Zdigits2 SFadd]. fold da db qa qb.
  set (ez := Z.min (da - 53) (db - 53)).
  rewrite <- (normalize_exact _ (- ez) Hc) by lia.
  rewrite Z.opp_involutive. f_equal.
  rewrite !shl_align_value by lia. rewrite Hqa, Hqb.
  rewrite Z.mul_add_distr_r, <- !cond_Zopp_mul, <- !Z.mul_assoc,
    <- !Z.pow_add_r by lia.
  f_equal; f_equal; f_equal; f_equal; lia.
Qed.


Lemma isInteger_formOf x z :
  isInteger x z
  <-> Prim2SF x = formOf z \/ (z = 0 /\ Prim2SF x = S754_zero true).
Proof.
  destruct z as [| p | p]; cbn [isInteger formOf].
  - split.
    + intros [[] H]; [right | left]; done.
    + intros [H | [_ H]]; eauto.
  - split; [by left | by intros [H | [[=] _]]].
  - split; [by left | by intros [H | [[=] _]]].
Qed.

Lemma isInteger_signed (x : float) (sg : bool) (z : Z) :
  0 < z -> Prim2SF x = integerForm sg z ->
  isInteger x (if sg then - z else z).
Proof. intros Hz Hx. destruct z as [| p | p]; try lia. by destruct sg. Qed.

(** A double that is an integer below 2^53 in magnitude holds it in the
    form of that integer. *)
Lemma integerOf_isInteger (x : float) (z : Z) :
  integerOf x = Some z -> Z.abs z < 2 ^ 53 -> isInteger x z.
Proof.
  unfold integerOf. pose proof (Prim2SF_valid x) as Hvalid.
  destruct (Prim2SF x) as [sg | sg | | sg m e] eqn:Hx; try discriminate.
  - intros [= <-] _. by exists sg.
  - cbn [valid_binary] in Hvalid. unfold bounded, canonical_mantissa in Hvalid.
    apply andb_true_iff in Hvalid as [Hcanon _].
    apply Z.eqb_eq in Hcanon. unfold fexp in Hcanon.
    pose proof (digits_bounds m) as [Hlo Hhi].
    set (dm := Zpos (digits2_pos m)) in *.
    assert (Hform : forall z' : Z,
              0 < z' < 2 ^ 53 ->
              (0 <= e -> z' = Zpos m * 2 ^ e) ->
              (e < 0 -> Zpos m = z' * 2 ^ (- e)) ->
              S754_finite sg m e = integerForm sg z').
    { intros z' [Hz0 Hz] Hge Hlt. unfold integerForm.
      destruct (Z.leb_spec 0 e) as [He | He].
      - specialize (Hge He).
        assert (Hpow : 0 < 2 ^ e) by (apply Z.pow_pos_nonneg; lia).
        assert (Hdm : dm = 53) by (unfold SpecFloat.emin, emax, prec in *; lia).
        assert (H52 : 2 ^ 52 <= Zpos m) by (rewrite Hdm in Hlo; exact Hlo).
        assert (He0 : e = 0).
        { destruct (Z.eq_dec e 0) as [| Hne]; [done |].
          assert (2 ^ 1 <= 2 ^ e) by (apply Z.pow_le_mono_r; lia).
          change (2 ^ 1) with 2 in *. nia. }
        subst e. rewrite Z.mul_1_r in Hge. subst z'.
        cbn [Zdigits2]. fold dm. rewrite Hdm. simpl. by rewrite Pos.mul_1_r.
      - specialize (Hlt He). destruct z' as [| pz | pz]; try lia.
        pose proof (digits_shift pz (- e) ltac:(lia)) as Hs.
        rewrite <- Hlt in Hs. cbn [Zdigits2] in Hs. fold dm in Hs.
        assert (He' : e = Zpos (digits2_pos pz) - 53)
          by (unfold SpecFloat.emin, emax, prec in *; lia).
        cbn [Zdigits2]. rewrite <- He'.
        replace (53 - Zpos (digits2_pos pz)) with (- e) by lia.
        by rewrite <- Hlt. }
    destruct (Z.leb_spec 0 e) as [He | He].
    + cbn [fmap option_fmap option_map]. intros [= <-] Hz.
      assert (Hpos : 0 < Zpos m * 2 ^ e)
        by (apply Z.mul_pos_pos; [lia | apply Z.pow_pos_nonneg; lia]).
      apply isInteger_signed; [exact Hpos |]. rewrite Hx.
      apply Hform; [destruct sg |..]; lia.
    + destruct (Z.eqb_spec (Zpos m mod 2 ^ (- e)) 0) as [Hmod | Hmod];
        [| discriminate].
      cbn [fmap option_fmap option_map]. intros [= <-] Hz.
      assert (Hpow : 0 < 2 ^ (- e)) by (apply Z.pow_pos_nonneg; lia).
      assert (Hm : Zpos m = Zpos m / 2 ^ (- e) * 2 ^ (- e)).
      { pose proof (Z.div_mod (Zpos m) (2 ^ (- e)) ltac:(lia)). lia. }
      assert (Hpos : 0 < Zpos m / 2 ^ (- e)) by nia.
      apply isInteger_signed; [exact Hpos |]. rewrite Hx.
      apply Hform; [destruct sg |..]; lia.
Qed.

(** And the double in the form of an integer is that integer. *)
Lemma isInteger_integerOf (x : float) (z : Z) :
  Z.abs z < 2 ^ 53 -> isInteger x z -> integerOf x = Some z.
Proof.
  intros Hz Hx. unfold integerOf.
  assert (Hform : forall (sg : bool) (p : positive),
            Zpos p < 2 ^ 53 ->
            Prim2SF x = integerForm sg (Zpos p) ->
            integerOf x = Some (if sg then Zneg p else Zpos p)).
  { intros sg p Hp Hf. unfold integerOf. rewrite Hf. unfold integerForm.
    destruct (integerForm_mantissa p Hp) as (Hd & Hq & _).
    cbn [Zdigits2]. rewrite Hq.
    set (d := Zpos (digits2_pos p)) in *.
    assert (Hpow : 0 < 2 ^ (53 - d)) by (apply Z.pow_pos_nonneg; lia).
    destruct (Z.leb_spec 0 (d - 53)) as [He | He].
    - replace (53 - d) with 0 by lia. replace (d - 53) with 0 by lia.
      simpl. destruct sg; f_equal; lia.
    - replace (- (d - 53)) with (53 - d) by lia.
      rewrite Z.mod_mul, Z.div_mul by lia. simpl. by destruct sg. }
  destruct z as [| p | p]; cbn [isInteger Z.opp] in Hx.
  - destruct Hx as [sg ->]. reflexivity.
  - apply (Hform false p); [lia | exact Hx].
  - apply (Hform true p); [lia | exact Hx].
Qed.


Lemma integerOf_finite (x : float) (z : Z) :
  integerOf x = Some z ->
  match Prim2SF x with
  | S754_zero _ | S754_finite _ _ _ => True
  | _ => False
  end.
Proof. unfold integerOf. by destruct (Prim2SF x). Qed.

(** The product of two doubles that are integers is their product, when
    that is below 2^53 in magnitude. *)
Lemma mul_exact (x y : float) (a b : Z) :
  integerOf x = Some a -> integerOf y = Some b -> Z.abs (a * b) < 2 ^ 53 ->
  isInteger (x * y)%float (a * b).
Proof.
  intros Hx Hy Hab.
  pose proof (integerOf_finite x a Hx) as Hfx.
  pose proof (integerOf_finite y b Hy) as Hfy.
  destruct (Z.eq_dec a 0) as [-> | Ha].
  - destruct (integerOf_isInteger x 0 Hx ltac:(done)) as [sg Hz].
    assert (Hm : exists sg', Prim2SF (x * y)%float = S754_zero sg').
    { rewrite mul_spec, Hz. unfold SF64mul.
      destruct (Prim2SF y); try done; cbn [SFmul]; eauto. }
    exact Hm.
  - destruct (Z.eq_dec b 0) as [-> | Hb].
    + destruct (integerOf_isInteger y 0 Hy ltac:(done)) as [sg Hz].
      assert (Hm : exists sg', Prim2SF (x * y)%float = S754_zero sg').
      { rewrite mul_spec, Hz. unfold SF64mul.
        destruct (Prim2SF x); try done; cbn [SFmul]; eauto. }
      rewrite Z.mul_0_r. exact Hm.
    + apply integerOf_isInteger in Hx; [| nia].
      apply integerOf_isInteger in Hy; [| nia].
      destruct a as [| pa | pa], b as [| pb | pb]; try done;
        cbn [isInteger Z.opp] in Hx, Hy;
        [ change (Zpos pa * Zpos pb) with (Zpos (pa * pb)) in *
        | change (Zpos pa * Zneg pb) with (Zneg (pa * pb)) in *
        | change (Zneg pa * Zpos pb) with (Zneg (pa * pb)) in *
        | change (Zneg pa * Zneg pb) with (Zpos (pa * pb)) in * ];
        try change (- Zneg pa) with (Zpos pa) in *;
        try change (- Zneg pb) with (Zpos pb) in *;
        try change (- Zneg (pa * pb)) with (Zpos (pa * pb)) in *;
        cbn [isInteger];
        try change (- Zneg (pa * pb)) with (Zpos (pa * pb));
        rewrite mul_spec, Hx, Hy; unfold SF64mul;
        rewrite mul_forms by lia; reflexivity.
Qed.

(** The sum of two doubles that are integers is their sum, when all three
    are below 2^53 in magnitude. *)
Lemma add_exact (x y : float) (a b : Z) :
  isInteger x a -> isInteger y b ->
  Z.abs a < 2 ^ 53 -> Z.abs b < 2 ^ 53 -> Z.abs (a + b) < 2 ^ 53 ->
  isInteger (x + y)%float (a + b).
Proof.
  intros Hx Hy Ha Hb Hab.
  assert (Hforms : forall (sa sb : bool) (pa pb : positive),
            Zpos pa < 2 ^ 53 -> Zpos pb < 2 ^ 53 ->
            Z.abs (cond_Zopp sa (Zpos pa) + cond_Zopp sb (Zpos pb)) < 2 ^ 53 ->
            Prim2SF x = integerForm sa (Zpos pa) ->
            Prim2SF y = integerForm sb (Zpos pb) ->
            isInteger (x + y)%float
                      (cond_Zopp sa (Zpos pa) + cond_Zopp sb (Zpos pb))).
  { intros sa sb pa pb Hpa Hpb Hc Hfx Hfy. apply isInteger_formOf. left.
    rewrite add_spec, Hfx, Hfy. unfold SF64add. by apply add_forms. }
  assert (Hzero : forall f : spec_float,
            Prim2SF (x + y)%float = f ->
            (exists sg, f = S754_zero sg) -> isInteger (x + y)%float 0).
  { intros f Hf [sg ->]. by exists sg. }
  destruct a as [| pa | pa], b as [| pb | pb]; unfold isInteger in Hx, Hy.
  - destruct Hx as [sa Hx], Hy as [sb Hy]. rewrite Z.add_0_l.
    eapply Hzero; [rewrite add_spec, Hx, Hy; reflexivity |].
    unfold SF64add. cbn [SFadd]. destruct sa, sb; eauto.
  - destruct Hx as [sa Hx]. rewrite Z.add_0_l. unfold isInteger.
    rewrite add_spec, Hx, Hy. reflexivity.
  - destruct Hx as [sa Hx]. rewrite Z.add_0_l. unfold isInteger.
    rewrite add_spec, Hx, Hy. reflexivity.
  - destruct Hy as [sb Hy]. rewrite Z.add_0_r. unfold isInteger.
    rewrite add_spec, Hx, Hy. reflexivity.
  - apply (Hforms false false pa pb); try done; lia.
  - apply (Hforms false true pa pb); try done; lia.
  - destruct Hy as [sb Hy]. rewrite Z.add_0_r. unfold isInteger.
    rewrite add_spec, Hx, Hy. reflexivity.
  - apply (Hforms true false pa pb); try done; lia.
  - apply (Hforms true true pa pb); try done; lia.
Qed.

End Binary64.

(* ====================================================================== *)
(** * Facts: the order total *)
(* ====================================================================== *)

Section OrderTotal.
Import Js Json GeminiProcessor Props.

(** [comparAndMark] reads of its argument the number of results and the
    items of the results that count, nothing else. *)
Lemma comparAndMark_reads rs rs' :
  length rs = length rs' ->
  map Runtime.itemsOf (counted rs) = map Runtime.itemsOf (counted rs') ->
  Runtime.comparAndMark rs = Runtime.comparAndMark rs'.
Proof.
  intros Hlen Hitems. unfold Runtime.comparAndMark.
  rewrite <- !counted_filter.
  rewrite <- !(length_map Runtime.itemsOf (counted _)).
  by rewrite Hlen, Hitems.
Qed.

Lemma property_withProperty key k t properties :
  key <> k ->
  property key (withProperty k t properties) = property key properties.
Proof.
  intros Hne. unfold withProperty.
  induction properties as [| [k' v] properties IH].
  - destruct t; simpl; [| done].
    destruct (String.eqb_spec k key); [congruence | done].
  - rewrite filter_cons. cbn [fst property].
    destruct (decide (k' <> k)) as [Hk | Hk]; cbn [app property].
    + by rewrite IH.
    + destruct (String.eqb_spec k' key) as [-> | _]; [| exact IH].
      exfalso. apply Hk. done.
Qed.

Lemma reporting_successful t r :
  Runtime.isSuccessful (reporting t r) = Runtime.isSuccessful r.
Proof.
  unfold Runtime.isSuccessful, reporting. simpl.
  destruct (Runtime.data r) as [[] |]; reflexivity.
Qed.

Lemma reporting_items t r :
  Runtime.itemsOf (reporting t r) = Runtime.itemsOf r.
Proof.
  unfold Runtime.itemsOf, reporting. simpl.
  destruct (Runtime.data r) as [[] |]; try reflexivity. simpl.
  by apply property_withProperty.
Qed.

Lemma counted_reporting (t : Runtime.FileProcessResult -> option value) rs :
  map Runtime.itemsOf (counted (map (λ r, reporting (t r) r) rs))
  = map Runtime.itemsOf (counted rs).
Proof.
  rewrite !counted_filter. induction rs as [| r rs IH]; [reflexivity |].
  simpl map at 2. rewrite !filter_cons, reporting_successful.
  destruct (decide (Runtime.isSuccessful r = true)); simpl.
  - by rewrite reporting_items, IH.
  - exact IH.
Qed.

Lemma comparAndMark_reporting
    (t : Runtime.FileProcessResult -> option value) rs :
  Runtime.comparAndMark (map (λ r, reporting (t r) r) rs)
  = Runtime.comparAndMark rs.
Proof.
  apply comparAndMark_reads; [by rewrite length_map |].
  apply counted_reporting.
Qed.

(** The amount [reduce] adds for a line. *)
Lemma lineAmount_amountOf item amount :
  Runtime.lineAmount item = Ok amount <-> amountOf item amount.
Proof.
  unfold amountOf, priceOf, quantityOf, Runtime.lineAmount. split.
  - intros H. split; [by intros -> |].
    destruct item; try discriminate H;
      (destruct (toNumber (get _ "precio_unitario")) as [price |];
         [| discriminate H]);
      (destruct (toNumber (get _ "cantidad")) as [quantity |];
         [| discriminate H]);
      injection H as <-; by eexists _, _.
  - intros (Hnull & price & quantity & Hp & Hq & ->).
    destruct item; try done; by rewrite Hp, Hq.
Qed.

(** [reduce] adds the amounts of the lines, from left to right. *)
Lemma reduceFrom_amounts items : forall sum total,
  Runtime.reduceFrom sum items = Ok total ->
  exists amounts,
    Forall2 amountOf items amounts
    /\ total = fold_left PrimFloat.add amounts sum.
Proof.
  induction items as [| item items IH]; intros sum total; cbn [Runtime.reduceFrom].
  - intros [= <-]. exists []. split; [constructor | reflexivity].
  - destruct (Runtime.lineAmount item) as [amount |] eqn:Hitem;
      [| discriminate]. cbn [bind]. intros Hrest.
    destruct (IH _ _ Hrest) as (amounts & Hall & ->).
    exists (amount :: amounts). split; [| reflexivity].
    constructor; [by apply lineAmount_amountOf | exact Hall].
Qed.

Lemma exactTotal_bound lines :
  (Z.abs (exactTotal lines) <= magnitudeTotal lines)%Z.
Proof.
  unfold exactTotal, magnitudeTotal.
  induction lines as [| line lines IH]; simpl; lia.
Qed.

Lemma magnitudeTotal_nonneg lines : (0 <= magnitudeTotal lines)%Z.
Proof.
  unfold magnitudeTotal. induction lines as [| line lines IH]; simpl; lia.
Qed.

(** On lines that hold integers the additions and the products of [reduce]
    are exact, as long as the magnitudes add up to less than 2^53. *)
Lemma reduceFrom_exact items lines :
  Forall2 holdsIntegers items lines ->
  forall sum z,
    isInteger sum z ->
    (Z.abs z + magnitudeTotal lines < 2 ^ 53)%Z ->
    exists total,
      Runtime.reduceFrom sum items = Ok total
      /\ isInteger total (z + exactTotal lines).
Proof.
  induction 1 as [| item line items lines Hline _ IH]; intros sum z Hsum Hz.
  - exists sum. split; [reflexivity |].
    unfold exactTotal. simpl. by rewrite Z.add_0_r.
  - destruct Hline as (Hnull & price & quantity & Hp & Hq & Hpi & Hqi).
    pose proof (magnitudeTotal_nonneg lines) as Hrest.
    unfold magnitudeTotal in Hz, Hrest. cbn [map fold_right] in Hz.
    fold (magnitudeTotal lines) in Hz, Hrest.
    assert (Hitem : Runtime.lineAmount item = Ok (price * quantity)%float).
    { apply lineAmount_amountOf. split; [done |]. by eexists _, _. }
    cbn [Runtime.reduceFrom]. rewrite Hitem. cbn [bind].
    pose proof (mul_exact price quantity _ _ Hpi Hqi ltac:(lia)) as Hamount.
    pose proof (add_exact sum (price * quantity)%float _ _ Hsum Hamount
                  ltac:(lia) ltac:(lia) ltac:(lia)) as Hnext.
    destruct (IH _ _ Hnext ltac:(lia)) as (total & Htotal & Hint).
    exists total. split; [exact Htotal |].
    unfold exactTotal in *. cbn [map fold_right].
    by rewrite Z.add_assoc.
Qed.

(** The order of a result: what [comparAndMark] answered on the results of
    the extraction, with the total that [reduce] finds. *)
Lemma processSingleCode_order world code now result log order :
  Runtime.processSingleCode world code now = (Ok result, log) ->
  Runtime.r_order result = Some order ->
  exists names comparison,
    Runtime.readdir world code = Ok names
    /\ Runtime.comparAndMark
         (Runtime.processFiles world
            (map (λ f, ProcessBatch.codeDirOf code +:+ "/" +:+ f) names))
       = Ok comparison
    /\ Runtime.c_items comparison = Some (JArray (Runtime.po_items order))
    /\ Runtime.reduceFrom 0%float (Runtime.po_items order)
       = Ok (Runtime.po_total_orden order)
    /\ order
       = Runtime.mkOrder code (Runtime.c_marca comparison)
           (Runtime.po_items order) (Runtime.po_total_orden order) now
           (Runtime.c_confidence comparison)
           (Runtime.c_filesProcessed comparison)
    /\ result = Runtime.mkCodeResult true (Some order) None.
Proof.
  unfold Runtime.processSingleCode.
  destruct (Runtime.tryProcess world code now) as [[r | e] l] eqn:Htry;
    cbn [fst snd].
  2:{ destruct (Runtime.existsDir world code);
        [destruct (Runtime.rmSync world code) |]; by intros [= <- <-]. }
  intros [= <- <-]. revert Htry. unfold Runtime.tryProcess.
  destruct (Runtime.runScraper world code) as [stderr message | stdout | sr];
    [done | done |].
  destruct (ProcessBatch.sr_success sr); cbn [negb];
    [| by intros [= <- _]].
  destruct (Runtime.existsDir world code); cbn [negb];
    [| by intros [= <- _]].
  destruct (Runtime.readdir world code) as [names | e] eqn:Hnames; [| done].
  cbv zeta.
  destruct (length _ =? 0)%nat; [by intros [= <- _] |].
  destruct (Runtime.buildOrder _ _ _ _) as [built | e] eqn:Hbuild; [| done].
  intros [= <- _] [= <-]. revert Hbuild. unfold Runtime.buildOrder.
  destruct (Runtime.comparAndMark _) as [comparison | e] eqn:Hcompare;
    cbn [bind]; [| done].
  unfold Runtime.orderTotal.
  destruct (Runtime.c_items comparison) as [[| | | | elements |] |] eqn:Hitems;
    cbn [bind]; try done.
  destruct (Runtime.reduceFrom 0 elements) as [total | e] eqn:Htotal;
    cbn [bind fst snd]; [| done].
  destruct (Runtime.rmSync world code) as [[] | e]; cbn [bind]; [| done].
  intros [= <-]. cbn [Runtime.po_items Runtime.po_total_orden].
  exists names, comparison. split_and!; done.
Qed.

(** C7, as stated, fails: for a line of 3 units at 9007199254740991 the
    order holds the total 27021597764222972, one less than the product, which
    no double holds. *)
Lemma C7_total_is_rounded :
  let item := lineOf "Servicio" 3 9007199254740991 in
  exists order log,
    Runtime.processSingleCode (oneFile [item]) "3506-434-SE25"
                              "2025-12-15T10:00:00Z"
    = (Ok (Runtime.mkCodeResult true (Some order) None), log)
    /\ Runtime.po_items order = [item]
    /\ holdsIntegers item (9007199254740991, 3)%Z
    /\ integerOf (Runtime.po_total_orden order) = Some 27021597764222972%Z
    /\ (27021597764222972 <> 9007199254740991 * 3)%Z.
Proof.
  intros item. eexists _, _. split; [vm_compute; reflexivity |].
  split_and!.
  - reflexivity.
  - split; [done |]. eexists _, _. split_and!; by vm_compute.
  - by vm_compute.
  - lia.
Qed.

(** C7, amended: the total of every order [processSingleCode] produces is
    recomputed from the items of that order: the sum from left to right,
    from 0, of the products of price and quantity, each product and each
    addition rounded to a double. When the prices and the quantities are
    integers and the magnitudes of the products add up to less than 2^53,
    nothing is rounded and the total is the sum of price times quantity.
    The result is the same whatever totals the extraction results
    report. *)
Theorem C7_total_is_recomputed
    (world : Runtime.World) (code : string) (now : string) :
  (forall result log order,
     Runtime.processSingleCode world code now = (Ok result, log) ->
     Runtime.r_order result = Some order ->
     (exists amounts,
        Forall2 amountOf (Runtime.po_items order) amounts
        /\ Runtime.po_total_orden order = roundedSum amounts)
     /\ (forall lines,
           Forall2 holdsIntegers (Runtime.po_items order) lines ->
           (magnitudeTotal lines < 2 ^ 53)%Z ->
           integerOf (Runtime.po_total_orden order)
           = Some (exactTotal lines)))
  /\ (forall t : Runtime.FileProcessResult -> option value,
        Runtime.processSingleCode (withReportedTotals t world) code now
        = Runtime.processSingleCode world code now).
Proof.
  split.
  - intros result log order Hrun Horder.
    destruct (processSingleCode_order _ _ _ _ _ _ Hrun Horder)
      as (names & comparison & _ & _ & _ & Htotal & _).
    split.
    + by apply reduceFrom_amounts in Htotal.
    + intros lines Hlines Hsize.
      pose proof (magnitudeTotal_nonneg lines) as Hnonneg.
      pose proof (exactTotal_bound lines) as Hbound.
      destruct (reduceFrom_exact _ _ Hlines 0%float 0%Z) as (total & Ht & Hint).
      * by exists false.
      * simpl. lia.
      * rewrite Ht in Htotal. injection Htotal as <-.
        apply isInteger_integerOf; [lia | exact Hint].
  - intros t. unfold Runtime.processSingleCode, Runtime.tryProcess,
      Runtime.buildOrder, withReportedTotals.
    simpl. destruct (Runtime.readdir world code); [| reflexivity].
    by rewrite comparAndMark_reporting.
Qed.

End OrderTotal.

(* ====================================================================== *)
(** * Facts: the processed store *)
(* ====================================================================== *)

Section ProcessedStore.
Import Js GeminiProcessor DataManager Props.

Lemma existsb_code code (l : list ProcessedOrder) :
  existsb (λ o, bool_decide (po_code o = code)) l = true
  <-> is_Some (list_find (λ o, po_code o = code) l).
Proof.
  rewrite existsb_exists. split.
  - intros (o & Hin & Ho). apply bool_decide_eq_true in Ho.
    eapply list_find_elem_of; [apply list_elem_of_In, Hin | done].
  - intros [[i o] (Hi & Ho & _)%list_find_Some]. exists o. split.
    + apply list_elem_of_In. by eapply list_elem_of_lookup_2.
    + by apply bool_decide_eq_true.
Qed.

Lemma storedFor_saved disk data now code :
  storedFor (saveProcessed disk data now) code
  = snd <$> list_find (λ o, po_code o = code) (orders data).
Proof. reflexivity. Qed.

Lemma storedFor_loaded disk now data code o :
  loadProcessed disk now = Ok data ->
  storedFor disk code = Some o ->
  snd <$> list_find (λ o, po_code o = code) (orders data) = Some o.
Proof.
  unfold loadProcessed, storedFor.
  destruct (processedFile disk); intros [= <-]; try discriminate. done.
Qed.

Lemma find_app_kept code (l extra : list ProcessedOrder) o :
  snd <$> list_find (λ o, po_code o = code) l = Some o ->
  snd <$> list_find (λ o, po_code o = code) (l ++ extra) = Some o.
Proof.
  destruct (list_find _ l) as [[i x] |] eqn:Hfind; [| discriminate].
  intros [= <-]. by rewrite (list_find_app_l _ _ _ _ _ Hfind).
Qed.

(** C8, as stated, fails: an order written for a code that already has a
    record leaves the old record in the store. *)
Lemma C8_old_record_kept :
  let old := {| po_code := "3506-434-SE25"; po_marca := falta_datos;
                po_items := []; po_total_orden := Some 0%Z;
                processedAt := "2025-12-15T10:30:00Z";
                po_confidence := baja; po_filesProcessed := 1 |} in
  let new := {| po_code := "3506-434-SE25"; po_marca := sobreprecio;
                po_items := [mkItem "Equipo de computo" 1 15042016];
                po_total_orden := Some 15042016%Z;
                processedAt := "2025-12-16T10:30:00Z";
                po_confidence := alta; po_filesProcessed := 3 |} in
  let disk := {| pendingFile := Absent;
                 processedFile :=
                   Stored {| orders := [old]; totalProcessed := 1;
                             o_lastUpdated := "2025-12-15T10:30:00Z" |};
                 failedFile := Absent |} in
  ~ (forall disk', addProcessedOrder disk new "2025-12-16T10:30:00Z"
                   = Ok disk' ->
                   storedFor disk' "3506-434-SE25" = Some new)
  /\ ~ (forall disk', addProcessedOrders disk [new] "2025-12-16T10:30:00Z"
                      = Ok disk' ->
                      storedFor disk' "3506-434-SE25" = Some new).
Proof.
  intros old new disk. split; intros H.
  - specialize (H disk eq_refl). vm_compute in H. discriminate.
  - specialize (H _ eq_refl). vm_compute in H. discriminate.
Qed.

(** C8, amended: the first record written for a code stays. Writing an order
    for a code that has a record changes nothing on disk
    ([addProcessedOrder]) or leaves out that order ([addProcessedOrders]); in
    both, every record stored before is still the stored one after. An order
    for a code without a record is appended and becomes its record. *)
Theorem C8_first_record_stays
    (disk : Disk) (now : string) (data : ProcessedData) :
  loadProcessed disk now = Ok data ->
  (forall order,
     (is_Some (storedFor disk (po_code order)) ->
        addProcessedOrder disk order now = Ok disk)
     /\ (storedFor disk (po_code order) = None ->
           exists disk',
             addProcessedOrder disk order now = Ok disk'
             /\ processedFile disk'
                = Stored {| orders := orders data ++ [order];
                            totalProcessed :=
                              Z.of_nat (length (orders data ++ [order]));
                            o_lastUpdated := now |}
             /\ storedFor disk' (po_code order) = Some order)
     /\ (forall disk' code o,
           addProcessedOrder disk order now = Ok disk' ->
           storedFor disk code = Some o -> storedFor disk' code = Some o))
  /\ (forall new,
        exists disk',
          addProcessedOrders disk new now = Ok disk'
          /\ processedFile disk'
             = Stored
                 {| orders :=
                      orders data
                      ++ filter (λ o, po_code o ∉ map po_code (orders data))
                                new;
                    totalProcessed :=
                      Z.of_nat
                        (length
                           (orders data
                            ++ filter
                                 (λ o, po_code o ∉ map po_code (orders data))
                                 new));
                    o_lastUpdated := now |}
          /\ (forall code o,
                storedFor disk code = Some o ->
                storedFor disk' code = Some o)).
Proof.
  intros Hload.
  assert (Hstored : forall code,
            storedFor disk code
            = snd <$> list_find (λ o, po_code o = code) (orders data)).
  { intros code. revert Hload. unfold loadProcessed, storedFor.
    destruct (processedFile disk); intros [= <-]; done. }
  split.
  - intros order. split_and!.
    + intros Hsome. unfold addProcessedOrder. rewrite Hload. simpl.
      rewrite Hstored in Hsome. apply fmap_is_Some in Hsome.
      apply existsb_code in Hsome. by rewrite Hsome.
    + intros Hnone. unfold addProcessedOrder. rewrite Hload. simpl.
      rewrite Hstored in Hnone. apply fmap_None in Hnone.
      assert (He : existsb (λ o, bool_decide (po_code o = po_code order))
                     (orders data) = false).
      { apply not_true_is_false. intros He%existsb_code.
        rewrite Hnone in He. by destruct He. }
      rewrite He. simpl. eexists. split; [reflexivity |].
      split; [reflexivity |].
      rewrite storedFor_saved. simpl.
      rewrite list_find_app_r by done. simpl.
      by rewrite decide_True.
    + intros disk' code o. unfold addProcessedOrder. rewrite Hload. simpl.
      destruct (negb _); intros [= <-]; [| done].
      rewrite Hstored, storedFor_saved. simpl. apply find_app_kept.
  - intros new. unfold addProcessedOrders. rewrite Hload. simpl.
    assert (Hf : filter (λ o, po_code o ∉
                   (list_to_set (map po_code (orders data)) : gset string))
                   new
                 = filter (λ o, po_code o ∉ map po_code (orders data)) new).
    { apply list_filter_iff. intros o. by rewrite elem_of_list_to_set. }
    rewrite Hf. eexists. split; [reflexivity |]. split; [reflexivity |].
    intros code o. rewrite Hstored, storedFor_saved. simpl.
    apply find_app_kept.
Qed.

(** C8 at a concrete store: the second write for a code changes nothing. *)
Lemma C8_first_record_stays_witness :
  let old := {| po_code := "3506-434-SE25"; po_marca := falta_datos;
                po_items := []; po_total_orden := Some 0%Z;
                processedAt := "2025-12-15T10:30:00Z";
                po_confidence := baja; po_filesProcessed := 1 |} in
  let new := {| po_code := "3506-434-SE25"; po_marca := sobreprecio;
                po_items := [mkItem "Equipo de computo" 1 15042016];
                po_total_orden := Some 15042016%Z;
                processedAt := "2025-12-16T10:30:00Z";
                po_confidence := alta; po_filesProcessed := 3 |} in
  let data := {| orders := [old]; totalProcessed := 1;
                 o_lastUpdated := "2025-12-15T10:30:00Z" |} in
  let disk := {| pendingFile := Absent; processedFile := Stored data;
                 failedFile := Absent |} in
  addProcessedOrder disk new "2025-12-16T10:30:00Z" = Ok disk.
Proof.
  intros old new data disk.
  apply (C8_first_record_stays disk "2025-12-16T10:30:00Z" data eq_refl).
  vm_compute. eauto.
Defined.

End ProcessedStore.

(* ====================================================================== *)
(** * Facts: loading the stores *)
(* ====================================================================== *)

Section Loading.
Import Js.

(** The loaders of scraper-utils.ts never throw: they return a value and a
    log, and an unparsable file gives the empty default and one warning. *)
Lemma scraper_loaders_fall_back (text now : string) :
  ScraperUtils.loadScrapedCodesRegistry (Unparsable text) now
  = (ScraperUtils.emptyRegistry now,
     [(Warn, "Failed to load scraped codes registry:")])
  /\ ScraperUtils.loadCheckpoint (Unparsable text) now
     = (ScraperUtils.emptyCheckpoint now,
        [(Warn, "Failed to load checkpoint, starting fresh:")]).
Proof. split; reflexivity. Qed.

(** The loaders of data-manager.ts give the empty default for a missing
    file only. *)
Lemma batch_loaders_default (now : string) (disk : DataManager.Disk) :
  (DataManager.pendingFile disk = Absent ->
     DataManager.loadPending disk now
     = Ok (DataManager.mkPending [] now 0))
  /\ (DataManager.processedFile disk = Absent ->
        DataManager.loadProcessed disk now
        = Ok (DataManager.mkProcessed [] 0 now))
  /\ (DataManager.failedFile disk = Absent ->
        DataManager.loadFailed disk now
        = Ok (DataManager.mkFailed [] 0 now)).
Proof.
  unfold DataManager.loadPending, DataManager.loadProcessed,
    DataManager.loadFailed.
  split_and!; intros ->; reflexivity.
Qed.

(** C4 holds for the registry and the session checkpoint and fails on the
    three batch files: whatever the unparsable text, the two loaders of
    scraper-utils.ts return the empty default and log one warning, whereas
    each of [loadPending], [loadProcessed] and [loadFailed] throws the error
    of [JSON.parse] instead of returning its empty default, and the batch
    run that starts from an unparsable pending file ends with that error. *)
Theorem C4_batch_loaders_throw
    (text now : string)
    (pending : File DataManager.PendingData)
    (processed : File DataManager.ProcessedData)
    (failed : File DataManager.FailedData)
    (world : ProcessBatch.World) (clock : string -> string)
    (batchSize : Z) :
  (fst (ScraperUtils.loadScrapedCodesRegistry (Unparsable text) now)
   = ScraperUtils.emptyRegistry now
   /\ fst (ScraperUtils.loadCheckpoint (Unparsable text) now)
      = ScraperUtils.emptyCheckpoint now)
  /\ DataManager.loadPending
       (DataManager.mkDisk (Unparsable text) processed failed) now
     = Throw (SyntaxError text)
  /\ DataManager.loadProcessed
       (DataManager.mkDisk pending (Unparsable text) failed) now
     = Throw (SyntaxError text)
  /\ DataManager.loadFailed
       (DataManager.mkDisk pending processed (Unparsable text)) now
     = Throw (SyntaxError text)
  /\ ProcessBatch.main world clock batchSize now
       (DataManager.mkDisk (Unparsable text) processed failed)
     = Throw (SyntaxError text).
Proof.
  split; [apply conj; reflexivity |].
  unfold ProcessBatch.main, DataManager.getPendingBatch,
    DataManager.loadPending, DataManager.loadProcessed,
    DataManager.loadFailed.
  simpl. split_and!; reflexivity.
Qed.

End Loading.

(* ====================================================================== *)
(** * Facts: the statistics *)
(* ====================================================================== *)

Section Statistics.
Import Js DataManager Props.

(** C10: [getStats] computes the completion as processed / total * 100 with
    no test on the divisor, and there are reachable stores (the fresh one,
    and the one where an empty pending list has been saved) whose three
    totals are 0, where the division is 0 / 0 and the completion is NaN. *)
Theorem C10_completion_unguarded :
  (forall disk now stats,
     getStats disk now = Ok stats ->
     s_total stats = (s_pending stats + s_processed stats + s_failed stats)%Z
     /\ s_completion stats
        = PrimFloat.mul
            (PrimFloat.div (toDouble (s_processed stats))
                           (toDouble (s_total stats)))
            100%float)
  /\ (forall now,
        reachable emptyDisk
        /\ exists stats,
             getStats emptyDisk now = Ok stats
             /\ s_total stats = 0%Z
             /\ PrimFloat.is_nan (s_completion stats) = true)
  /\ (forall now,
        exists disk stats,
          reachable disk /\ disk <> emptyDisk
          /\ getStats disk now = Ok stats
          /\ s_total stats = 0%Z
          /\ PrimFloat.is_nan (s_completion stats) = true).
Proof.
  split_and!.
  - intros disk now stats. unfold getStats.
    destruct (loadPending disk now) as [pending | e]; [| discriminate].
    destruct (loadProcessed disk now) as [processed | e]; [| discriminate].
    destruct (loadFailed disk now) as [failed | e]; [| discriminate].
    simpl. intros [= <-]. simpl. auto.
  - intros now. split; [constructor |].
    eexists. split; [reflexivity |]. split; vm_compute; reflexivity.
  - intros now.
    exists (savePending emptyDisk (mkPending [] now 0) now).
    eexists. split_and!.
    + apply reach_savePending, reach_empty.
    + discriminate.
    + reflexivity.
    + reflexivity.
    + vm_compute. reflexivity.
Qed.

End Statistics.

(* ====================================================================== *)
(** * Facts: the fetcher and the session of scrape-documents.ts *)
(* ====================================================================== *)

Section Fetcher.
Import Js ScraperUtils ScrapeDocuments Props.

Lemma processCode_retries browser code attempt errorMessage :
  browser code attempt = Raised errorMessage ->
  (attempt < MAX_RETRIES)%nat ->
  processCode browser code attempt
  = (fst (processCode browser code (attempt + 1)),
     Log (Warn, "Attempt " +:+ pretty attempt +:+ " failed for " +:+
                code +:+ ", retrying in " +:+
                pretty (exponentialBackoff attempt RETRY_BASE_DELAY) +:+
                "ms...")
     :: Sleep (exponentialBackoff attempt RETRY_BASE_DELAY)
     :: snd (processCode browser code (attempt + 1))).
Proof.
  intros Hb Hlt. rewrite processCode_equation_1, Hb.
  rewrite processCode_clause_1_equation_4.
  destruct (lt_dec attempt MAX_RETRIES) as [l | n]; [| contradiction].
  by rewrite processCode_clause_1_clause_4_equation_1.
Qed.

Lemma processCode_gives_up browser code attempt errorMessage :
  browser code attempt = Raised errorMessage ->
  ~ (attempt < MAX_RETRIES)%nat ->
  processCode browser code attempt
  = ({| dr_code := code; dr_success := false; dr_pdfCount := 0;
        dr_error := Some ("Failed after 3 attempts: " +:+ errorMessage);
        dr_directory := None |}, []).
Proof.
  intros Hb Hge. rewrite processCode_equation_1, Hb.
  rewrite processCode_clause_1_equation_4.
  destruct (lt_dec attempt MAX_RETRIES) as [l | n]; [contradiction |].
  by rewrite processCode_clause_1_clause_4_equation_2.
Qed.

(** [processCode] logs warnings only. *)
Lemma processCode_logs_no_error browser code attempt :
  Forall (λ x, logged_error x = false)
         (snd (processCode browser code attempt)).
Proof.
  funelim (processCode browser code attempt); simpl; try constructor.
  - reflexivity.
  - constructor; [reflexivity |]. assumption.
Qed.

(** Three failed attempts in a row, started at attempt 1. *)
Lemma processCode_three_failures browser code m1 m2 m3 :
  browser code 1%nat = Raised m1 ->
  browser code 2%nat = Raised m2 ->
  browser code 3%nat = Raised m3 ->
  processCode browser code 1
  = ({| dr_code := code; dr_success := false; dr_pdfCount := 0;
        dr_error := Some ("Failed after 3 attempts: " +:+ m3);
        dr_directory := None |},
     [Log (Warn, "Attempt 1 failed for " +:+ code +:+
                 ", retrying in 4000ms...");
      Sleep 4000;
      Log (Warn, "Attempt 2 failed for " +:+ code +:+
                 ", retrying in 8000ms...");
      Sleep 8000]).
Proof.
  intros H1 H2 H3.
  rewrite (processCode_retries _ _ 1 m1 H1) by (unfold MAX_RETRIES; lia).
  change (1 + 1)%nat with 2%nat.
  rewrite (processCode_retries _ _ 2 m2 H2) by (unfold MAX_RETRIES; lia).
  change (2 + 1)%nat with 3%nat.
  rewrite (processCode_gives_up _ _ 3 m3 H3) by (unfold MAX_RETRIES; lia).
  reflexivity.
Qed.

(** What [runTask] does to the session when the code is not skipped. *)
Lemma runTask_not_skipped args browser clock total st code :
  skipped args st code = false ->
  let run := processCode browser code 1 in
  let cp0 := if fresh args then checkpoint st
             else snd (isProcessed (checkpoint st) code) in
  runTask args browser clock total st code
  = recordResult total (clock code)
      {| checkpoint := cp0; registry := registry st;
         processedCount := processedCount st;
         succeededCount := succeededCount st;
         failedCount := failedCount st;
         checkpointFile := checkpointFile st;
         registryFile := registryFile st;
         results := results st; trace := trace st |}
      code (fst run) (snd run).
Proof.
  unfold skipped, runTask. intros Hs.
  destruct (fresh args); simpl in *; [reflexivity |].
  by rewrite Hs.
Qed.

Lemma recordResult_failure total now st code result eff :
  dr_success result = false ->
  let st' := recordResult total now st code result eff in
  checkpoint st'
  = markFailed (checkpoint st) code
      (or_else (dr_error result) "Unknown error") 1 now
  /\ codes (registry st') = codes (registry st).
Proof.
  intros Hf. unfold recordResult. rewrite Hf.
  destruct (_ mod 10 =? 0)%nat; simpl; done.
Qed.

Lemma recordResult_success total now st code result eff :
  dr_success result = true ->
  let st' := recordResult total now st code result eff in
  checkpoint st' = markProcessed (checkpoint st) code now
  /\ codes (registry st')
     = codes (addToScrapedRegistry (registry st) code now)
  /\ results st' = results st ++ [Some result]
  /\ trace st'
     = trace st ++ eff ++
       [Log (Info, progressLabel (S (processedCount st)) total code +:+
                   ": " +:+ pretty (dr_pdfCount result) +:+ " PDFs")].
Proof.
  intros Hs. unfold recordResult. rewrite Hs.
  destruct (_ mod 10 =? 0)%nat; simpl; done.
Qed.


End Fetcher.

Section SessionInvariant.
Import Js ScraperUtils ScrapeDocuments Props.

Lemma kept_same s0 s s' :
  cp s' = cp s -> codes (reg s') = codes (reg s) -> kept s0 s -> kept s0 s'.
Proof. unfold kept. intros -> ->. done. Qed.

Lemma runTask_skipped args browser clock total st code :
  skipped args st code = true ->
  checkpoint (runTask args browser clock total st code)
  = snd (isProcessed (checkpoint st) code)
  /\ registry (runTask args browser clock total st code) = registry st.
Proof.
  unfold skipped, runTask. intros Hs.
  destruct (fresh args); simpl in *; [discriminate |].
  by rewrite Hs.
Qed.

(** Each task of the session acts on the stores as store operations do. *)
Lemma runTask_kept s0 args browser clock total st code :
  kept s0 (storesOf st) ->
  kept s0 (storesOf (runTask args browser clock total st code)).
Proof.
  intros Hk. destruct (skipped args st code) eqn:Hskip.
  - destruct (runTask_skipped args browser clock total st code Hskip)
      as [Hc Hr].
    apply (kept_same s0 (applyOp (storesOf st) (IsProcessed code)));
      [exact Hc | simpl; by rewrite Hr | by apply kept_step].
  - rewrite (runTask_not_skipped _ _ _ _ _ _ Hskip).
    set (cp0 := if fresh args then checkpoint st
                else snd (isProcessed (checkpoint st) code)).
    assert (Hk0 : kept s0 {| cp := cp0; reg := registry st |}).
    { subst cp0. destruct (fresh args); [exact Hk |].
      apply (kept_step s0 (storesOf st) (IsProcessed code) Hk). }
    set (run := processCode browser code 1).
    match goal with
    | |- context [recordResult ?t ?n ?s ?c ?r ?e] =>
        destruct (dr_success r) eqn:Hs;
        [ pose proof (recordResult_success t n s c r e Hs) as Hrec
        | pose proof (recordResult_failure t n s c r e Hs) as Hrec ];
        cbv zeta in Hrec;
        remember (recordResult t n s c r e) as st' eqn:Est; clear Est
    end.
    + destruct Hrec as (Hc & Hr & _). simpl in Hc, Hr.
      apply (kept_same s0
               (applyOp (applyOp {| cp := cp0; reg := registry st |}
                                 (MarkProcessed code (clock code)))
                        (AddToScrapedRegistry code (clock code))));
        [exact Hc | exact Hr | by do 2 apply kept_step].
    + destruct Hrec as (Hc & Hr). simpl in Hc, Hr.
      apply (kept_same s0
               (applyOp {| cp := cp0; reg := registry st |}
                        (MarkFailed code
                           (or_else (dr_error (fst run)) "Unknown error")
                           1 (clock code))));
        [exact Hc | exact Hr | by apply kept_step].
Qed.

(** A whole run keeps what the store operations keep. *)
Lemma runTasks_kept args browser clock todo : forall s0 st,
  kept s0 (storesOf st) ->
  kept s0 (storesOf (runTasks args browser clock st todo)).
Proof.
  unfold runTasks. generalize (length todo) as total.
  induction todo as [| code todo IH]; intros total s0 st Hk; simpl;
    [exact Hk |].
  apply IH. by apply runTask_kept.
Qed.

End SessionInvariant.

Section RetryBound.
Import Js ScraperUtils ScrapeDocuments Props.

(** C3, as stated, fails: after three failed attempts on a code the session
    that started empty holds one failed entry, and its [attempts] is 1. *)
Lemma C3_attempts_is_one :
  let args := {| fresh := true; test := None; retry := false |} in
  let st := runTasks args alwaysTimeout (λ _, "2025-12-15T10:00:00Z")
              (startSession (emptyCheckpoint "2025-12-15T09:00:00Z")
                            (emptyRegistry "2025-12-15T09:00:00Z")
                            Absent Absent)
              ["3506-434-SE25"] in
  failedCodes (checkpoint st)
  = [mkFailedEntry "3506-434-SE25"
       "Failed after 3 attempts: Timeout 60000ms exceeded"
       "2025-12-15T10:00:00Z" 1]
  /\ ~ (exists e, failedCodes (checkpoint st) = [e] /\ fe_attempts e = 3%Z).
Proof.
  intros args st.
  assert (H : failedCodes (checkpoint st)
              = [mkFailedEntry "3506-434-SE25"
                   "Failed after 3 attempts: Timeout 60000ms exceeded"
                   "2025-12-15T10:00:00Z" 1])
    by (vm_compute; reflexivity).
  split; [exact H |]. rewrite H. intros (e & [= <-] & He). discriminate.
Qed.

(** C3, amended: when the three attempts of [processCode] on a code all
    throw, it sleeps [min(2000 * 2^1, 30000)] and [min(2000 * 2^2, 30000)]
    milliseconds between them and returns the failure "Failed after 3
    attempts: ..."; the task then records it with [markFailed] and its
    default of one attempt: a code without a failed entry gets exactly one,
    with [attempts = 1], and a code with an entry has the attempts of that
    entry raised by 1 and gets no second entry. Neither the processed codes
    nor the registry change. *)
Theorem C3_exhausted_retries_recorded
    (args : CliArgs) (browser : Browser) (clock : string -> string)
    (total : nat) (st : Session) (code m1 m2 m3 : string) :
  browser code 1%nat = Raised m1 ->
  browser code 2%nat = Raised m2 ->
  browser code 3%nat = Raised m3 ->
  skipped args st code = false ->
  let error := "Failed after 3 attempts: " +:+ m3 in
  let run := processCode browser code 1 in
  let st' := runTask args browser clock total st code in
  fst run = mkDownloadResult code false 0 (Some error) None
  /\ sleepsOf (snd run)
     = [exponentialBackoff 1 RETRY_BASE_DELAY;
        exponentialBackoff 2 RETRY_BASE_DELAY]
  /\ sleepsOf (snd run) = [Z.min (2000 * 2 ^ 1) 30000;
                           Z.min (2000 * 2 ^ 2) 30000]
  /\ (code ∉ map fe_code (failedCodes (checkpoint st)) ->
        failedCodes (checkpoint st')
        = failedCodes (checkpoint st)
          ++ [mkFailedEntry code error (clock code) 1]
        /\ totalFailed (checkpoint st')
           = (totalFailed (checkpoint st) + 1)%Z)
  /\ (forall i old,
        list_find (λ f, fe_code f = code) (failedCodes (checkpoint st))
        = Some (i, old) ->
        failedCodes (checkpoint st')
        = <[i := mkFailedEntry code error (clock code)
                   (fe_attempts old + 1)]> (failedCodes (checkpoint st))
        /\ totalFailed (checkpoint st') = totalFailed (checkpoint st))
  /\ processedCodes (checkpoint st') = processedCodes (checkpoint st)
  /\ codes (registry st') = codes (registry st).
Proof.
  intros H1 H2 H3 Hskip error run st'.
  assert (Hrun : run = (mkDownloadResult code false 0 (Some error) None,
                        [Log (Warn, "Attempt 1 failed for " +:+ code +:+
                                    ", retrying in 4000ms...");
                         Sleep 4000;
                         Log (Warn, "Attempt 2 failed for " +:+ code +:+
                                    ", retrying in 8000ms...");
                         Sleep 8000]))
    by (by apply (processCode_three_failures browser code m1 m2 m3)).
  set (cp0 := if fresh args then checkpoint st
              else snd (isProcessed (checkpoint st) code)).
  assert (Hcp0 : failedCodes cp0 = failedCodes (checkpoint st)
                 /\ totalFailed cp0 = totalFailed (checkpoint st)
                 /\ processedCodes cp0 = processedCodes (checkpoint st))
    by (subst cp0; destruct (fresh args); done).
  destruct Hcp0 as (Hf0 & Ht0 & Hp0).
  assert (Hst' : checkpoint st' = markFailed cp0 code error 1 (clock code)
                 /\ codes (registry st') = codes (registry st)).
  { subst st'. rewrite (runTask_not_skipped _ _ _ _ _ _ Hskip).
    fold run. rewrite Hrun. simpl fst. simpl snd.
    match goal with
    | |- context [recordResult ?t ?n ?s ?c ?r ?e] =>
        destruct (recordResult_failure t n s c r e eq_refl) as [Hc Hr]
    end.
    split; [exact Hc | exact Hr]. }
  destruct Hst' as [Hc' Hr'].
  split_and!.
  - by rewrite Hrun.
  - by rewrite Hrun.
  - by rewrite Hrun.
  - intros Hnew. rewrite Hc', <- Hf0, <- Ht0. apply markFailed_new.
    apply list_find_None, Forall_forall. intros f Hin Hcode.
    apply Hnew. rewrite <- Hf0. change (map fe_code ?l) with (fe_code <$> l).
    apply list_elem_of_fmap. eauto.
  - intros i old Hfind. rewrite Hc', <- Hf0, <- Ht0.
    apply markFailed_existing. by rewrite Hf0.
  - rewrite Hc', <- Hp0. apply markFailed_processed.
  - exact Hr'.
Qed.

(** C3 on the browser where every attempt times out, from the empty
    session. *)
Lemma C3_exhausted_retries_witness :
  let args := {| fresh := true; test := None; retry := false |} in
  let st := startSession (emptyCheckpoint "2025-12-15T09:00:00Z")
                         (emptyRegistry "2025-12-15T09:00:00Z")
                         Absent Absent in
  sleepsOf (snd (processCode alwaysTimeout "3506-434-SE25" 1))
  = [4000%Z; 8000%Z].
Proof.
  intros args st.
  exact (proj1 (proj2 (proj2
    (C3_exhausted_retries_recorded args alwaysTimeout
       (λ _, "2025-12-15T10:00:00Z") 1 st "3506-434-SE25"
       "Timeout 60000ms exceeded" "Timeout 60000ms exceeded"
       "Timeout 60000ms exceeded" eq_refl eq_refl eq_refl eq_refl)))).
Defined.

End RetryBound.

(* ====================================================================== *)
(** * Facts: a fetch that succeeds with no document *)
(* ====================================================================== *)

Section ZeroDocuments.
Import Js ScraperUtils GeminiProcessor DataManager Props.





End ZeroDocuments.

(* ====================================================================== *)
(** * Worked cases *)
(* ====================================================================== *)

Section WorkedCases.
Import Js GeminiProcessor DataManager Props.

Example agree_on_one_item :
  comparAndMark [extracted [laptop]; extracted [laptop]; extracted [laptop]]
  = mkComparison sobreprecio alta [laptop] 3.
Proof. vm_compute. reflexivity. Qed.

Example agree_on_two_items :
  comparAndMark [extracted [laptop; mouse]; extracted [laptop; mouse];
                 extracted [laptop; mouse]]
  = mkComparison normal alta [laptop; mouse] 3.
Proof. vm_compute. reflexivity. Qed.

Example eight_of_ten_disagree :
  comparAndMark (replicate 7 (extracted [laptop]) ++ [extracted [mouse]]
                 ++ replicate 2 illegible)
  = mkComparison falta_datos media [laptop] 8.
Proof. vm_compute. reflexivity. Qed.

Example five_of_ten_disagree :
  comparAndMark (replicate 4 (extracted [laptop]) ++ [extracted [mouse]]
                 ++ replicate 5 illegible)
  = mkComparison falta_datos baja [laptop] 5.
Proof. vm_compute. reflexivity. Qed.

Example none_successful :
  comparAndMark [illegible; illegible] = mkComparison falta_datos baja [] 0.
Proof. vm_compute. reflexivity. Qed.

(** Agreement on the empty item list falls in the last branch. *)
Example agree_on_no_item :
  comparAndMark [extracted []; extracted []]
  = mkComparison normal alta [] 2.
Proof. vm_compute. reflexivity. Qed.

Example sameJson_sample :
  sameJson [laptop; mouse] [laptop; mouse] = true
  /\ sameJson [laptop; mouse] [mouse; laptop] = false
  /\ sameJson [laptop] [mkItem "Laptop" 1 500001] = false.
Proof. vm_compute. auto. Qed.

Example batch_order_total :
  fst (ProcessBatch.processSingleCode threeAgreeingFiles "3506-434-SE25"
         "2025-12-15T10:30:00Z")
  = ProcessBatch.mkCodeResult true
      (Some (mkOrder "3506-434-SE25" sobreprecio [laptop] (Some 500000%Z)
                     "2025-12-15T10:30:00Z" alta 3))
      None.
Proof. vm_compute. reflexivity. Qed.

(** A session of scrape-documents.ts over four rows: one invalid code, one
    code twice, one code that times out. *)
Example session_sample :
  let st := ScrapeDocuments.main
              (ScrapeDocuments.mkCliArgs false None false)
              [purchase " 3506-434-SE25 "; purchase "not-a-code";
               purchase "2564-169-SE25"; purchase "3506-434-SE25"]
              mixedBrowser (λ _, "2025-12-15T10:00:00Z")
              "2025-12-15T09:00:00Z" Absent (Unparsable "{") in
  ScraperUtils.codes (ScrapeDocuments.registry st) = ["3506-434-SE25"]
  /\ ScraperUtils.processedCodes (ScrapeDocuments.checkpoint st)
     = ["3506-434-SE25"]
  /\ ScraperUtils.failedCodes (ScrapeDocuments.checkpoint st)
     = [ScraperUtils.mkFailedEntry "2564-169-SE25"
          "Failed after 3 attempts: Timeout 60000ms exceeded"
          "2025-12-15T10:00:00Z" 1]
  /\ map ScraperUtils.dr_code (ScrapeDocuments.manifestOf st)
     = ["3506-434-SE25"]
  /\ sleepsOf (ScrapeDocuments.trace st) = [4000; 8000]%Z.
Proof. vm_compute. auto 6. Qed.

Example backoff_delays :
  map (λ attempt, ScraperUtils.exponentialBackoff attempt 2000)
      [1; 2; 3; 4; 5]%nat
  = [4000; 8000; 16000; 30000; 30000]%Z.
Proof. reflexivity. Qed.

End WorkedCases.

(* ====================================================================== *)
(** * Facts: the retry discipline of the fetcher *)
(* ====================================================================== *)

Section RetryDiscipline.
Import Js ScraperUtils ScrapeDocuments Props.

Lemma processCode_code browser code attempt :
  dr_code (fst (processCode browser code attempt)) = code.
Proof. funelim (processCode browser code attempt); simpl; done. Qed.

Lemma processCode_shape browser code attempt :
  let r := fst (processCode browser code attempt) in
  if dr_success r
  then dr_error r = None /\ dr_directory r = Some (getCodeDirectory code)
  else dr_pdfCount r = 0%nat /\ is_Some (dr_error r)
       /\ dr_directory r = None.
Proof.
  funelim (processCode browser code attempt); simpl; try done.
Qed.

Lemma processCode_sleeps browser code attempt :
  sleepsOf (snd (processCode browser code attempt))
  `prefix_of` map (λ k, exponentialBackoff k RETRY_BASE_DELAY)
                  (seq attempt (MAX_RETRIES - attempt)).
Proof.
  funelim (processCode browser code attempt); simpl;
    try apply prefix_nil.
  replace (MAX_RETRIES - attempt)%nat
    with (S (MAX_RETRIES - (attempt + 1)))%nat by lia.
  simpl. apply prefix_cons.
  replace (S attempt) with (attempt + 1)%nat by lia. exact H.
Qed.

(** X2: For a base delay of at least 1 ms that a double holds exactly, the
    delay of [exponentialBackoff] lies above 0 and at most at 30000 ms, does
    not decrease with the attempt number, and once at the cap stays there.
    On these arguments the product of the source is exact or overflows to
    [Infinity], which [Math.min] caps like any value above 30000, so the
    integer computed here is the number the source returns; a base of 0
    makes the source answer [NaN] from attempt 1024 on, and is left out. *)
Theorem exponentialBackoff_capped_monotone (attempt : nat) (base : Z) :
  (0 < base <= 2 ^ 53)%Z ->
  (0 < exponentialBackoff attempt base <= 30000)%Z
  /\ (exponentialBackoff attempt base
      <= exponentialBackoff (S attempt) base)%Z
  /\ (forall k, (attempt <= k)%nat ->
        exponentialBackoff attempt base = 30000%Z ->
        exponentialBackoff k base = 30000%Z).
Proof.
  intros [Hb _]. unfold exponentialBackoff.
  assert (Hpow : forall a b : nat, (a <= b)%nat ->
            (base * 2 ^ Z.of_nat a <= base * 2 ^ Z.of_nat b)%Z).
  { intros a b Hab. apply Z.mul_le_mono_nonneg_l; [lia |].
    apply Z.pow_le_mono_r; lia. }
  assert (H0 : (0 < base * 2 ^ Z.of_nat attempt)%Z)
    by (apply Z.mul_pos_pos; [exact Hb | apply Z.pow_pos_nonneg; lia]).
  split_and!.
  - lia.
  - lia.
  - pose proof (Hpow attempt (S attempt)). lia.
  - intros k Hk Hcap. pose proof (Hpow attempt k Hk). lia.
Qed.

Lemma exponentialBackoff_capped_monotone_witness :
  (0 < exponentialBackoff 4 RETRY_BASE_DELAY <= 30000)%Z
  /\ exponentialBackoff 9 RETRY_BASE_DELAY = 30000%Z.
Proof.
  pose proof (exponentialBackoff_capped_monotone 4 RETRY_BASE_DELAY
                ltac:(unfold RETRY_BASE_DELAY; lia)) as (Hr & _ & Hk).
  split; [exact Hr |]. apply Hk; [lia | reflexivity].
Defined.

End RetryDiscipline.

(* ====================================================================== *)
(** * Facts: what a session of scrape-documents.ts does with its codes *)
(* ====================================================================== *)

Section SessionAccounting.
Import Js ScraperUtils ScrapeDocuments Props.

Lemma recordResult_fields total now st code result eff :
  let st' := recordResult total now st code result eff in
  results st' = results st ++ [Some result]
  /\ processedCount st' = S (processedCount st)
  /\ succeededCount st'
     = (if dr_success result then S (succeededCount st)
        else succeededCount st)
  /\ failedCount st'
     = (if dr_success result then failedCount st else S (failedCount st)).
Proof.
  unfold recordResult.
  destruct (dr_success result), (_ mod 10 =? 0)%nat; simpl; done.
Qed.

(** The three ways a task ends: skipped, recorded as a success, recorded as
    a failure. *)
Lemma runTask_cases args browser clock total st code :
  let st' := runTask args browser clock total st code in
  let result := fst (processCode browser code 1) in
  let cp0 := if fresh args then checkpoint st
             else snd (isProcessed (checkpoint st) code) in
  (skipped args st code = true
   /\ checkpoint st' = snd (isProcessed (checkpoint st) code)
   /\ codes (registry st') = codes (registry st)
   /\ results st' = results st ++ [None]
   /\ succeededCount st' = succeededCount st
   /\ failedCount st' = failedCount st)
  \/ (skipped args st code = false
      /\ dr_success result = true
      /\ checkpoint st' = markProcessed cp0 code (clock code)
      /\ codes (registry st')
         = codes (addToScrapedRegistry (registry st) code (clock code))
      /\ results st' = results st ++ [Some result]
      /\ succeededCount st' = S (succeededCount st)
      /\ failedCount st' = failedCount st)
  \/ (skipped args st code = false
      /\ dr_success result = false
      /\ checkpoint st'
         = markFailed cp0 code (or_else (dr_error result) "Unknown error")
             1 (clock code)
      /\ codes (registry st') = codes (registry st)
      /\ results st' = results st ++ [Some result]
      /\ succeededCount st' = succeededCount st
      /\ failedCount st' = S (failedCount st)).
Proof.
  intros st' result cp0.
  destruct (skipped args st code) eqn:Hskip.
  - left. subst st'. revert Hskip. unfold skipped, runTask.
    destruct (fresh args); simpl; [discriminate |].
    intros ->. simpl. done.
  - right. subst st'.
    rewrite (runTask_not_skipped _ _ _ _ _ _ Hskip).
    fold result cp0.
    match goal with
    | |- context [recordResult ?t ?n ?s ?c ?r ?e] =>
        pose proof (recordResult_fields t n s c r e) as Hf;
        destruct (dr_success r) eqn:Hs;
        [ pose proof (recordResult_success t n s c r e Hs) as Hrec
        | pose proof (recordResult_failure t n s c r e Hs) as Hrec ];
        cbv zeta in Hrec, Hf;
        remember (recordResult t n s c r e) as st' eqn:Est; clear Est
    end.
    + left. destruct Hrec as (Hc & Hr & _).
      destruct Hf as (Hres & _ & Hsu & Hfa). simpl in *. done.
    + right. destruct Hrec as (Hc & Hr).
      destruct Hf as (Hres & _ & Hsu & Hfa). simpl in *. done.
Qed.

Lemma elem_of_markProcessed c code now x :
  x ∈ processedCodes (markProcessed c code now) ->
  x ∈ processedCodes c \/ x = code.
Proof.
  unfold markProcessed. case_bool_decide; simpl; [| tauto].
  rewrite elem_of_app, list_elem_of_singleton. tauto.
Qed.

Lemma markProcessed_mono c code now x :
  x ∈ processedCodes c -> x ∈ processedCodes (markProcessed c code now).
Proof.
  unfold markProcessed. case_bool_decide; simpl; [| tauto].
  rewrite elem_of_app. tauto.
Qed.

Lemma elem_of_markFailed_keys c code error attempts now x :
  x ∈ map fe_code (failedCodes (markFailed c code error attempts now))
  <-> x ∈ map fe_code (failedCodes c) \/ x = code.
Proof.
  rewrite markFailed_keys.
  destruct (list_find _ _) as [[i old] |] eqn:Hfind.
  - split; [tauto |]. intros [H | ->]; [exact H |].
    apply list_find_Some in Hfind as (Hi & Hcode & _).
    change (map fe_code ?l) with (fe_code <$> l).
    apply list_elem_of_fmap. exists old. split; [done |].
    by eapply list_elem_of_lookup_2.
  - rewrite elem_of_app, list_elem_of_singleton. tauto.
Qed.

Lemma elem_of_addToScrapedRegistry r code now x :
  x ∈ codes (addToScrapedRegistry r code now) <-> x ∈ codes r \/ x = code.
Proof.
  unfold addToScrapedRegistry, includes.
  case_bool_decide as Hin; simpl.
  - split; [tauto |]. intros [H | ->]; done.
  - rewrite elem_of_app, list_elem_of_singleton. tauto.
Qed.

(** The checkpoint a task works on holds the lists of the checkpoint of the
    session. *)
Lemma task_checkpoint_lists (b : bool) c code :
  let cp0 := if b then c else snd (isProcessed c code) in
  processedCodes cp0 = processedCodes c
  /\ failedCodes cp0 = failedCodes c
  /\ (cacheCoherent c -> cacheCoherent cp0).
Proof.
  destruct b; simpl; [done |]. split_and!; try done.
  intros Hc s [= <-]. simpl. by apply cacheOf_coherent.
Qed.

Lemma runTask_members args browser clock total st code :
  let st' := runTask args browser clock total st code in
  let result := fst (processCode browser code 1) in
  (forall x, x ∈ codes (registry st')
     <-> x ∈ codes (registry st)
         \/ (x = code /\ skipped args st code = false
             /\ dr_success result = true))
  /\ (forall x, x ∈ map fe_code (failedCodes (checkpoint st'))
        <-> x ∈ map fe_code (failedCodes (checkpoint st))
            \/ (x = code /\ skipped args st code = false
                /\ dr_success result = false))
  /\ (forall x, x ∈ processedCodes (checkpoint st') ->
        x ∈ processedCodes (checkpoint st)
        \/ (x = code /\ skipped args st code = false
            /\ dr_success result = true))
  /\ (forall x, x ∈ processedCodes (checkpoint st) ->
        x ∈ processedCodes (checkpoint st'))
  /\ (cacheCoherent (checkpoint st) -> skipped args st code = false ->
      dr_success result = true -> code ∈ processedCodes (checkpoint st')).
Proof.
  intros st' result.
  destruct (task_checkpoint_lists (fresh args) (checkpoint st) code)
    as (Hp0 & Hf0 & Hcoh0).
  destruct (runTask_cases args browser clock total st code)
    as [(Hsk & Hc & Hr & _) | [(Hsk & Hs & Hc & Hr & _)
                              | (Hsk & Hs & Hc & Hr & _)]];
    subst st' result; rewrite Hsk.
  - rewrite Hc, Hr. simpl.
    split_and!; try tauto; intros; try discriminate.
    split; [tauto | intros [H | (_ & [=] & _)]; exact H].
    split; [tauto | intros [H | (_ & [=] & _)]; exact H].
  - rewrite Hc, Hr, Hs. split_and!.
    + intros x. rewrite elem_of_addToScrapedRegistry. tauto.
    + intros x. rewrite markProcessed_failed, Hf0.
      split; [tauto | intros [H | (_ & _ & [=])]; exact H].
    + intros x Hx. apply elem_of_markProcessed in Hx. rewrite Hp0 in Hx.
      tauto.
    + intros x Hx. apply markProcessed_mono. by rewrite Hp0.
    + intros Hcoh _ _. specialize (Hcoh0 Hcoh).
      match goal with
      | |- _ ∈ processedCodes (markProcessed ?c _ _) =>
          destruct (decide (code ∈ processedCodes c)) as [Hin | Hin];
          [ rewrite (proj1 (markProcessed_old c code (clock code)
                              Hcoh0 Hin)); exact Hin
          | rewrite (proj1 (markProcessed_new c code (clock code)
                              Hcoh0 Hin));
            apply elem_of_app; right; apply list_elem_of_here ]
      end.
  - rewrite Hc, Hr, Hs.
    match goal with
    | |- context [markFailed ?c ?k ?e ?a ?n] =>
        destruct (markFailed_processed c k e a n) as [Hp _]
    end.
    split_and!.
    + intros x. split; [tauto | intros [H | (_ & _ & [=])]; exact H].
    + intros x. rewrite elem_of_markFailed_keys, Hf0. tauto.
    + intros x Hx. rewrite Hp, Hp0 in Hx. tauto.
    + intros x Hx. by rewrite Hp, Hp0.
    + intros _ _ [=].
Qed.

Lemma manifestOf_snoc st st' x :
  results st' = results st ++ [x] ->
  manifestOf st'
  = manifestOf st
    ++ match x with
       | Some result => if dr_success result then [result] else []
       | None => []
       end.
Proof.
  unfold manifestOf. intros ->. rewrite omap_app. f_equal.
  destruct x as [result |]; simpl; [| done]. by destruct (dr_success result).
Qed.

(** A task keeps the downloads of the manifest among the codes of the
    registry. *)
Lemma runTask_manifest args browser clock total st code :
  (forall r, r ∈ manifestOf st -> dr_code r ∈ codes (registry st)) ->
  forall r, r ∈ manifestOf (runTask args browser clock total st code) ->
            dr_code r
              ∈ codes (registry (runTask args browser clock total st code)).
Proof.
  intros Hinv r.
  destruct (runTask_members args browser clock total st code)
    as (Hreg & _). cbv zeta in Hreg.
  destruct (runTask_cases args browser clock total st code)
    as [(Hsk & _ & _ & Hres & _) | [(Hsk & Hs & _ & _ & Hres & _)
                                   | (Hsk & Hs & _ & _ & Hres & _)]];
    rewrite (manifestOf_snoc _ _ _ Hres); try rewrite Hs; simpl;
    rewrite ?app_nil_r, ?elem_of_app, ?list_elem_of_singleton;
    rewrite Hreg.
  - auto.
  - intros [Hin | ->]; [auto |]. right. by rewrite processCode_code.
  - auto.
Qed.

Lemma fold_runTask_sound args browser clock total todo : forall st,
  let st' := fold_left (runTask args browser clock total) todo st in
  let succeeds c := dr_success (fst (processCode browser c 1)) in
  (forall c, c ∈ codes (registry st') ->
     c ∈ codes (registry st) \/ (c ∈ todo /\ succeeds c = true))
  /\ (forall c, c ∈ processedCodes (checkpoint st') ->
        c ∈ processedCodes (checkpoint st)
        \/ (c ∈ todo /\ succeeds c = true))
  /\ (forall c, c ∈ map fe_code (failedCodes (checkpoint st')) ->
        c ∈ map fe_code (failedCodes (checkpoint st))
        \/ (c ∈ todo /\ succeeds c = false))
  /\ length (results st') = (length (results st) + length todo)%nat
  /\ ((forall r, r ∈ manifestOf st -> dr_code r ∈ codes (registry st)) ->
      forall r, r ∈ manifestOf st' -> dr_code r ∈ codes (registry st')).
Proof.
  induction todo as [| code todo IH]; intros st; simpl.
  - split_and!; auto.
  - specialize (IH (runTask args browser clock total st code)).
    destruct IH as (Hreg & Hproc & Hfail & Hlen & Hman).
    destruct (runTask_members args browser clock total st code)
      as (Sreg & Sfail & Sproc & _).
    split_and!.
    + intros c Hc. apply Hreg in Hc as [Hc | [Hc Hs]].
      * apply Sreg in Hc as [Hc | (-> & _ & Hs)]; [by left |].
        right. split; [apply list_elem_of_here | exact Hs].
      * right. split; [by apply list_elem_of_further | exact Hs].
    + intros c Hc. apply Hproc in Hc as [Hc | [Hc Hs]].
      * apply Sproc in Hc as [Hc | (-> & _ & Hs)]; [by left |].
        right. split; [apply list_elem_of_here | exact Hs].
      * right. split; [by apply list_elem_of_further | exact Hs].
    + intros c Hc. apply Hfail in Hc as [Hc | [Hc Hs]].
      * apply Sfail in Hc as [Hc | (-> & _ & Hs)]; [by left |].
        right. split; [apply list_elem_of_here | exact Hs].
      * right. split; [by apply list_elem_of_further | exact Hs].
    + rewrite Hlen.
      destruct (runTask_cases args browser clock total st code)
        as [(_ & _ & _ & Hres & _) | [(_ & _ & _ & _ & Hres & _)
                                     | (_ & _ & _ & _ & Hres & _)]];
        rewrite Hres, length_app; simpl; lia.
    + intros Hinv. apply Hman. by apply runTask_manifest.
Qed.

(** X3: In any mode, a run enters nothing into the stores but the codes it was
    given, each according to the result of its fetch; it answers once for
    each code, and the downloads of its manifest are of codes that the
    registry holds. *)
Theorem runTasks_sound (args : CliArgs) (browser : Browser)
    (clock : string -> string) (st : Session) (todo : list string) :
  let st' := runTasks args browser clock st todo in
  let succeeds c := dr_success (fst (processCode browser c 1)) in
  (forall c, c ∈ codes (registry st') ->
     c ∈ codes (registry st) \/ (c ∈ todo /\ succeeds c = true))
  /\ (forall c, c ∈ processedCodes (checkpoint st') ->
        c ∈ processedCodes (checkpoint st)
        \/ (c ∈ todo /\ succeeds c = true))
  /\ (forall c, c ∈ map fe_code (failedCodes (checkpoint st')) ->
        c ∈ map fe_code (failedCodes (checkpoint st))
        \/ (c ∈ todo /\ succeeds c = false))
  /\ length (results st') = (length (results st) + length todo)%nat
  /\ ((forall r, r ∈ manifestOf st -> dr_code r ∈ codes (registry st)) ->
      forall r, r ∈ manifestOf st' -> dr_code r ∈ codes (registry st')).
Proof. exact (fold_runTask_sound args browser clock (length todo) todo st). Qed.

Lemma runTask_coherent args browser clock total st code :
  cacheCoherent (checkpoint st) ->
  cacheCoherent (checkpoint (runTask args browser clock total st code)).
Proof.
  intros Hcoh.
  destruct (task_checkpoint_lists (fresh args) (checkpoint st) code)
    as (_ & _ & Hcoh0). specialize (Hcoh0 Hcoh).
  destruct (runTask_cases args browser clock total st code)
    as [(_ & -> & _) | [(_ & _ & -> & _) | (_ & _ & -> & _)]].
  - intros s [= <-]. simpl. by apply cacheOf_coherent.
  - by apply markProcessed_coherent.
  - match goal with
    | |- context [markFailed ?c ?k ?e ?a ?n] =>
        destruct (markFailed_processed c k e a n) as [Hp Hs]
    end.
    unfold cacheCoherent. rewrite Hp, Hs. exact Hcoh0.
Qed.

Lemma fold_runTask_mono args browser clock total todo : forall st,
  let st' := fold_left (runTask args browser clock total) todo st in
  (forall c, c ∈ codes (registry st) -> c ∈ codes (registry st'))
  /\ (forall c, c ∈ processedCodes (checkpoint st) ->
        c ∈ processedCodes (checkpoint st'))
  /\ (forall c, c ∈ map fe_code (failedCodes (checkpoint st)) ->
        c ∈ map fe_code (failedCodes (checkpoint st'))).
Proof.
  induction todo as [| code todo IH]; intros st; simpl; [done |].
  specialize (IH (runTask args browser clock total st code)).
  destruct IH as (Hreg & Hproc & Hfail).
  destruct (runTask_members args browser clock total st code)
    as (Sreg & Sfail & _ & Sproc & _).
  split_and!; intros c Hc.
  - apply Hreg, Sreg. by left.
  - by apply Hproc, Sproc.
  - apply Hfail, Sfail. by left.
Qed.

Lemma fresh_not_skipped args st code :
  fresh args = true -> skipped args st code = false.
Proof. unfold skipped. by intros ->. Qed.

(** In a fresh run every code given ends in the stores, on the side that the
    result of its fetch chooses, and is counted once. *)
Lemma fold_runTask_fresh args browser clock total todo :
  fresh args = true -> forall st,
  cacheCoherent (checkpoint st) ->
  let st' := fold_left (runTask args browser clock total) todo st in
  let succeeds c := dr_success (fst (processCode browser c 1)) in
  (forall c, c ∈ todo -> succeeds c = true ->
     c ∈ codes (registry st') /\ c ∈ processedCodes (checkpoint st'))
  /\ (forall c, c ∈ todo -> succeeds c = false ->
        c ∈ map fe_code (failedCodes (checkpoint st')))
  /\ (succeededCount st' + failedCount st'
      = succeededCount st + failedCount st + length todo)%nat.
Proof.
  intros Hfresh. induction todo as [| code todo IH]; intros st Hcoh; simpl.
  - split_and!; [intros c Hc; by apply elem_of_nil in Hc ..| lia].
  - pose proof (fresh_not_skipped args st code Hfresh) as Hsk.
    specialize (IH (runTask args browser clock total st code)
                   (runTask_coherent _ _ _ _ _ _ Hcoh)).
    destruct IH as (Hok & Hko & Hcount).
    destruct (fold_runTask_mono args browser clock total todo
                (runTask args browser clock total st code))
      as (Mreg & Mproc & Mfail).
    destruct (runTask_members args browser clock total st code)
      as (Sreg & Sfail & _ & _ & Sin).
    split_and!.
    + intros c [-> | Hc]%elem_of_cons Hs; [| by apply Hok].
      split; [apply Mreg, Sreg; right; done |].
      apply Mproc. by apply Sin.
    + intros c [-> | Hc]%elem_of_cons Hs; [| by apply Hko].
      apply Mfail, Sfail. right. done.
    + rewrite Hcount.
      destruct (runTask_cases args browser clock total st code)
        as [(Hsk' & _) | [(_ & _ & _ & _ & _ & -> & ->)
                         | (_ & _ & _ & _ & _ & -> & ->)]];
        [congruence | lia | lia].
Qed.

Lemma codesToProcess_new args allCodes registry checkpoint c :
  retry args = false ->
  c ∈ codesToProcess args allCodes registry checkpoint ->
  c ∉ codes registry.
Proof.
  intros Hr. rewrite (codesToProcess_full _ _ _ _ Hr).
  rewrite getNewCodesToScrape_filter. intros Hc.
  assert (Hin : c ∈ filter (λ c, c ∉ codes registry) allCodes).
  { destruct (test args) as [[| n] |]; try exact Hc.
    eapply elem_of_sublist; [exact Hc | apply sublist_take]. }
  by apply list_elem_of_filter in Hin as [Hin _].
Qed.

(** X4: A fresh run of [main], from whatever the two files hold: every code of
    the work set ends on exactly one side, the registry and the processed
    codes when its fetch succeeds, the failed codes when it does not; the two
    counters add up to the size of the work set; and when there was work the
    registry and the checkpoint are saved as they stand at the end. *)
Theorem fresh_session_accounts
    (args : CliArgs) (rows : list Purchase) (browser : Browser)
    (clock : string -> string) (now : string)
    (cf : File Checkpoint) (rf : File ScrapedCodesRegistry) :
  fresh args = true ->
  let registry0 := fst (loadScrapedCodesRegistry rf now) in
  let todo := codesToProcess args (extractUniqueCodes rows) registry0
                (emptyCheckpoint now) in
  let st' := main args rows browser clock now cf rf in
  let succeeds c := dr_success (fst (processCode browser c 1)) in
  (forall c, c ∈ todo -> succeeds c = true ->
     c ∈ codes (registry st') /\ c ∈ processedCodes (checkpoint st')
     /\ c ∉ map fe_code (failedCodes (checkpoint st')))
  /\ (forall c, c ∈ todo -> succeeds c = false ->
        c ∈ map fe_code (failedCodes (checkpoint st'))
        /\ (c ∉ processedCodes (checkpoint st'))
        /\ (c ∉ codes (registry st')))
  /\ succeededCount st' + failedCount st' = length todo
  /\ (todo <> [] ->
        registryFile st' = Stored (registry st')
        /\ checkpointFile st' = saveCheckpoint (checkpoint st')
        /\ totalCount (registry st')
           = Z.of_nat (length (codes (registry st'))))
  /\ (todo = [] -> registryFile st' = rf /\ checkpointFile st' = cf).
Proof.
  intros Hfresh registry0 todo st' succeeds.
  set (st0 := {| checkpoint := emptyCheckpoint now; registry := registry0;
                 processedCount := 0; succeededCount := 0; failedCount := 0;
                 checkpointFile := cf; registryFile := rf; results := [];
                 trace := map Log (snd (loadScrapedCodesRegistry rf now)
                                   ++ []) |}).
  set (run := runTasks args browser clock st0 todo).
  assert (Hmain : st' = if (length todo =? 0)%nat then st0
                        else {| checkpoint := checkpoint run;
                                registry :=
                                  fst (saveScrapedCodesRegistry
                                         (registry run) now);
                                processedCount := processedCount run;
                                succeededCount := succeededCount run;
                                failedCount := failedCount run;
                                checkpointFile :=
                                  saveCheckpoint (checkpoint run);
                                registryFile :=
                                  snd (saveScrapedCodesRegistry
                                         (registry run) now);
                                results := results run;
                                trace := trace run |}).
  { subst st' run st0 todo registry0. unfold main. rewrite Hfresh.
    reflexivity. }
  assert (Hcoh : cacheCoherent (checkpoint st0)) by (intros x; discriminate).
  destruct (fold_runTask_fresh args browser clock (length todo) todo
              Hfresh st0 Hcoh) as (Hok & Hko & Hcount).
  destruct (fold_runTask_sound args browser clock (length todo) todo st0)
    as (Sreg & Sproc & Sfail & _).
  fold (runTasks args browser clock st0 todo) in Hok, Hko, Hcount,
    Sreg, Sproc, Sfail.
  fold run in Hok, Hko, Hcount, Sreg, Sproc, Sfail.
  assert (Hnew : forall c, c ∈ todo -> c ∉ codes registry0).
  { intros c Hc. destruct (retry args) eqn:Hr.
    - subst todo. unfold codesToProcess in Hc. rewrite Hr in Hc.
      by apply elem_of_nil in Hc.
    - by eapply codesToProcess_new. }
  destruct todo as [| c0 todo'] eqn:Htodo.
  - simpl in Hmain. rewrite Hmain. simpl.
    split_and!; try done; intros c Hc; by apply elem_of_nil in Hc.
  - rewrite <- Htodo in *. replace (length todo =? 0)%nat with false in Hmain
      by (rewrite Htodo; reflexivity).
    rewrite Hmain. simpl. split_and!.
    + intros c Hc Hs. destruct (Hok c Hc Hs) as [Hr Hp].
      split_and!; [exact Hr | exact Hp |].
      intros [Hin | [_ Hf]]%Sfail; [by apply elem_of_nil in Hin |].
      unfold succeeds in Hs. congruence.
    + intros c Hc Hs. split_and!; [by apply Hko | |].
      * intros [Hin | [_ Hf]]%Sproc; [by apply elem_of_nil in Hin |].
        unfold succeeds in Hs. congruence.
      * intros [Hin | [_ Hf]]%Sreg; [by apply (Hnew c) |].
        unfold succeeds in Hs. congruence.
    + exact Hcount.
    + done.
    + rewrite Htodo. discriminate.
Qed.

Lemma fresh_session_accounts_witness :
  let args := {| fresh := true; test := None; retry := false |} in
  let st' := main args [purchase "3506-434-SE25"; purchase "2000-2-AG25"]
                  mixedBrowser (λ _, "2025-12-15T10:00:00Z")
                  "2025-12-15T09:00:00Z" Absent Absent in
  (succeededCount st' + failedCount st' = 2)%nat
  /\ "3506-434-SE25" ∈ codes (registry st')
  /\ "2000-2-AG25" ∈ map fe_code (failedCodes (checkpoint st')).
Proof.
  intros args st'.
  pose proof (fresh_session_accounts args
                [purchase "3506-434-SE25"; purchase "2000-2-AG25"]
                mixedBrowser (λ _, "2025-12-15T10:00:00Z")
                "2025-12-15T09:00:00Z" Absent Absent eq_refl)
    as (Hok & Hko & Hcount & _).
  split_and!.
  - exact Hcount.
  - apply (Hok "3506-434-SE25"); [vm_compute; repeat constructor |].
    reflexivity.
  - apply (Hko "2000-2-AG25"); [vm_compute; repeat constructor |].
    reflexivity.
Defined.

End SessionAccounting.

(* ====================================================================== *)
(** * Facts: resuming a session and retrying failed codes *)
(* ====================================================================== *)

Section ResumeAndRetry.
Import Js ScraperUtils ScrapeDocuments Props.

(** X5: Outside fresh mode, the task of a code that the checkpoint has as
    processed touches neither store nor file and fetches nothing: it answers
    [null] and logs one line. In particular the code is not entered into the
    registry by this task. *)
Theorem resumed_code_is_skipped (args : CliArgs) (browser : Browser)
    (clock : string -> string) (total : nat) (st : Session) (code : string) :
  fresh args = false ->
  cacheCoherent (checkpoint st) ->
  code ∈ processedCodes (checkpoint st) ->
  let st' := runTask args browser clock total st code in
  registry st' = registry st
  /\ processedCodes (checkpoint st') = processedCodes (checkpoint st)
  /\ failedCodes (checkpoint st') = failedCodes (checkpoint st)
  /\ totalProcessed (checkpoint st') = totalProcessed (checkpoint st)
  /\ ScraperUtils.totalFailed (checkpoint st')
     = ScraperUtils.totalFailed (checkpoint st)
  /\ results st' = results st ++ [None]
  /\ trace st'
     = trace st ++ [Log (Info, "Already processed in this session: " +:+ code)]
  /\ processedCount st' = processedCount st
  /\ checkpointFile st' = checkpointFile st
  /\ registryFile st' = registryFile st.
Proof.
  intros Hfresh Hcoh Hin st'. subst st'. unfold runTask.
  rewrite Hfresh. unfold isProcessed. simpl.
  rewrite (cacheOf_coherent _ Hcoh).
  rewrite bool_decide_true by (by apply elem_of_list_to_set).
  simpl. done.
Qed.

Lemma resumed_code_is_skipped_witness :
  let args := {| fresh := false; test := None; retry := false |} in
  let st := startSession
              (markProcessed (emptyCheckpoint "2025-12-15T09:00:00Z")
                             "3506-434-SE25" "2025-12-15T09:30:00Z")
              (emptyRegistry "2025-12-15T09:00:00Z") Absent Absent in
  codes (registry (runTask args alwaysTimeout (λ _, "2025-12-15T10:00:00Z")
                           1 st "3506-434-SE25")) = [].
Proof.
  intros args st.
  assert (Hcoh : cacheCoherent (checkpoint st)).
  { apply markProcessed_coherent. intros x. discriminate. }
  assert (Hin : "3506-434-SE25" ∈ processedCodes (checkpoint st))
    by (vm_compute; repeat constructor).
  pose proof (resumed_code_is_skipped args alwaysTimeout
                (λ _, "2025-12-15T10:00:00Z") 1 st "3506-434-SE25"
                eq_refl Hcoh Hin) as (Hr & _).
  rewrite Hr. reflexivity.
Defined.

Lemma retryable_iff (c : Checkpoint) (x : string) :
  x ∈ getRetryableCodes c
  <-> exists j f, failedCodes c !! j = Some f /\ fe_code f = x
                  /\ (fe_attempts f < 3)%Z.
Proof.
  unfold getRetryableCodes. change (map fe_code ?l) with (fe_code <$> l).
  rewrite list_elem_of_fmap. split.
  - intros (f & -> & Hin). apply list_elem_of_filter in Hin as [Hlt Hin].
    apply list_elem_of_lookup in Hin as [j Hj]. eauto.
  - intros (j & f & Hj & <- & Hlt). exists f. split; [done |].
    apply list_elem_of_filter. split; [done |].
    by eapply list_elem_of_lookup_2.
Qed.

Lemma keys_lookup_inj (l : list FailedEntry) i j f g :
  NoDup (map fe_code l) ->
  l !! i = Some f -> l !! j = Some g -> fe_code f = fe_code g -> i = j.
Proof.
  intros Hnd Hi Hj Heq.
  change (map fe_code l) with (fe_code <$> l) in Hnd.
  eapply (NoDup_lookup _ i j (fe_code f)); [exact Hnd | |].
  - by rewrite list_lookup_fmap, Hi.
  - by rewrite list_lookup_fmap, Hj, Heq.
Qed.

(** X8: With one entry per code in the failed list, a code is offered for retry
    after [markFailed] exactly when the attempts it had on record plus the
    new ones stay below 3, and the other codes are offered as before. *)
Theorem retryable_after_markFailed (c : Checkpoint) (code error : string)
    (attempts : Z) (now : string) :
  NoDup (map fe_code (failedCodes c)) ->
  let c' := markFailed c code error attempts now in
  (code ∈ getRetryableCodes c' <-> (attemptsOn c code + attempts < 3)%Z)
  /\ (forall x, x <> code ->
        (x ∈ getRetryableCodes c' <-> x ∈ getRetryableCodes c)).
Proof.
  intros Hnd c'. subst c'. unfold attemptsOn.
  destruct (list_find _ _) as [[i old] |] eqn:Hfind; simpl.
  - destruct (markFailed_existing c code error attempts now i old Hfind)
      as [Hl _].
    apply list_find_Some in Hfind as (Hi & Hcode & _).
    pose proof (lookup_lt_Some _ _ _ Hi) as Hlt.
    split; [| intros x Hx]; rewrite !retryable_iff, Hl; split.
    + intros (j & f & Hj & Hf & Ha).
      apply list_lookup_insert_Some in Hj
        as [(_ & <- & _) | (Hne & Hj)]; [exact Ha |].
      exfalso. apply Hne.
      eapply keys_lookup_inj; eauto. congruence.
    + intros Ha. exists i, (mkFailedEntry code error now
                              (fe_attempts old + attempts)).
      split; [| done]. apply list_lookup_insert_Some. left. done.
    + intros (j & f & Hj & Hf & Ha).
      apply list_lookup_insert_Some in Hj
        as [(_ & <- & _) | (Hne & Hj)]; [simpl in Hf; congruence |].
      eauto.
    + intros (j & f & Hj & Hf & Ha). exists j, f.
      split; [| done]. apply list_lookup_insert_Some. right.
      split; [| done]. intros <-. congruence.
  - destruct (markFailed_new c code error attempts now Hfind) as [Hl _].
    apply list_find_None in Hfind.
    split; [| intros x Hx]; rewrite !retryable_iff, Hl; split.
    + intros (j & f & Hj & Hf & Ha).
      apply lookup_app_Some in Hj as [Hj | [_ Hj]].
      * exfalso. eapply Forall_lookup_1 in Hfind; eauto.
      * apply list_lookup_singleton_Some in Hj as [_ <-].
        simpl in Ha. lia.
    + intros Ha. exists (length (failedCodes c)),
                   (mkFailedEntry code error now attempts).
      split; [| simpl; split; [done | lia]].
      by rewrite lookup_app_r, Nat.sub_diag.
    + intros (j & f & Hj & Hf & Ha).
      apply lookup_app_Some in Hj as [Hj | [_ Hj]]; [eauto |].
      apply list_lookup_singleton_Some in Hj as [_ <-].
      simpl in Hf. congruence.
    + intros (j & f & Hj & Hf & Ha). exists j, f.
      split; [| done]. apply lookup_app_Some. by left.
Qed.

Lemma retryable_after_markFailed_witness :
  let c := markFailed (markFailed (emptyCheckpoint "t0") "2000-2-AG25"
                                  "timeout" 1 "t1")
                      "2000-2-AG25" "timeout" 1 "t2" in
  "2000-2-AG25" ∈ getRetryableCodes c
  /\ ~ "2000-2-AG25"
       ∈ getRetryableCodes (markFailed c "2000-2-AG25" "timeout" 1 "t3").
Proof.
  intros c. split; [vm_compute; repeat constructor |].
  assert (Hnd : NoDup (map fe_code (failedCodes c))).
  { vm_compute. apply NoDup_singleton. }
  intros Hin.
  apply (proj1 (retryable_after_markFailed c "2000-2-AG25" "timeout" 1
                  "t3" Hnd)) in Hin.
  vm_compute in Hin. discriminate.
Defined.

End ResumeAndRetry.

(* ====================================================================== *)
(** * Facts: the three files of data-manager.ts *)
(* ====================================================================== *)

Section BatchStores.
Import Js DataManager Props.

Lemma loadPending_parses disk now :
  parses (pendingFile disk) ->
  exists data, loadPending disk now = Ok data
               /\ p_codes data = pendingOf disk.
Proof.
  unfold loadPending, pendingOf, parses.
  destruct (pendingFile disk); [eauto | done | eauto].
Qed.

Lemma loadProcessed_parses disk now :
  parses (processedFile disk) ->
  exists data, loadProcessed disk now = Ok data
               /\ orders data = ordersOf disk.
Proof.
  unfold loadProcessed, ordersOf, parses.
  destruct (processedFile disk); [eauto | done | eauto].
Qed.

Lemma loadFailed_parses disk now :
  parses (failedFile disk) ->
  exists data, loadFailed disk now = Ok data
               /\ f_codes data = failedOf disk.
Proof.
  unfold loadFailed, failedOf, parses.
  destruct (failedFile disk); [eauto | done | eauto].
Qed.

Lemma removePendingCodes_parses disk codes now :
  parses (pendingFile disk) ->
  exists disk',
    removePendingCodes disk codes now = Ok disk'
    /\ pendingFile disk'
       = Stored (mkPending (filter (λ c, c ∉ codes) (pendingOf disk)) now
                   (Z.of_nat (length (filter (λ c, c ∉ codes)
                                             (pendingOf disk))))).
Proof.
  intros Hp. destruct (loadPending_parses disk now Hp) as (data & Hload & Hc).
  eexists. unfold removePendingCodes. rewrite Hload. simpl.
  split; [reflexivity |]. unfold savePending. simpl. rewrite Hc.
  assert (Hfilter : filter (λ c, c ∉ (list_to_set codes : gset string))
                           (pendingOf disk)
                    = filter (λ c, c ∉ codes) (pendingOf disk)).
  { apply list_filter_iff. intros c. by rewrite elem_of_list_to_set. }
  by rewrite Hfilter.
Qed.

(** X15: [removePendingCodes] leaves in the pending file exactly the codes that
    are not among the given ones, in the order they had, with the counter and
    the date rewritten, and leaves the two other files alone;
    [removePendingCode] is the case of one code. *)
Theorem removePendingCodes_exact (disk : Disk) (codes : list string)
    (now : string) :
  parses (pendingFile disk) ->
  exists disk',
    removePendingCodes disk codes now = Ok disk'
    /\ pendingFile disk'
       = Stored (mkPending (filter (λ c, c ∉ codes) (pendingOf disk)) now
                   (Z.of_nat (length (filter (λ c, c ∉ codes)
                                             (pendingOf disk)))))
    /\ (forall c, c ∈ pendingOf disk' <-> c ∈ pendingOf disk /\ c ∉ codes)
    /\ pendingOf disk' `sublist_of` pendingOf disk
    /\ processedFile disk' = processedFile disk
    /\ failedFile disk' = failedFile disk
    /\ (forall code,
          removePendingCode disk code now
          = removePendingCodes disk [code] now).
Proof.
  intros Hp.
  destruct (removePendingCodes_parses disk codes now Hp)
    as (disk' & Hrm & Hfile).
  exists disk'. split; [exact Hrm |]. split; [exact Hfile |].
  destruct (loadPending_parses disk now Hp) as (data & Hload & Hc).
  split_and!.
  - intros c. unfold pendingOf at 1. rewrite Hfile. simpl.
    rewrite list_elem_of_filter. tauto.
  - unfold pendingOf at 1. rewrite Hfile. simpl. apply sublist_filter.
  - revert Hrm. unfold removePendingCodes. rewrite Hload. simpl.
    by intros [= <-].
  - revert Hrm. unfold removePendingCodes. rewrite Hload. simpl.
    by intros [= <-].
  - intros code. unfold removePendingCode, removePendingCodes.
    rewrite Hload. cbn [bind].
    assert (Hone : filter (λ c, c ≠ code) (p_codes data)
                   = filter (λ c, c ∉ (list_to_set [code] : gset string))
                            (p_codes data)).
    { apply list_filter_iff. intros c.
      rewrite elem_of_list_to_set, list_elem_of_singleton. tauto. }
    by rewrite Hone.
Qed.

Lemma removePendingCodes_exact_witness :
  let disk := {| pendingFile :=
                   Stored (mkPending ["1000-1-SE25"; "2000-2-AG25";
                                      "3506-434-SE25"] "t0" 3);
                 processedFile := Absent; failedFile := Absent |} in
  exists disk',
    removePendingCodes disk ["2000-2-AG25"; "9999-9-XX25"] "t1" = Ok disk'
    /\ pendingOf disk' `sublist_of` pendingOf disk.
Proof.
  intros disk.
  destruct (removePendingCodes_exact disk ["2000-2-AG25"; "9999-9-XX25"]
              "t1" I) as (disk' & Hrm & _ & _ & Hsub & _).
  exists disk'. split; [exact Hrm | exact Hsub].
Defined.

Lemma filter_all {A} (P : A -> Prop) `{forall x, Decision (P x)}
    (l : list A) :
  Forall P l -> filter P l = l.
Proof.
  induction 1 as [| x l Hx _ IH]; [done |].
  by rewrite filter_cons_True, IH.
Qed.

Lemma filter_none {A} (P : A -> Prop) `{forall x, Decision (P x)}
    (l : list A) :
  Forall (λ x, ~ P x) l -> filter P l = [].
Proof.
  induction 1 as [| x l Hx _ IH]; [done |].
  by rewrite filter_cons_False, IH.
Qed.

Lemma filter_not_in_prefix (pre suf : list string) :
  NoDup (pre ++ suf) -> filter (λ c, c ∉ pre) (pre ++ suf) = suf.
Proof.
  intros (_ & Hd & _)%NoDup_app.
  rewrite filter_app, filter_none, filter_all; [done | |].
  - apply Forall_forall. intros x Hx Hin. by apply (Hd x).
  - apply Forall_forall. intros x Hx. auto.
Qed.

Lemma filter_not_in_take (l : list string) (n : nat) :
  NoDup l -> filter (λ c, c ∉ take n l) l = drop n l.
Proof.
  intros Hnd. rewrite <- (take_drop n l) in Hnd.
  pose proof (filter_not_in_prefix _ _ Hnd) as H.
  by rewrite take_drop in H.
Qed.

(** X16: The batch is the first [n] codes of the pending file, and with no code
    listed twice, removing the batch leaves the codes after the first [n]. *)
Theorem pending_batch_then_remove (disk : Disk) (n : nat) (now : string) :
  parses (pendingFile disk) ->
  NoDup (pendingOf disk) ->
  getPendingBatch disk (Z.of_nat n) now = Ok (take n (pendingOf disk))
  /\ exists disk',
       removePendingCodes disk (take n (pendingOf disk)) now = Ok disk'
       /\ pendingOf disk' = drop n (pendingOf disk)
       /\ length (pendingOf disk') = (length (pendingOf disk) - n)%nat.
Proof.
  intros Hp Hnd.
  destruct (loadPending_parses disk now Hp) as (data & Hload & Hc).
  split.
  - unfold getPendingBatch, slice0. rewrite Hload. simpl.
    destruct (Z.ltb_spec (Z.of_nat n) 0) as [Hneg | _]; [lia |].
    by rewrite Nat2Z.id, Hc.
  - destruct (removePendingCodes_parses disk (take n (pendingOf disk)) now
                Hp) as (disk' & Hrm & Hfile).
    exists disk'. split; [exact Hrm |].
    unfold pendingOf at 1 3. rewrite Hfile. simpl.
    rewrite filter_not_in_take by done.
    split; [done |]. by rewrite length_drop.
Qed.

Lemma pending_batch_then_remove_witness :
  let disk := {| pendingFile :=
                   Stored (mkPending ["1000-1-SE25"; "2000-2-AG25";
                                      "3506-434-SE25"] "t0" 3);
                 processedFile := Absent; failedFile := Absent |} in
  getPendingBatch disk 2 "t1" = Ok ["1000-1-SE25"; "2000-2-AG25"].
Proof.
  intros disk.
  assert (Hnd : NoDup (pendingOf disk)).
  { apply (bool_decide_unpack (NoDup (pendingOf disk))). vm_compute.
    exact I. }
  exact (proj1 (pending_batch_then_remove disk 2 "t1" I Hnd)).
Defined.

Lemma existsb_code_elem code (l : list ProcessedOrder) :
  existsb (λ o, bool_decide (po_code o = code)) l = true
  <-> code ∈ map po_code l.
Proof.
  rewrite existsb_exists. change (map po_code l) with (po_code <$> l).
  rewrite list_elem_of_fmap. split.
  - intros (o & Hin & Ho). apply bool_decide_eq_true in Ho.
    exists o. split; [done | by apply list_elem_of_In].
  - intros (o & -> & Hin). exists o.
    split; [by apply list_elem_of_In | by apply bool_decide_eq_true].
Qed.

Lemma addProcessedOrder_parses disk order now :
  parses (processedFile disk) ->
  exists disk',
    addProcessedOrder disk order now = Ok disk'
    /\ pendingFile disk' = pendingFile disk
    /\ failedFile disk' = failedFile disk
    /\ parses (processedFile disk')
    /\ ordersOf disk'
       = (if decide (po_code order ∈ map po_code (ordersOf disk))
          then ordersOf disk else ordersOf disk ++ [order])
    /\ ((forall data, processedFile disk = Stored data ->
           totalProcessed data = Z.of_nat (length (orders data))) ->
        forall data', processedFile disk' = Stored data' ->
          totalProcessed data' = Z.of_nat (length (orders data'))).
Proof.
  intros Hp.
  destruct (loadProcessed_parses disk now Hp) as (data & Hload & Ho).
  unfold addProcessedOrder. rewrite Hload. simpl. rewrite !Ho.
  pose proof (existsb_code_elem (po_code order) (ordersOf disk)) as Hex.
  destruct (existsb _ (ordersOf disk)) eqn:He; simpl.
  - exists disk. rewrite decide_True by (by apply Hex). done.
  - eexists. split; [reflexivity |].
    rewrite decide_False by (intros Hin; apply Hex in Hin; discriminate).
    unfold ordersOf at 1. simpl.
    split_and!; try done. by intros _ data' [= <-].
Qed.

Lemma addFailedCode_parses disk code error now :
  parses (failedFile disk) ->
  exists disk',
    addFailedCode disk code error now = Ok disk'
    /\ pendingFile disk' = pendingFile disk
    /\ processedFile disk' = processedFile disk
    /\ parses (failedFile disk')
    /\ failedOf disk'
       = match list_find (λ f, fc_code f = code) (failedOf disk) with
         | Some (i, existing) =>
             <[i := mkFailedCode (fc_code existing) error
                      (fc_attempts existing + 1) now]> (failedOf disk)
         | None => failedOf disk ++ [mkFailedCode code error 1 now]
         end
    /\ (forall data', failedFile disk' = Stored data' ->
          totalFailed data' = Z.of_nat (length (f_codes data'))).
Proof.
  intros Hp.
  destruct (loadFailed_parses disk now Hp) as (data & Hload & Hf).
  unfold addFailedCode. rewrite Hload. simpl. rewrite Hf.
  eexists. split; [reflexivity |]. unfold failedOf at 1. simpl.
  split_and!; try done. by intros data' [= <-].
Qed.

Lemma failed_keys_step (l : list FailedCode) code error now :
  map fc_code
    match list_find (λ f, fc_code f = code) l with
    | Some (i, existing) =>
        <[i := mkFailedCode (fc_code existing) error
                 (fc_attempts existing + 1) now]> l
    | None => l ++ [mkFailedCode code error 1 now]
    end
  = match list_find (λ f, fc_code f = code) l with
    | Some _ => map fc_code l
    | None => map fc_code l ++ [code]
    end.
Proof.
  destruct (list_find _ _) as [[i old] |] eqn:Hfind.
  - apply list_find_Some in Hfind as (Hi & Hcode & _).
    change (map fc_code ?l) with (fc_code <$> l).
    rewrite list_fmap_insert. simpl. apply list_insert_id.
    by rewrite list_lookup_fmap, Hi.
  - by rewrite map_app.
Qed.

Lemma failed_keys_NoDup (l : list FailedCode) code error now :
  NoDup (map fc_code l) ->
  NoDup (map fc_code
           match list_find (λ f, fc_code f = code) l with
           | Some (i, existing) =>
               <[i := mkFailedCode (fc_code existing) error
                        (fc_attempts existing + 1) now]> l
           | None => l ++ [mkFailedCode code error 1 now]
           end).
Proof.
  intros Hnd. rewrite failed_keys_step.
  destruct (list_find _ _) as [[i old] |] eqn:Hfind; [done |].
  apply NoDup_app. split; [done |]. split; [| apply NoDup_singleton].
  intros y Hy ->%list_elem_of_singleton.
  change (map fc_code ?l) with (fc_code <$> l) in Hy.
  apply list_elem_of_fmap in Hy as (f & Hf & Hin).
  apply list_find_None in Hfind.
  eapply Forall_forall in Hfind; eauto.
Qed.

(** What the store keeps along the operations of data-manager.ts. *)
Lemma reachable_invariant disk :
  reachable disk ->
  readable disk /\ totalsAgree disk
  /\ NoDup (map po_code (ordersOf disk))
  /\ NoDup (map fc_code (failedOf disk)).
Proof.
  induction 1 as [| disk data now _ IH | disk codes now disk' _ IH Hop
                  | disk order now disk' _ IH Hop
                  | disk code error now disk' _ IH Hop].
  - unfold readable, totalsAgree, ordersOf, failedOf. simpl.
    split_and!; try done; apply NoDup_nil_2.
  - destruct IH as ((Hp & Ho & Hf) & (Tp & To & Tf) & Nd1 & Nd2).
    unfold readable, totalsAgree, ordersOf, failedOf in *. simpl.
    split_and!; try done. by intros data' [= <-].
  - destruct IH as ((Hp & Ho & Hf) & (Tp & To & Tf) & Nd1 & Nd2).
    destruct (removePendingCodes_parses disk codes now Hp)
      as (d & Hd & Hfile).
    rewrite Hop in Hd. injection Hd as <-.
    assert (Hrest : processedFile disk' = processedFile disk
                    /\ failedFile disk' = failedFile disk).
    { revert Hop. unfold removePendingCodes.
      destruct (loadPending disk now); simpl; [| discriminate].
      by intros [= <-]. }
    destruct Hrest as [Hpo Hfa].
    unfold readable, totalsAgree, ordersOf, failedOf in *.
    rewrite Hpo, Hfa, Hfile. split_and!; try done.
    by intros data' [= <-].
  - destruct IH as ((Hp & Ho & Hf) & (Tp & To & Tf) & Nd1 & Nd2).
    destruct (addProcessedOrder_parses disk order now Ho)
      as (d & Hd & Hpe & Hfa & Hpar & Hord & Htot).
    rewrite Hop in Hd. injection Hd as <-.
    unfold readable, totalsAgree, failedOf in *.
    rewrite Hpe, Hfa, Hord. split_and!; try done; [by apply Htot |].
    destruct (decide _) as [Hin | Hin]; [done |].
    rewrite map_app. apply NoDup_app. split; [done |].
    split; [| apply NoDup_singleton].
    intros y Hy ->%list_elem_of_singleton. contradiction.
  - destruct IH as ((Hp & Ho & Hf) & (Tp & To & Tf) & Nd1 & Nd2).
    destruct (addFailedCode_parses disk code error now Hf)
      as (d & Hd & Hpe & Hpo & Hpar & Hfl & Htot).
    rewrite Hop in Hd. injection Hd as <-.
    unfold readable, totalsAgree, ordersOf in *.
    rewrite Hpe, Hpo, Hfl. split_and!; try done.
    by apply failed_keys_NoDup.
Qed.

Lemma stored_totals disk now :
  readable disk -> totalsAgree disk ->
  exists p o f,
    loadPending disk now = Ok p /\ loadProcessed disk now = Ok o
    /\ loadFailed disk now = Ok f
    /\ totalPending p = Z.of_nat (length (pendingOf disk))
    /\ totalProcessed o = Z.of_nat (length (ordersOf disk))
    /\ totalFailed f = Z.of_nat (length (failedOf disk)).
Proof.
  intros (Hp & Ho & Hf) (Tp & To & Tf).
  unfold loadPending, loadProcessed, loadFailed, pendingOf, ordersOf,
    failedOf, parses in *.
  destruct (pendingFile disk) as [| |p]; try done;
    destruct (processedFile disk) as [| |o]; try done;
    destruct (failedFile disk) as [| |f]; try done;
    do 3 eexists; split_and!; try reflexivity; auto.
Qed.

(** X19: Every store that the operations of data-manager.ts lead to from the
    empty one loads without an exception, holds counters equal to the
    lengths of its lists, has one order per code and one failed entry per
    code, and gives [getStats] the three lengths and their sum. *)
Theorem reachable_store_is_consistent (disk : Disk) (now : string) :
  reachable disk ->
  readable disk /\ totalsAgree disk
  /\ NoDup (map po_code (ordersOf disk))
  /\ NoDup (map fc_code (failedOf disk))
  /\ exists stats,
       getStats disk now = Ok stats
       /\ s_pending stats = Z.of_nat (length (pendingOf disk))
       /\ s_processed stats = Z.of_nat (length (ordersOf disk))
       /\ s_failed stats = Z.of_nat (length (failedOf disk))
       /\ s_total stats
          = Z.of_nat (length (pendingOf disk) + length (ordersOf disk)
                      + length (failedOf disk)).
Proof.
  intros Hr. destruct (reachable_invariant disk Hr) as (Hre & Ht & N1 & N2).
  split_and!; try done.
  destruct (stored_totals disk now Hre Ht)
    as (p & o & f & Hp & Ho & Hf & Tp & To & Tf).
  unfold getStats. rewrite Hp, Ho, Hf. simpl.
  eexists. split; [reflexivity |]. simpl. rewrite Tp, To, Tf.
  split_and!; try done. lia.
Qed.

Lemma reachable_store_is_consistent_witness :
  let disk := savePending emptyDisk
                (mkPending ["1000-1-SE25"; "2000-2-AG25"] "t0" 7) "t1" in
  totalsAgree disk /\ NoDup (map fc_code (failedOf disk)).
Proof.
  intros disk.
  pose proof (reachable_store_is_consistent disk "t2"
                (reach_savePending _ _ _ reach_empty))
    as (_ & Ht & _ & Hn & _).
  split; [exact Ht | exact Hn].
Defined.

Lemma addProcessedOrders_parses disk new now :
  parses (processedFile disk) ->
  exists disk',
    addProcessedOrders disk new now = Ok disk'
    /\ ordersOf disk'
       = ordersOf disk
         ++ filter (λ o, po_code o ∉ map po_code (ordersOf disk)) new.
Proof.
  intros Hp.
  destruct (loadProcessed_parses disk now Hp) as (data & Hload & Ho).
  unfold addProcessedOrders. rewrite Hload. simpl. rewrite !Ho.
  eexists. split; [reflexivity |]. unfold ordersOf at 1. simpl.
  f_equal. apply list_filter_iff. intros o.
  by rewrite elem_of_list_to_set.
Qed.

(** X17: [addProcessedOrders] keeps what is stored and appends the new orders
    whose codes have no order yet. It keeps one order per code when the new
    orders have different codes; two new orders for one code that has no
    order yet are both appended. *)
Theorem addProcessedOrders_unique (disk : Disk) (new : list ProcessedOrder)
    (now : string) :
  parses (processedFile disk) ->
  NoDup (map po_code (ordersOf disk)) ->
  exists disk',
    addProcessedOrders disk new now = Ok disk'
    /\ ordersOf disk'
       = ordersOf disk
         ++ filter (λ o, po_code o ∉ map po_code (ordersOf disk)) new
    /\ (NoDup (map po_code new) -> NoDup (map po_code (ordersOf disk')))
    /\ (forall o1 o2,
          new = [o1; o2] -> po_code o1 = po_code o2 ->
          po_code o1 ∉ map po_code (ordersOf disk) ->
          ordersOf disk' = ordersOf disk ++ [o1; o2]
          /\ ~ NoDup (map po_code (ordersOf disk'))).
Proof.
  intros Hp Hnd.
  destruct (addProcessedOrders_parses disk new now Hp)
    as (disk' & Hadd & Hord).
  exists disk'. rewrite Hord. split; [exact Hadd |]. split; [done |]. split.
  - intros Hnew. rewrite map_app. apply NoDup_app. split; [done |]. split.
    + intros x Hx Hin.
      change (map po_code ?l) with (po_code <$> l) in Hin.
      apply list_elem_of_fmap in Hin as (o & -> & Hin).
      by apply list_elem_of_filter in Hin as [Hout _].
    + change (map po_code ?l) with (po_code <$> l) in *.
      eapply sublist_NoDup; [exact Hnew |].
      apply fmap_sublist, sublist_filter.
  - intros o1 o2 -> Heq Hout.
    rewrite filter_cons_True by done.
    rewrite filter_cons_True by (by rewrite <- Heq).
    split; [done |]. rewrite map_app. simpl. rewrite Heq.
    intros (_ & _ & Hdup)%NoDup_app.
    apply NoDup_cons in Hdup as [Hdup _]. apply Hdup, list_elem_of_here.
Qed.

Lemma addProcessedOrders_unique_witness :
  let o := mkOrder "3506-434-SE25" GeminiProcessor.normal [laptop; mouse]
                   (Some 550000%Z) "t1" GeminiProcessor.alta 2 in
  exists disk',
    addProcessedOrders emptyDisk [o; o] "t2" = Ok disk'
    /\ ordersOf disk' = [o; o].
Proof.
  intros o.
  destruct (addProcessedOrders_unique emptyDisk [o; o] "t2" I
              (NoDup_nil_2 : NoDup (map po_code (ordersOf emptyDisk))))
    as (disk' & Hadd & _ & _ & Hdup).
  exists disk'. split; [exact Hadd |].
  apply (Hdup o o eq_refl eq_refl). apply not_elem_of_nil.
Defined.

Lemma list_find_insert_other {A} (Q : A -> Prop) `{forall x, Decision (Q x)}
    (l : list A) : forall i x old,
  l !! i = Some old -> ~ Q old -> ~ Q x ->
  list_find Q (<[i := x]> l) = list_find Q l.
Proof.
  induction l as [| y l IH]; intros i x old Hi Hold Hx; [done |].
  destruct i as [| i]; simpl in *.
  - injection Hi as ->. by rewrite !decide_False.
  - destruct (decide (Q y)); [done |]. by rewrite (IH i x old).
Qed.

Lemma unique_entry_filter (P : FailedCode -> Prop)
    `{forall f, Decision (P f)} (l : list FailedCode) code i f :
  NoDup (map fc_code l) ->
  list_find (λ g, fc_code g = code) l = Some (i, f) ->
  code ∈ map fc_code (filter P l) <-> P f.
Proof.
  intros Hnd (Hi & Hcode & _)%list_find_Some.
  change (map fc_code ?l) with (fc_code <$> l) in *.
  rewrite list_elem_of_fmap. split.
  - intros (g & Hg & Hin). apply list_elem_of_filter in Hin as [HP Hin].
    apply list_elem_of_lookup in Hin as [j Hj].
    assert (i = j) as <-.
    { eapply (NoDup_lookup _ i j code); [exact Hnd | |].
      - by rewrite list_lookup_fmap, Hi, <- Hcode.
      - by rewrite list_lookup_fmap, Hj, Hg. }
    congruence.
  - intros HP. exists f. split; [done |]. apply list_elem_of_filter.
    split; [done |]. by eapply list_elem_of_lookup_2.
Qed.

(** X18: [addFailedCode] raises by 1 the attempts on record for the code and
    leaves those of every other code; with one entry per code before there
    is one entry per code after, and the code is offered by
    [getRetryableFailed] exactly when its raised attempts are below the
    maximum. *)
Theorem addFailedCode_counts (disk : Disk) (code error now : string) :
  parses (failedFile disk) ->
  NoDup (map fc_code (failedOf disk)) ->
  exists disk',
    addFailedCode disk code error now = Ok disk'
    /\ failedAttempts disk' code = (failedAttempts disk code + 1)%Z
    /\ (forall other, other <> code ->
          failedAttempts disk' other = failedAttempts disk other)
    /\ NoDup (map fc_code (failedOf disk'))
    /\ (forall maxAttempts,
          exists retry,
            getRetryableFailed disk' maxAttempts now = Ok retry
            /\ (code ∈ retry
                <-> (failedAttempts disk code + 1 < maxAttempts)%Z)).
Proof.
  intros Hp Hnd.
  destruct (addFailedCode_parses disk code error now Hp)
    as (disk' & Hadd & _ & _ & Hpar & Hl & _).
  exists disk'. split; [exact Hadd |].
  assert (Hnd' : NoDup (map fc_code (failedOf disk')))
    by (rewrite Hl; by apply failed_keys_NoDup).
  assert (Hfind : exists i,
            list_find (λ f, fc_code f = code) (failedOf disk')
            = Some (i, mkFailedCode code error
                         (failedAttempts disk code + 1) now)).
  { rewrite Hl. unfold failedAttempts.
    destruct (list_find _ (failedOf disk)) as [[i old] |] eqn:Hfind; simpl.
    - exists i. pose proof Hfind as (Hi & Hcode & Hbefore)%list_find_Some.
      rewrite Hcode. apply list_find_insert_Some. right. left.
      split_and!; try done. by eapply lookup_lt_Some.
    - exists (length (failedOf disk)).
      apply list_find_Some. split_and!; try done.
      + by rewrite lookup_app_r, Nat.sub_diag.
      + intros j y Hj Hlt. rewrite lookup_app_l in Hj by done.
        apply list_find_None in Hfind.
        eapply Forall_lookup_1 in Hfind; eauto. }
  destruct Hfind as [i Hfind].
  split_and!.
  - unfold failedAttempts at 1. by rewrite Hfind.
  - intros other Hne. unfold failedAttempts. rewrite Hl. f_equal.
    destruct (list_find (λ f, fc_code f = code) (failedOf disk))
      as [[k old] |] eqn:Hold.
    + apply list_find_Some in Hold as (Hk & Hcode & _).
      apply (list_find_insert_other _ _ k _ old Hk); simpl; congruence.
    + destruct (list_find (λ f, fc_code f = other) (failedOf disk))
        as [[k g] |] eqn:Hg.
      * by rewrite (list_find_app_l _ _ _ _ _ Hg).
      * rewrite (list_find_app_r _ _ _ Hg). simpl.
        by rewrite decide_False by (simpl; congruence).
  - exact Hnd'.
  - intros maxAttempts.
    destruct (loadFailed_parses disk' now Hpar) as (data & Hload & Hf).
    unfold getRetryableFailed. rewrite Hload. simpl. rewrite Hf.
    eexists. split; [reflexivity |].
    by rewrite (unique_entry_filter _ _ code i _ Hnd' Hfind).
Qed.

Lemma addFailedCode_counts_witness :
  let disk := {| pendingFile := Absent; processedFile := Absent;
                 failedFile :=
                   Stored (mkFailed [mkFailedCode "2000-2-AG25" "timeout" 2
                                                  "t0"] 1 "t0") |} in
  exists disk',
    addFailedCode disk "2000-2-AG25" "timeout" "t1" = Ok disk'
    /\ failedAttempts disk' "2000-2-AG25" = 3%Z.
Proof.
  intros disk.
  assert (Hnd : NoDup (map fc_code (failedOf disk)))
    by (vm_compute; apply NoDup_singleton).
  destruct (addFailedCode_counts disk "2000-2-AG25" "timeout" "t1" I Hnd)
    as (disk' & Hadd & Hcount & _).
  exists disk'. split; [exact Hadd |]. rewrite Hcount. reflexivity.
Defined.

End BatchStores.

(* ====================================================================== *)
(** * Facts: what a batch of process-batch.ts does with its codes *)
(* ====================================================================== *)

Section BatchAccounting.
Import Js GeminiProcessor DataManager ProcessBatch Props.



Lemma runtime_tryProcess_cases (world : Runtime.World) (code now : string) :
  let attempt := Runtime.tryProcess world code now in
  (exists order,
     fst attempt = Ok (Runtime.mkCodeResult true (Some order) None)
     /\ Forall (λ e, is_error e = false) (snd attempt))
  \/ ((exists error, fst attempt = Ok (Runtime.failure error))
      /\ Exists (λ e, is_error e = true) (snd attempt))
  \/ (exists e, fst attempt = Throw e).
Proof.
  unfold Runtime.tryProcess.
  destruct (Runtime.runScraper world code) as [stderr message | stdout | sr].
  - right. right. eauto.
  - right. right. eauto.
  - destruct (sr_success sr); simpl.
    + destruct (Runtime.existsDir world code); simpl.
      * destruct (Runtime.readdir world code) as [names | e];
          [| right; right; eauto].
        destruct (length _ =? 0)%nat.
        -- right. left. split; [eauto |].
           apply Exists_cons_tl, Exists_cons_hd. reflexivity.
        -- destruct (Runtime.buildOrder _ _ _ _) as [order | e];
             [| right; right; eauto].
           left. eexists. split; [reflexivity |]. repeat constructor.
      * right. left. split; [eauto |]. apply Exists_cons_hd. reflexivity.
    + right. left. split; [eauto |]. apply Exists_cons_hd. reflexivity.
Qed.

(** X20: [processSingleCode] of process-batch.ts throws only what the
    removal of the download directory in its [catch] block throws, after an
    exception of the [try] block, with the error logged. When it returns,
    its success flag tells whether it carries an order: a success carries
    the order of the code it was given, dated with the clock, whose total is
    the sum from left to right of the products of price and quantity of its
    items, in doubles; it carries no error and logs none. A failure carries
    no order and logs at least one error. *)
Theorem processSingleCode_success_carries_order
    (world : Runtime.World) (code now : string) :
  let run := Runtime.processSingleCode world code now in
  match fst run with
  | Ok result =>
      (Runtime.r_success result = true
       /\ (exists order amounts,
             Runtime.r_order result = Some order
             /\ Runtime.po_code order = code
             /\ Runtime.processedAt order = now
             /\ Forall2 amountOf (Runtime.po_items order) amounts
             /\ Runtime.po_total_orden order = roundedSum amounts)
       /\ Runtime.r_error result = None
       /\ Forall (λ e, is_error e = false) (snd run))
      \/ (Runtime.r_success result = false
          /\ Runtime.r_order result = None
          /\ Exists (λ e, is_error e = true) (snd run))
  | Throw e =>
      Runtime.existsDir world code = true
      /\ Runtime.rmSync world code = Throw e
      /\ (exists cause, fst (Runtime.tryProcess world code now) = Throw cause)
      /\ Exists (λ e, is_error e = true) (snd run)
  end.
Proof.
  intros run.
  pose proof (processSingleCode_order world code now) as Horder.
  subst run. revert Horder. unfold Runtime.processSingleCode.
  destruct (runtime_tryProcess_cases world code now)
    as [(order & Hres & Hlog) | [((error & Hres) & Hlog) | (e & Hres)]];
    rewrite Hres; cbn [fst snd].
  - intros Horder. left.
    destruct (Horder _ _ order
                (f_equal (λ r, (r, snd (Runtime.tryProcess world code now)))
                         eq_refl) eq_refl)
      as (names & comparison & _ & _ & _ & Htotal & Hshape & _).
    apply reduceFrom_amounts in Htotal as (amounts & Hall & Hsum).
    split_and!; try done.
    exists order, amounts. rewrite Hshape. by split_and!.
  - intros _. right. by split_and!.
  - intros _.
    assert (Hlogged : Exists (λ e, is_error e = true)
              (snd (Runtime.tryProcess world code now) ++
               [(Error, "Error processing " +:+ code +:+ ": " +:+
                        Runtime.messageOf world e)])).
    { apply Exists_app. right. apply Exists_cons_hd. reflexivity. }
    destruct (Runtime.existsDir world code);
      [destruct (Runtime.rmSync world code) as [[] | e'] |]; cbn [fst snd].
    + right. by split_and!.
    + split_and!; eauto.
    + right. by split_and!.
Qed.









End BatchAccounting.

(* ====================================================================== *)
(** * Facts: the command line of scrape-documents.ts *)
(* ====================================================================== *)

Section CommandLine.
Import Js ScraperUtils ScrapeDocuments Props.

Lemma parseArg_step parsed arg :
  fresh (parseArg parsed arg) = fresh parsed || String.eqb arg "--fresh"
  /\ retry (parseArg parsed arg) = retry parsed || String.eqb arg "--retry"
  /\ (forall n, test (parseArg parsed arg) = Some n ->
        test parsed = Some n
        \/ ((0 < n)%nat /\ String.prefix "--test=" arg = true)).
Proof.
  unfold parseArg.
  destruct (String.eqb arg "--fresh") eqn:Hf.
  - apply String.eqb_eq in Hf as ->. simpl.
    rewrite !orb_true_r, orb_false_r. auto.
  - destruct (String.eqb arg "--retry") eqn:Hr; simpl.
    + rewrite orb_false_r, orb_true_r. auto.
    + destruct (String.prefix "--test=" arg) eqn:Hp;
        [| rewrite !orb_false_r; auto].
      destruct (split "=" arg !! 1%nat ≫= parseInt) as [value |];
        [| rewrite !orb_false_r; auto].
      destruct (Z.ltb_spec 0 value) as [Hpos | Hle]; simpl;
        rewrite !orb_false_r; [| auto].
      split_and!; try done. intros n [= <-]. right. split; [lia | done].
Qed.

Lemma fold_parseArg args : forall parsed,
  let out := fold_left parseArg args parsed in
  (fresh out = true <-> fresh parsed = true \/ "--fresh" ∈ args)
  /\ (retry out = true <-> retry parsed = true \/ "--retry" ∈ args)
  /\ (forall n, test out = Some n ->
        test parsed = Some n
        \/ ((0 < n)%nat
            /\ exists arg, arg ∈ args /\ String.prefix "--test=" arg = true)).
Proof.
  induction args as [| arg args IH]; intros parsed; simpl.
  - split_and!; try (split; [tauto | intros [H | H%elem_of_nil]; done]).
    auto.
  - destruct (IH (parseArg parsed arg)) as (Hf & Hr & Ht).
    destruct (parseArg_step parsed arg) as (Sf & Sr & St).
    split_and!.
    + rewrite Hf, Sf, orb_true_iff, String.eqb_eq, elem_of_cons.
      split; [intros [[H | ->] | H] | intros [H | [<- | H]]]; auto.
    + rewrite Hr, Sr, orb_true_iff, String.eqb_eq, elem_of_cons.
      split; [intros [[H | ->] | H] | intros [H | [<- | H]]]; auto.
    + intros n Hn. apply Ht in Hn as [Hn | (Hpos & a & Ha & Hp)].
      * apply St in Hn as [Hn | [Hpos Hp]]; [by left |].
        right. split; [done |]. exists arg.
        split; [apply list_elem_of_here | done].
      * right. split; [done |]. exists a.
        split; [by apply list_elem_of_further | done].
Qed.

(** X10: [parseArgs]: the run is fresh exactly when [--fresh] is among the
    arguments and a retry exactly when [--retry] is; a test size it reports
    is above 0 and comes from an argument that starts with [--test=];
    arguments it does not know change nothing; and outside retry mode the
    work set of a test run has no more codes than the test size. *)
Theorem parseArgs_reads_flags (argv : list string) :
  let args := parseArgs argv in
  (fresh args = true <-> "--fresh" ∈ drop 2 argv)
  /\ (retry args = true <-> "--retry" ∈ drop 2 argv)
  /\ (forall n, test args = Some n ->
        (0 < n)%nat
        /\ exists arg, arg ∈ drop 2 argv
                       /\ String.prefix "--test=" arg = true)
  /\ (forall parsed arg,
        arg <> "--fresh" -> arg <> "--retry" ->
        String.prefix "--test=" arg = false ->
        parseArg parsed arg = parsed)
  /\ (forall allCodes registry checkpoint n,
        retry args = false -> test args = Some n ->
        (length (codesToProcess args allCodes registry checkpoint) <= n)%nat).
Proof.
  intros args. subst args. unfold parseArgs.
  destruct (fold_parseArg (drop 2 argv)
              {| fresh := false; test := None; retry := false |})
    as (Hf & Hr & Ht). simpl in Hf, Hr, Ht.
  split_and!.
  - rewrite Hf. split; [intros [[=] | H]; exact H | auto].
  - rewrite Hr. split; [intros [[=] | H]; exact H | auto].
  - intros n Hn. by apply Ht in Hn as [[=] | Hn].
  - intros parsed arg Hnf Hnr Hp. unfold parseArg.
    apply String.eqb_neq in Hnf, Hnr. by rewrite Hnf, Hnr, Hp.
  - intros allCodes registry checkpoint n Hretry Hn.
    rewrite (codesToProcess_full _ _ _ _ Hretry), Hn.
    apply Ht in Hn as [[=] | [Hpos _]].
    destruct n as [| k]; [lia |]. rewrite length_take. lia.
Qed.

End CommandLine.

(* ====================================================================== *)
(** * Facts: file names *)
(* ====================================================================== *)

Section FileNames.
Import Js ScraperUtils Props.

Lemma underscore_safe :
  unsafeChar underscore = false /\ is_space underscore = false.
Proof. split; reflexivity. Qed.

Lemma squeeze_chars p inRun w (Q : ascii -> Prop) :
  Q underscore -> Forall Q w -> Forall Q (squeeze p inRun w).
Proof.
  intros Hu Hw. revert inRun.
  induction Hw as [| c w Hc _ IH]; intros inRun; simpl; [constructor |].
  destruct (p c); [destruct inRun |]; auto.
Qed.

Lemma squeeze_drops p inRun w :
  (forall c, p c = true -> c <> underscore) ->
  Forall (λ c, p c = false) (squeeze p inRun w).
Proof.
  intros Hp. revert inRun. induction w as [| c w IH]; intros inRun; simpl;
    [constructor |].
  destruct (p c) eqn:Hc; [destruct inRun |]; auto.
  constructor; [| apply IH].
  destruct (p underscore) eqn:Hu; [| done]. by apply Hp in Hu.
Qed.

Lemma squeeze_length p inRun w :
  (length (squeeze p inRun w) <= length w)%nat.
Proof.
  revert inRun. induction w as [| c w IH]; intros inRun; simpl; [lia |].
  pose proof (IH true). pose proof (IH false).
  destruct (p c); [destruct inRun |]; simpl; lia.
Qed.

Lemma squeeze_id p inRun w :
  Forall (λ c, p c = false) w -> squeeze p inRun w = w.
Proof.
  intros Hw. revert inRun.
  induction Hw as [| c w Hc _ IH]; intros inRun; simpl; [done |].
  by rewrite Hc, IH.
Qed.

(** After the third replacement no underscore follows an underscore. *)
Lemma squeeze_underscores inRun w :
  noDoubleUnderscore (squeeze (Ascii.eqb underscore) inRun w) = true
  /\ (inRun = true ->
      head (squeeze (Ascii.eqb underscore) inRun w) <> Some underscore).
Proof.
  revert inRun. induction w as [| c w IH]; intros inRun; cbn [squeeze];
    [done |].
  destruct (Ascii.eqb underscore c) eqn:Hc.
  - destruct (IH true) as [Hn Hh]. specialize (Hh eq_refl).
    destruct inRun; [done |]. split; [| done].
    cbn [noDoubleUnderscore].
    destruct (squeeze _ true w) as [| d r] eqn:Hs; [done |].
    rewrite Hn, andb_true_r, Ascii.eqb_refl. cbn [andb head] in *.
    destruct (Ascii.eqb underscore d) eqn:Hd; [| done].
    apply Ascii.eqb_eq in Hd as <-. by destruct Hh.
  - destruct (IH false) as [Hn _]. split.
    + cbn [noDoubleUnderscore].
      destruct (squeeze _ false w) as [| d r] eqn:Hs; [done |].
      by rewrite Hc, Hn.
    + intros _ [= ->]. by rewrite Ascii.eqb_refl in Hc.
Qed.

Lemma noDoubleUnderscore_tail c w :
  noDoubleUnderscore (c :: w) = true -> noDoubleUnderscore w = true.
Proof.
  cbn [noDoubleUnderscore]. destruct w; [done |].
  by intros [_ ?]%andb_true_iff.
Qed.

Lemma squeeze_underscores_id w : forall inRun,
  noDoubleUnderscore w = true ->
  (inRun = true -> head w <> Some underscore) ->
  squeeze (Ascii.eqb underscore) inRun w = w.
Proof.
  induction w as [| c w IH]; intros inRun Hn Hh; cbn [squeeze]; [done |].
  pose proof (noDoubleUnderscore_tail c w Hn) as Hn'.
  destruct (Ascii.eqb underscore c) eqn:Hc.
  - apply Ascii.eqb_eq in Hc as <-.
    destruct inRun; [by destruct Hh |].
    f_equal. apply IH; [done |].
    intros _. cbn [noDoubleUnderscore] in Hn. destruct w as [| d r]; [done |].
    apply andb_true_iff in Hn as [Hn _].
    rewrite Ascii.eqb_refl in Hn. cbn [andb negb head] in *.
    intros [= ->]. by rewrite Ascii.eqb_refl in Hn.
  - f_equal. by apply IH.
Qed.

Lemma drop_space_none w :
  Forall (λ c, is_space c = false) w -> drop_space w = w.
Proof. intros [| c w' Hc _]; simpl; [done | by rewrite Hc]. Qed.

Lemma trim_none w :
  Forall (λ c, is_space c = false) w ->
  trim (string_of_list_ascii w) = string_of_list_ascii w.
Proof.
  intros Hw. unfold trim. rewrite list_ascii_of_string_of_list_ascii.
  rewrite (drop_space_none w Hw).
  rewrite drop_space_none by (by apply Forall_rev).
  by rewrite rev_involutive.
Qed.

Lemma sanitizeChars_clean w :
  Forall (λ c, unsafeChar c = false /\ is_space c = false) (sanitizeChars w)
  /\ noDoubleUnderscore (sanitizeChars w) = true.
Proof.
  unfold sanitizeChars. split; [| apply squeeze_underscores].
  apply Forall_and. split.
  - apply squeeze_chars; [reflexivity |].
    apply squeeze_chars; [reflexivity |].
    apply Forall_forall. intros c (d & -> & _)%list_elem_of_fmap.
    by destruct (unsafeChar d) eqn:Hd.
  - apply squeeze_chars; [reflexivity |].
    apply squeeze_drops. intros c Hc ->. discriminate.
Qed.

Lemma sanitizeChars_id w :
  Forall (λ c, unsafeChar c = false /\ is_space c = false) w ->
  noDoubleUnderscore w = true ->
  sanitizeChars w = w.
Proof.
  intros [Hu Hs]%Forall_and Hn. unfold sanitizeChars.
  assert (Hmap : map (λ c, if unsafeChar c then underscore else c) w = w).
  { clear Hs Hn. induction Hu as [| c w Hc _ IH]; simpl; [done |].
    by rewrite Hc, IH. }
  rewrite Hmap, (squeeze_id is_space false w Hs).
  by apply squeeze_underscores_id.
Qed.

Lemma string_length_list (s : string) :
  String.length s = length (list_ascii_of_string s).
Proof. induction s as [| c s IH]; simpl; [done | by rewrite IH]. Qed.

(** X12: The name [sanitizeFilename] gives holds none of the nine characters, no
    white space and no two underscores in a row, and is no longer than the
    name given; the closing [trim] has nothing to remove; a name that is
    clean already comes back as it is, so sanitizing twice is sanitizing
    once. *)
Theorem sanitizeFilename_clean (filename : string) :
  cleanName (sanitizeFilename filename)
  /\ sanitizeFilename filename
     = string_of_list_ascii (sanitizeChars (list_ascii_of_string filename))
  /\ (String.length (sanitizeFilename filename) <= String.length filename)%nat
  /\ (cleanName filename -> sanitizeFilename filename = filename)
  /\ sanitizeFilename (sanitizeFilename filename) = sanitizeFilename filename.
Proof.
  destruct (sanitizeChars_clean (list_ascii_of_string filename))
    as [Hc Hn].
  assert (Htrim : sanitizeFilename filename
                  = string_of_list_ascii
                      (sanitizeChars (list_ascii_of_string filename))).
  { unfold sanitizeFilename. apply trim_none.
    eapply Forall_impl; [exact Hc |]. by intros c [_ ?]. }
  assert (Hclean : cleanName (sanitizeFilename filename)).
  { unfold cleanName.
    by rewrite Htrim, list_ascii_of_string_of_list_ascii. }
  assert (Hid : forall name, cleanName name -> sanitizeFilename name = name).
  { intros name [Hc' Hn']. unfold sanitizeFilename.
    rewrite (sanitizeChars_id _ Hc' Hn').
    rewrite <- (string_of_list_ascii_of_string name) at 2.
    apply trim_none. eapply Forall_impl; [exact Hc' |]. by intros c [_ ?]. }
  split_and!; try done; [| by apply Hid | by apply Hid].
  rewrite Htrim, !string_length_list, list_ascii_of_string_of_list_ascii.
  unfold sanitizeChars.
  etrans; [apply squeeze_length |]. etrans; [apply squeeze_length |].
  by rewrite length_map.
Qed.

Lemma fold_decimal w : forall acc : Z,
  fold_left (λ acc c, (10 * acc + Z.of_nat (nat_of_ascii c - 48))%Z) w acc
  = (acc * 10 ^ Z.of_nat (length w) + decimal w)%Z.
Proof.
  unfold decimal. induction w as [| c w IH]; intros acc.
  - simpl. lia.
  - cbn [fold_left length]. rewrite IH, (IH (10 * 0 + _)%Z).
    rewrite Nat2Z.inj_succ, Z.pow_succ_r by lia. lia.
Qed.

Lemma decimal_cons c w :
  decimal (c :: w)
  = (Z.of_nat (nat_of_ascii c - 48) * 10 ^ Z.of_nat (length w)
     + decimal w)%Z.
Proof.
  unfold decimal at 1. cbn [fold_left]. rewrite fold_decimal. lia.
Qed.

Lemma pretty_N_char_value (d : N) :
  (d < 10)%N ->
  Z.of_nat (nat_of_ascii (pretty_N_char d) - 48) = Z.of_N d.
Proof.
  intros Hd.
  assert (d = 0 \/ d = 1 \/ d = 2 \/ d = 3 \/ d = 4 \/ d = 5 \/ d = 6
          \/ d = 7 \/ d = 8 \/ d = 9)%N as Hcases by lia.
  repeat (destruct Hcases as [-> | Hcases]; [reflexivity |]).
  by subst.
Qed.

(** The digits [pretty] writes denote the number written. *)
Lemma decimal_pretty_N_go (x : N) : forall s,
  decimal (list_ascii_of_string (pretty_N_go x s))
  = (Z.of_N x * 10 ^ Z.of_nat (String.length s)
     + decimal (list_ascii_of_string s))%Z.
Proof.
  induction (N.lt_wf_0 x) as [x _ IH]. intros s.
  assert (x = 0 \/ 0 < x)%N as [-> | Hpos] by lia.
  - rewrite pretty_N_go_0. lia.
  - rewrite pretty_N_go_step by done.
    rewrite (IH (x `div` 10)%N (N.div_lt x 10 Hpos eq_refl)).
    cbn [String.length list_ascii_of_string].
    rewrite decimal_cons, <- string_length_list.
    rewrite pretty_N_char_value by (apply N.mod_lt; lia).
    rewrite Nat2Z.inj_succ, Z.pow_succ_r by lia.
    rewrite (N.div_mod x 10) at 3 by lia.
    rewrite N2Z.inj_add, N2Z.inj_mul. lia.
Qed.

Lemma decimal_pretty_nat (n : nat) :
  decimal (list_ascii_of_string (pretty n)) = Z.of_nat n.
Proof.
  unfold pretty, pretty_nat, pretty, pretty_N.
  case_decide as Hz.
  - assert (n = 0%nat) as -> by lia. reflexivity.
  - rewrite decimal_pretty_N_go, nat_N_Z.
    change (decimal (list_ascii_of_string "")) with 0%Z.
    change (Z.of_nat (String.length "")) with 0%Z. lia.
Qed.

Lemma decimal_zeros m w :
  decimal (replicate m "0"%char ++ w) = decimal w.
Proof.
  induction m as [| m IH]; [done |]. simpl replicate.
  rewrite <- app_comm_cons, decimal_cons, IH. simpl. lia.
Qed.

Lemma list_ascii_of_string_app (a b : string) :
  list_ascii_of_string (a +:+ b)
  = list_ascii_of_string a ++ list_ascii_of_string b.
Proof. induction a as [| c a IH]; simpl; [done | by rewrite IH]. Qed.

(** X13: The index part of a fallback name reads back as the index, so for one
    code two fallback names are the same only for the same index. *)
Theorem getFallbackFilename_index (code : string) (i j : nat) :
  decimal (list_ascii_of_string (padStart 2 "0" (pretty i))) = Z.of_nat i
  /\ (2 <= String.length (padStart 2 "0" (pretty i)))%nat
  /\ (getFallbackFilename code i = getFallbackFilename code j <-> i = j).
Proof.
  assert (Hdec : forall k,
            decimal (list_ascii_of_string (padStart 2 "0" (pretty k)))
            = Z.of_nat k).
  { intros k. unfold padStart.
    by rewrite list_ascii_of_string_of_list_ascii, decimal_zeros,
         decimal_pretty_nat. }
  split_and!.
  - apply Hdec.
  - unfold padStart. rewrite string_length_list.
    rewrite list_ascii_of_string_of_list_ascii, length_app.
    rewrite length_replicate, <- string_length_list. lia.
  - split; [| by intros ->]. unfold getFallbackFilename. intros Heq.
    apply String.app_inj in Heq. apply String.app_inj in Heq.
    apply (f_equal list_ascii_of_string) in Heq.
    rewrite !list_ascii_of_string_app in Heq.
    apply app_inv_tail in Heq.
    apply Nat2Z.inj. by rewrite <- !Hdec, Heq.
Qed.

End FileNames.

(* ====================================================================== *)
(** * Facts: the test size on the command line *)
(* ====================================================================== *)

Section TestSize.
Import Js ScraperUtils ScrapeDocuments Props.

Lemma splitOn_none sep w :
  Forall (λ c, Ascii.eqb c sep = false) w -> splitOn sep w = [w].
Proof.
  induction 1 as [| c w Hc _ IH]; simpl; [done |]. by rewrite Hc, IH.
Qed.

Lemma splitOn_app_sep sep a w :
  Forall (λ c, Ascii.eqb c sep = false) a ->
  splitOn sep (a ++ sep :: w) = a :: splitOn sep w.
Proof.
  induction 1 as [| c a Hc _ IH]; simpl.
  - by rewrite Ascii.eqb_refl.
  - by rewrite Hc, IH.
Qed.

Lemma leadingDigits_all w :
  Forall (λ c, is_digit c = true) w -> leadingDigits w = w.
Proof.
  induction 1 as [| c w Hc _ IH]; simpl; [done |]. by rewrite Hc, IH.
Qed.

Lemma digit_plain c :
  is_digit c = true ->
  is_space c = false /\ Ascii.eqb c "-" = false /\ Ascii.eqb c "+" = false
  /\ Ascii.eqb c "=" = false.
Proof.
  intros Hd.
  assert (Hne : forall d : ascii, is_digit d = false ->
                                  Ascii.eqb c d = false).
  { intros d Hf. apply Ascii.eqb_neq. intros ->. congruence. }
  split_and!; try (apply Hne; reflexivity).
  unfold is_digit, is_space in *. cbv zeta in *.
  apply andb_true_iff in Hd as [H1 H2]. apply Nat.leb_le in H1, H2.
  destruct (Nat.leb_spec 9 (nat_of_ascii c)); simpl;
    destruct (Nat.leb_spec (nat_of_ascii c) 13); simpl; try lia;
    destruct (Nat.eqb_spec (nat_of_ascii c) 32); simpl; try lia;
    destruct (Nat.eqb_spec (nat_of_ascii c) 160); simpl; lia.
Qed.

Lemma pretty_nat_digits (n : nat) :
  exists d, list_ascii_of_string (pretty n) = d
            /\ Forall (λ c, is_digit c = true) d /\ d <> [].
Proof.
  unfold pretty, pretty_nat, pretty, pretty_N. case_decide as Hz.
  - exists ["0"%char]. split; [done |]. split; [| done].
    by repeat constructor.
  - destruct (pretty_N_go_digits (N.of_nat n) "") as (d & Hd & Hall & Hne).
    simpl in Hd. rewrite app_nil_r in Hd. exists d.
    split; [done |]. split; [exact Hall | apply Hne; lia].
Qed.

(** Up to 2^53 every integer is a double. *)
Lemma nearestDouble_exact (z : Z) :
  (Z.abs z <= 2 ^ 53)%Z -> nearestDouble z = z.
Proof.
  intros Hz. destruct (Z.eq_dec (Z.abs z) (2 ^ 53)%Z) as [Heq | Hne].
  - destruct (Z.abs_eq_or_opp z) as [H | H]; rewrite H in Heq.
    + subst z. by vm_compute.
    + assert (z = (- 2 ^ 53)%Z) as -> by lia. by vm_compute.
  - unfold nearestDouble.
    destruct (Z.eq_dec (Z.abs z) 0%Z) as [H0 | H0].
    + rewrite H0. reflexivity.
    + assert (Hlog : (Z.log2 (Z.abs z) < 53)%Z)
        by (apply Z.log2_lt_pow2; lia).
      destruct (Z.leb_spec (Z.log2 (Z.abs z) + 1 - 53)%Z 0%Z); [done | lia].
Qed.

(** The number nearest to an integer above 0 is above 0. *)
Lemma nearestDouble_pos (z : Z) : (0 < z)%Z -> (0 < nearestDouble z)%Z.
Proof.
  intros Hz. unfold nearestDouble. rewrite (Z.abs_eq z) by lia.
  destruct (Z.leb_spec (Z.log2 z + 1 - 53)%Z 0%Z) as [_ | He]; [exact Hz |].
  destruct (Z.ltb_spec z 0%Z); [lia |].
  set (unit := (2 ^ (Z.log2 z + 1 - 53))%Z).
  assert (Hu : (0 < unit)%Z) by (apply Z.pow_pos_nonneg; lia).
  assert (Hq : (1 <= z / unit)%Z).
  { apply Z.div_le_lower_bound; [exact Hu |].
    destruct (Z.log2_spec z Hz) as [Hlo _].
    assert (unit <= 2 ^ Z.log2 z)%Z
      by (apply Z.pow_le_mono_r; lia).
    lia. }
  apply Z.min_glb_lt; [| done].
  destruct (_ || _); apply Z.mul_pos_pos; lia.
Qed.

(** [parseInt] reads back the decimal text of a number, as a double. *)
Lemma parseInt_pretty (n : nat) :
  parseInt (pretty n) = Some (nearestDouble (Z.of_nat n)).
Proof.
  destruct (pretty_nat_digits n) as (d & Hd & Hall & Hne).
  pose proof (decimal_pretty_nat n) as Hval. unfold parseInt.
  rewrite Hd in *. destruct Hall as [| c w Hc Hw]; [done |].
  destruct (digit_plain c Hc) as (Hs & Hm & Hp & _).
  cbn [drop_space]. rewrite Hs, Hm, Hp. cbn [fst snd leadingDigits].
  rewrite Hc, (leadingDigits_all w Hw). by rewrite Hval.
Qed.

(** X11: The argument [--test=] followed by the decimal text of a number above 0
    sets the test size to the double nearest to that number, which up to
    2^53 is the number itself, whatever the arguments before it were, when
    no argument after it starts with [--test=]. *)
Theorem parseArgs_test_size (before after : list string) (n : nat) :
  (0 < n)%nat ->
  Forall (λ arg, String.prefix "--test=" arg = false) after ->
  let args := parseArgs ("node" :: "scrape-documents.ts" :: before
                         ++ ("--test=" +:+ pretty n) :: after) in
  test args = Some (Z.to_nat (nearestDouble (Z.of_nat n)))
  /\ ((Z.of_nat n <= 2 ^ 53)%Z -> test args = Some n).
Proof.
  intros Hn Hafter args.
  assert (Hgen : test args = Some (Z.to_nat (nearestDouble (Z.of_nat n)))).
  { subst args. unfold parseArgs. cbn [drop skipn]. rewrite drop_0.
    rewrite fold_left_app. cbn [fold_left].
    set (parsed := fold_left parseArg before _).
    assert (Hone : test (parseArg parsed ("--test=" +:+ pretty n))
                   = Some (Z.to_nat (nearestDouble (Z.of_nat n)))).
    { unfold parseArg.
      change (String.eqb ("--test=" +:+ pretty n) "--fresh") with false.
      change (String.eqb ("--test=" +:+ pretty n) "--retry") with false.
      assert (Hsplit : split "=" ("--test=" +:+ pretty n) !! 1%nat
                       = Some (pretty n)).
      { unfold split. destruct (pretty_nat_digits n) as (d & Hd & Hall & _).
        rewrite list_ascii_of_string_app, Hd.
        change (list_ascii_of_string "--test=" ++ d)
          with (list_ascii_of_string "--test" ++ "="%char :: d).
        rewrite splitOn_app_sep by (by repeat constructor).
        rewrite splitOn_none.
        - simpl. by rewrite <- Hd, string_of_list_ascii_of_string.
        - eapply Forall_impl; [exact Hall |]. intros c Hc.
          by destruct (digit_plain c Hc) as (_ & _ & _ & ?). }
      assert (Hpre : String.prefix "--test=" ("--test=" +:+ pretty n) = true).
      { generalize (pretty n). intros s. apply String.prefix_correct.
        simpl. by destruct s. }
      rewrite Hpre, Hsplit. simpl. rewrite parseInt_pretty.
      pose proof (nearestDouble_pos (Z.of_nat n) ltac:(lia)).
      by destruct (Z.ltb_spec 0%Z (nearestDouble (Z.of_nat n))); [| lia]. }
    revert Hone. generalize (parseArg parsed ("--test=" +:+ pretty n)).
    clear parsed. induction Hafter as [| arg after Harg _ IH]; intros p Hp;
      simpl; [done |].
    apply IH. destruct (parseArg_step p arg) as (_ & _ & Ht).
    unfold parseArg in *. rewrite Harg in *.
    by destruct (String.eqb arg "--fresh"), (String.eqb arg "--retry"). }
  split; [exact Hgen |].
  intros Hsmall. rewrite Hgen, nearestDouble_exact by lia.
  by rewrite Nat2Z.id.
Qed.

Lemma parseArgs_test_size_witness :
  test (parseArgs ["node"; "scrape-documents.ts"; "--fresh"; "--test=25";
                   "--verbose"]) = Some 25%nat.
Proof.
  apply (parseArgs_test_size ["--fresh"] ["--verbose"] 25);
    [lia | by repeat constructor | by vm_compute].
Defined.

End TestSize.

(* ====================================================================== *)
(** * Facts: the scraper command and the batch that runs it *)
(* ====================================================================== *)

Section ScraperCommand.
Import Js ScraperUtils ProcessBatch ScraperCli Props.

Lemma strict_is_described code : strictPattern code -> describedPattern code.
Proof.
  intros (a & b & l & Hcode & Ha & Hda & Hb & Hdb & Hl & Hul).
  exists a, b, l, ["2"%char; "5"%char].
  split_and!; try done; try lia. by repeat constructor.
Qed.

(** X28: Every code that [isValidCode] accepts passes the check of the command,
    so the codes [extractUniqueCodes] yields all do, and the command takes
    such a code to the browser; the check of the command is the weaker one:
    it lets [1-1-AB99] through, which [isValidCode] rejects. *)
Theorem valid_codes_pass_the_command (rows : list Purchase) :
  (forall code, isValidCode code = true ->
     ScraperSingle.hasBasicFormat code = true)
  /\ (forall code, code ∈ extractUniqueCodes rows ->
        ScraperSingle.hasBasicFormat code = true)
  /\ (forall visit code, isValidCode code = true ->
        ScraperCli.main visit (Some code)
        = match ScraperCli.processSingleCode visit code with
          | inl result =>
              {| printed := result;
                 status := if sr_success result then 0 else 1 |}
          | inr errorMessage =>
              failed code ("Unexpected error: " +:+ errorMessage)
          end)
  /\ (ScraperSingle.hasBasicFormat "1-1-AB99" = true
      /\ isValidCode "1-1-AB99" = false).
Proof.
  assert (Hbasic : forall code, isValidCode code = true ->
                     ScraperSingle.hasBasicFormat code = true).
  { intros code Hv. apply hasBasicFormat_described, strict_is_described.
    by apply isValidCode_strict. }
  split_and!; try done.
  - intros code Hin. apply Hbasic. unfold extractUniqueCodes in Hin.
    apply elem_of_sort, elem_of_collected in Hin
      as [Hin | (row & _ & raw & _ & _ & Hv)]; [| exact Hv].
    by apply elem_of_nil in Hin.
  - intros visit code Hv. unfold ScraperCli.main.
    by rewrite (isValidCode_truthy code Hv), (Hbasic code Hv).
Qed.

Lemma main_status visit argument :
  let out := ScraperCli.main visit argument in
  (status out = 0%nat
   /\ sr_success (printed out) = true
   /\ exists code fileNames,
        argument = Some code
        /\ ScraperSingle.hasBasicFormat code = true
        /\ visit code = Visited fileNames
        /\ printed out
           = mkScraperResult true code
               (Some (map (λ f, codeDirectory code +:+ "/" +:+ f) fileNames))
               (Some (length fileNames)) None)
  \/ (status out = 1%nat /\ sr_success (printed out) = false
      /\ is_Some (sr_error (printed out))).
Proof.
  unfold ScraperCli.main.
  destruct argument as [code |]; [| by right; split_and!; eauto].
  destruct (truthy code); simpl; [| by right; split_and!; eauto].
  destruct (ScraperSingle.hasBasicFormat code) eqn:Hb; simpl;
    [| by right; split_and!; eauto].
  unfold ScraperCli.processSingleCode.
  destruct (visit code) as [m | | fileNames | m] eqn:Hv; simpl;
    try (by right; split_and!; eauto).
  left. split_and!; try done. exists code, fileNames.
  by rewrite length_map.
Qed.

Lemma execScraper_cases (m : Machine) (code : string) :
  match execScraper m code with
  | Printed sr =>
      sr_success sr = true
      /\ exists argument fileNames,
           shell m code = Some (Some argument)
           /\ ScraperSingle.hasBasicFormat argument = true
           /\ visit m argument = Visited fileNames
           /\ sr_count sr = Some (length fileNames)
  | ExecFailed stderr message =>
      stderr = stderrOf m code /\ message = commandFailed m code
  | PrintedGarbage _ => False
  end.
Proof.
  unfold execScraper. destruct (shell m code) as [argument |]; [| done].
  destruct (main_status (visit m) argument)
    as [(-> & Hs & c & names & -> & Hb & Hv & ->) | (-> & _)]; simpl;
    [| done].
  split; [done |]. exists c, names. done.
Qed.

(** X29: The command exits with status 0 exactly when the object it prints is a
    success, and it prints a success only for an argument that passes the
    basic check and whose visit ran through. Run by process-batch.ts, a
    failure of the command is therefore an exception of [execSync], never a
    printed object: a failed result of [processSingleCode] either follows a
    failed command, and then its error is "Scraper failed: ..." with the
    error output or the message of [execSync], or follows a command that
    printed a success, and then its error is "Download directory not found",
    "No files downloaded" or the message of what the listing of the
    directory or the steps after it threw; it is never the error the command
    printed. What [processSingleCode] itself throws is what the removal of
    the directory threw. *)
Theorem scraper_failure_is_thrown (m : Machine) (world : Runtime.World)
    (code now : string) :
  Runtime.runScraper world = execScraper m ->
  (forall visit argument,
     status (ScraperCli.main visit argument) = 0%nat
     <-> sr_success (printed (ScraperCli.main visit argument)) = true)
  /\ match Runtime.runScraper world code with
     | Printed sr =>
         sr_success sr = true
         /\ exists argument fileNames,
              shell m code = Some (Some argument)
              /\ ScraperSingle.hasBasicFormat argument = true
              /\ visit m argument = Visited fileNames
              /\ sr_count sr = Some (length fileNames)
     | ExecFailed stderr message =>
         stderr = stderrOf m code /\ message = commandFailed m code
     | PrintedGarbage _ => False
     end
  /\ (forall result log,
        Runtime.processSingleCode world code now = (Ok result, log) ->
        Runtime.r_success result = false ->
        (Runtime.runScraper world code
         = ExecFailed (stderrOf m code) (commandFailed m code)
         /\ Runtime.r_error result
            = Some ("Scraper failed: " +:+
                    (if truthy (stderrOf m code) then stderrOf m code
                     else commandFailed m code)))
        \/ (exists sr,
              Runtime.runScraper world code = Printed sr
              /\ sr_success sr = true
              /\ (Runtime.r_error result = Some "Download directory not found"
                  \/ Runtime.r_error result = Some "No files downloaded"
                  \/ exists e,
                       Runtime.r_error result
                       = Some (Runtime.messageOf world e)
                       /\ (Runtime.readdir world code = Throw e
                           \/ exists names,
                                Runtime.readdir world code = Ok names
                                /\ Runtime.buildOrder world code now
                                     (map (λ f, codeDirOf code +:+ "/" +:+ f)
                                          names)
                                   = Throw e))))
  /\ (forall e log,
        Runtime.processSingleCode world code now = (Throw e, log) ->
        Runtime.existsDir world code = true
        /\ Runtime.rmSync world code = Throw e).
Proof.
  intros Hrun.
  assert (Hstatus : forall visit argument,
            status (ScraperCli.main visit argument) = 0%nat
            <-> sr_success (printed (ScraperCli.main visit argument)) = true).
  { intros v a.
    destruct (main_status v a) as [(-> & -> & _) | (-> & -> & _)]; done. }
  pose proof (execScraper_cases m code) as Hexec.
  split; [exact Hstatus |]. rewrite Hrun. split; [exact Hexec |].
  unfold Runtime.processSingleCode, Runtime.tryProcess. rewrite Hrun.
  destruct (execScraper m code) as [stderr message | stdout | sr];
    [| done |].
  - destruct Hexec as [-> ->]. cbn [fst snd Runtime.messageOf]. split.
    + intros result log Hres _. left. split; [done |].
      destruct (Runtime.existsDir world code);
        [destruct (Runtime.rmSync world code) |];
        revert Hres; by intros [= <- _].
    + intros e log.
      destruct (Runtime.existsDir world code);
        [destruct (Runtime.rmSync world code) eqn:Hrm |]; try done.
      by intros [= <- _].
  - destruct Hexec as [Hs _]. rewrite Hs. cbn [negb].
    destruct (Runtime.existsDir world code) eqn:Hdir; cbn [negb fst snd].
    2:{ split; [| done]. intros result log [= <- _] _. right.
        exists sr. split_and!; try done. by left. }
    destruct (Runtime.readdir world code) as [names | e0] eqn:Hnames;
      cbv zeta; cbn [fst snd].
    2:{ split.
        - intros result log Hres _. right. exists sr. split_and!; try done.
          right. right. exists e0.
          destruct (Runtime.rmSync world code); [| done].
          revert Hres. intros [= <- _]. split; [done | by left].
        - intros e log.
          destruct (Runtime.rmSync world code) eqn:Hrm; [done |].
          by intros [= <- _]. }
    destruct (length _ =? 0)%nat; cbn [fst snd].
    { split; [| done]. intros result log [= <- _] _. right.
      exists sr. split_and!; try done. right. by left. }
    destruct (Runtime.buildOrder _ _ _ _) as [order | e0] eqn:Hbuild;
      cbn [fst snd].
    { split; [| done]. by intros result log [= <- _]. }
    split.
    + intros result log Hres _. right. exists sr. split_and!; try done.
      right. right. exists e0.
      destruct (Runtime.rmSync world code); [| done].
      revert Hres. intros [= <- _]. split; [done |]. right. by exists names.
    + intros e log.
      destruct (Runtime.rmSync world code) eqn:Hrm; [done |].
      by intros [= <- _].
Qed.

Lemma scraper_failure_is_thrown_witness :
  let m := {| shell := λ code, Some (Some code);
              visit := λ _, NotFound;
              stderrOf := λ _, "[DEBUG] Found 0 matching links";
              commandFailed := λ _, "Command failed" |} in
  let world := {| Runtime.runScraper := execScraper m;
                  Runtime.parseMessage := λ _, "Unexpected token";
                  Runtime.existsDir := λ _, false;
                  Runtime.readdir := λ _, Ok [];
                  Runtime.processFiles := λ _, [];
                  Runtime.rmSync := λ _, Ok tt |} in
  Runtime.runScraper world = execScraper m
  /\ exists result,
       fst (Runtime.processSingleCode world "3506-434-SE25"
              "2025-12-15T10:00:00Z") = Ok result
       /\ Runtime.r_error result
          = Some "Scraper failed: [DEBUG] Found 0 matching links".
Proof.
  intros m world. split; [reflexivity |].
  destruct (scraper_failure_is_thrown m world "3506-434-SE25"
              "2025-12-15T10:00:00Z" eq_refl) as (_ & _ & Herr & _).
  eexists. split; [vm_compute; reflexivity |].
  destruct (Herr _ _ eq_refl eq_refl) as [[_ H] | (sr & H & _)];
    [exact H |].
  vm_compute in H. discriminate.
Defined.

End ScraperCommand.

(* ====================================================================== *)
(** * Facts: the extraction of gemini-processor.ts *)
(* ====================================================================== *)

Section Extraction.
Import Js GeminiProcessor DataManager ProcessBatch Props.

Lemma tryProcessFile_cases g index filePath :
  (exists content text json d,
     tryProcessFile g index filePath
     = Ok (mkFileResult (basename filePath) true (Some d) None)
     /\ truthy (default "" (apiKey g)) = true
     /\ readFileSync g filePath = Ok content
     /\ generateContent g index content (mimeTypeOf filePath) = Ok text
     /\ extractJson text = Some json
     /\ parseJson g json = Ok d /\ legible d = true)
  \/ (exists error,
        tryProcessFile g index filePath
        = Ok (mkFileResult (basename filePath) false None (Some error)))
  \/ (exists e, tryProcessFile g index filePath = Throw e).
Proof.
  unfold tryProcessFile.
  destruct (truthy (default "" (apiKey g))) eqn:Hkey; simpl;
    [| right; right; eauto].
  destruct (readFileSync g filePath) as [content | e] eqn:Hread; simpl;
    [| right; right; eauto].
  destruct (generateContent g index content (mimeTypeOf filePath))
    as [text | e] eqn:Hgen; simpl; [| right; right; eauto].
  destruct (extractJson text) as [json |] eqn:Hjson; [| right; left; eauto].
  destruct (parseJson g json) as [d | e] eqn:Hparse; simpl;
    [| right; right; eauto].
  destruct (legible d) eqn:Hleg; simpl; [| right; left; eauto].
  left. exists content, text, json, d. done.
Qed.

(** What [processFile] answers, by the cases of its [try] block. *)
Lemma processFile_cases (g : Gemini) (index : nat)
    (filePath : string) :
  let r := processFile g index filePath in
  filename r = basename filePath
  /\ (success r = true ->
        error r = None
        /\ exists content text json d,
             data r = Some d /\ legible d = true
             /\ readFileSync g filePath = Ok content
             /\ generateContent g index content (mimeTypeOf filePath)
                = Ok text
             /\ extractJson text = Some json
             /\ parseJson g json = Ok d)
  /\ (success r = false -> data r = None /\ is_Some (error r))
  /\ isSuccessful r = success r
  /\ (truthy (default "" (apiKey g)) = false ->
        r = mkFileResult (basename filePath) false None
              (Some "GOOGLE_AI_API_KEY environment variable is not set")).
Proof.
  intros r. subst r. unfold processFile, isSuccessful.
  destruct (tryProcessFile_cases g index filePath)
    as [(content & text & json & d & Ht & Hkey & Hr & Hg & Hj & Hp & Hl)
       | [(error & Ht) | (e & Ht)]]; rewrite Ht; simpl.
  - split_and!; try done.
    + intros _. split; [done |]. exists content, text, json, d. done.
    + intros Hno. congruence.
  - split_and!; try done; try (by intros _; eauto).
    intros Hno. revert Ht. unfold tryProcessFile. rewrite Hno. simpl.
    discriminate.
  - split_and!; try done; try (by intros _; eauto).
    intros Hno. revert Ht. unfold tryProcessFile. rewrite Hno. simpl.
    by intros [= <-].
Qed.

(** X24: [processFile] never throws, and names its result after the file. A
    success carries the data that the service answered, which are legible,
    and no error; a failure carries an error and no data; so the success
    flag alone tells what [comparAndMark] counts. Without the API key the
    result is the failure that says so, whatever the file. *)
Theorem processFile_result_shape (g : Gemini) (index : nat)
    (filePath : string) :
  let r := processFile g index filePath in
  filename r = basename filePath
  /\ (success r = true ->
        error r = None
        /\ exists content text json d,
             data r = Some d /\ legible d = true
             /\ readFileSync g filePath = Ok content
             /\ generateContent g index content (mimeTypeOf filePath)
                = Ok text
             /\ extractJson text = Some json
             /\ parseJson g json = Ok d)
  /\ (success r = false -> data r = None /\ is_Some (error r))
  /\ isSuccessful r = success r
  /\ (truthy (default "" (apiKey g)) = false ->
        r = mkFileResult (basename filePath) false None
              (Some "GOOGLE_AI_API_KEY environment variable is not set")).
Proof. exact (processFile_cases g index filePath). Qed.

Lemma before_app c a w :
  Forall (λ d, Ascii.eqb d c = false) a -> before c (a ++ c :: w) = a.
Proof.
  induction 1 as [| d a Hd _ IH]; simpl.
  - by rewrite Ascii.eqb_refl.
  - by rewrite Hd, IH.
Qed.

Lemma basename_join (dir name : string) :
  name <> "" -> "/"%char ∉ list_ascii_of_string name ->
  basename (dir +:+ "/" +:+ name) = name.
Proof.
  intros Hne Hslash. unfold basename.
  rewrite list_ascii_of_string_app.
  change (list_ascii_of_string ("/" +:+ name))
    with ("/"%char :: list_ascii_of_string name).
  rewrite rev_app_distr. cbn [rev]. rewrite <- app_assoc. cbn [app].
  assert (Hno : Forall (λ d, Ascii.eqb d "/" = false)
                       (rev (list_ascii_of_string name))).
  { apply Forall_rev, Forall_forall. intros d Hd.
    apply Ascii.eqb_neq. intros ->. contradiction. }
  assert (Hdrop : forall rest,
            dropLeading "/" (rev (list_ascii_of_string name) ++ rest)
            = rev (list_ascii_of_string name) ++ rest).
  { intros rest.
    remember (rev (list_ascii_of_string name)) as r eqn:Hrev.
    destruct r as [| d w].
    - exfalso. apply Hne.
      rewrite <- (string_of_list_ascii_of_string name).
      by rewrite <- (rev_involutive (list_ascii_of_string name)), <- Hrev.
    - apply Forall_cons in Hno as [Hd _]. simpl. by rewrite Hd. }
  rewrite Hdrop, before_app by done.
  by rewrite rev_involutive, string_of_list_ascii_of_string.
Qed.

Lemma sleepsOf_pauses {A} (l : list A) (ms : Z) :
  sleepsOf (map (λ _, Sleep ms) l) = replicate (length l) ms.
Proof. induction l as [| x l IH]; simpl; [done | by rewrite <- IH]. Qed.

(** X25: [processFiles] answers for every path, in the order given, with the
    result [processFile] has for it, and pauses 4000 ms after each; every
    result that is flagged a success carries data, so the results that
    [comparAndMark] counts are the flagged ones; and for the paths that
    process-batch.ts builds from a directory listing, the results bear the
    names of the listing. *)
Theorem processFiles_in_order (g : Gemini) (filePaths : list string) :
  let out := GeminiProcessor.processFiles g filePaths in
  length (fst out) = length filePaths
  /\ (forall i filePath, filePaths !! i = Some filePath ->
        fst out !! i = Some (processFile g i filePath))
  /\ map filename (fst out) = map basename filePaths
  /\ sleepsOf (snd out) = replicate (length filePaths) 4000%Z
  /\ (forall r, r ∈ fst out -> success r = true -> is_Some (data r))
  /\ successfulOf (fst out) = filter (λ r, success r = true) (fst out)
  /\ (forall dir names,
        Forall (λ f, f <> "" /\ "/"%char ∉ list_ascii_of_string f) names ->
        filePaths = map (λ f, dir +:+ "/" +:+ f) names ->
        map filename (fst out) = names).
Proof.
  intros out. subst out. unfold GeminiProcessor.processFiles. simpl.
  assert (Hnames : map filename (imap (processFile g) filePaths)
                   = map basename filePaths).
  { apply list_eq. intros i.
    change (map ?f ?l) with (f <$> l).
    rewrite !list_lookup_fmap, list_lookup_imap.
    destruct (filePaths !! i) as [filePath |]; simpl; [| done].
    f_equal. apply processFile_cases. }
  assert (Hdata : forall r, r ∈ imap (processFile g) filePaths ->
                    success r = true -> is_Some (data r)).
  { intros r (i & filePath & -> & _)%elem_of_lookup_imap Hs.
    destruct (processFile_cases g i filePath)
      as (_ & Hok & _). cbv zeta in Hok.
    destruct (Hok Hs) as (_ & _ & _ & _ & d & Hd & _). eauto. }
  split_and!.
  - apply length_imap.
  - intros i filePath Hi. by rewrite list_lookup_imap, Hi.
  - exact Hnames.
  - apply sleepsOf_pauses.
  - exact Hdata.
  - by apply successfulOf_flagged.
  - intros dir names Hall ->. rewrite Hnames, map_map.
    clear Hnames Hdata.
    induction Hall as [| f names [Hne Hslash] _ IH]; simpl; [done |].
    by rewrite basename_join, IH.
Qed.







Lemma elem_of_rev {A} (x : A) (l : list A) : x ∈ rev l <-> x ∈ l.
Proof. rewrite !list_elem_of_In. symmetry. apply in_rev. Qed.

Lemma fromFirst_Some c w r :
  fromFirst c w = Some r ->
  exists pre, w = pre ++ r /\ head r = Some c /\ c ∉ pre.
Proof.
  induction w as [| d w IH]; simpl; [discriminate |].
  destruct (Ascii.eqb d c) eqn:Hd.
  - intros [= <-]. apply Ascii.eqb_eq in Hd as ->.
    exists []. split_and!; try done. apply not_elem_of_nil.
  - intros (pre & -> & Hh & Hpre)%IH. exists (d :: pre).
    split_and!; try done. apply not_elem_of_cons. split; [| done].
    intros ->. by rewrite Ascii.eqb_refl in Hd.
Qed.

Lemma fromFirst_None c w : fromFirst c w = None <-> c ∉ w.
Proof.
  induction w as [| d w IH]; simpl.
  - split; [intros _; apply not_elem_of_nil | done].
  - destruct (Ascii.eqb d c) eqn:Hd.
    + apply Ascii.eqb_eq in Hd as ->. split; [done |].
      intros Hn. exfalso. apply Hn, list_elem_of_here.
    + rewrite IH, not_elem_of_cons. split; [| tauto].
      intros Hn. split; [| done]. intros ->.
      by rewrite Ascii.eqb_refl in Hd.
Qed.

Lemma upToLast_Some c w r :
  upToLast c w = Some r ->
  exists body post, w = body ++ c :: post /\ r = body ++ [c] /\ c ∉ post.
Proof.
  unfold upToLast.
  destruct (fromFirst c (rev w)) as [r' |] eqn:Hf; [| discriminate].
  intros [= <-]. apply fromFirst_Some in Hf as (pre & Hw & Hh & Hpre).
  destruct r' as [| d body']; [discriminate |]. injection Hh as ->.
  exists (rev body'), (rev pre). split_and!.
  - rewrite <- (rev_involutive w), Hw, rev_app_distr. simpl.
    by rewrite <- app_assoc.
  - done.
  - by rewrite elem_of_rev.
Qed.

Lemma upToLast_None c w : upToLast c w = None <-> c ∉ w.
Proof.
  unfold upToLast. rewrite <- (elem_of_rev c w).
  rewrite <- fromFirst_None. by destruct (fromFirst c (rev w)).
Qed.

(** X26: The text [processFile] hands to [JSON.parse] runs from the first
    opening brace of the response to its last closing brace, and there is
    such a text exactly when some closing brace comes after some opening
    brace. *)
Theorem extractJson_greedy (text : string) :
  (forall json, extractJson text = Some json ->
     exists pre body post,
       list_ascii_of_string text = pre ++ "{"%char :: body ++ "}"%char :: post
       /\ list_ascii_of_string json = "{"%char :: body ++ ["}"%char]
       /\ ("{"%char ∉ pre) /\ ("}"%char ∉ post))
  /\ (extractJson text = None <->
      ~ exists pre body post,
          list_ascii_of_string text
          = pre ++ "{"%char :: body ++ "}"%char :: post).
Proof.
  assert (Hsome : forall json, extractJson text = Some json ->
            exists pre body post,
              list_ascii_of_string text
              = pre ++ "{"%char :: body ++ "}"%char :: post
              /\ list_ascii_of_string json = "{"%char :: body ++ ["}"%char]
              /\ ("{"%char ∉ pre) /\ ("}"%char ∉ post)).
  { intros json. unfold extractJson.
    destruct (fromFirst "{" (list_ascii_of_string text)) as [r |] eqn:Hf;
      [| discriminate].
    apply fromFirst_Some in Hf as (pre & Htext & Hh & Hpre).
    destruct r as [| brace rest]; [discriminate |]. injection Hh as ->.
    destruct (upToLast "}" rest) as [r |] eqn:Hu; [| discriminate].
    apply upToLast_Some in Hu as (body & post & -> & -> & Hpost).
    intros [= <-]. exists pre, body, post.
    cbn [list_ascii_of_string].
    by rewrite list_ascii_of_string_of_list_ascii. }
  split; [exact Hsome |]. split.
  - intros Hnone (pre' & body' & post' & Htext). revert Hnone.
    unfold extractJson.
    destruct (fromFirst "{" (list_ascii_of_string text)) as [r |] eqn:Hf.
    + apply fromFirst_Some in Hf as (pre & Hw & Hh & Hpre).
      destruct r as [| brace rest]; [discriminate |]. injection Hh as ->.
      destruct (upToLast "}" rest) as [r |] eqn:Hu; [discriminate |].
      intros _. apply upToLast_None in Hu. apply Hu.
      rewrite Htext in Hw.
      apply app_eq_inv in Hw as [(k & -> & Hk) | (k & -> & Hk)].
      * destruct k as [| d k]; simpl in Hk; injection Hk as Hk; subst.
        -- apply elem_of_app. right. apply list_elem_of_here.
        -- apply elem_of_app. right. apply list_elem_of_further.
           apply elem_of_app. right. apply list_elem_of_here.
      * destruct k as [| d k]; simpl in Hk; injection Hk as Hk; subst.
        -- apply elem_of_app. right. apply list_elem_of_here.
        -- exfalso. apply Hpre.
           apply elem_of_app. right. apply list_elem_of_here.
    + intros _. apply fromFirst_None in Hf. apply Hf. rewrite Htext.
      apply elem_of_app. right. apply list_elem_of_here.
  - intros Hno. destruct (extractJson text) as [json |] eqn:He; [| done].
    exfalso. apply Hno.
    destruct (Hsome json eq_refl) as (pre & body & post & Ht & _). eauto.
Qed.

Lemma lowerChar_idem c : lowerChar (lowerChar c) = lowerChar c.
Proof. destruct c as [[] [] [] [] [] [] [] []]; reflexivity. Qed.

Lemma toLowerCase_idem s : toLowerCase (toLowerCase s) = toLowerCase s.
Proof.
  unfold toLowerCase. rewrite list_ascii_of_string_of_list_ascii, map_map.
  f_equal. apply map_ext. intros c. apply lowerChar_idem.
Qed.

(** X27: The MIME type sent with a file is one of three, does not depend on the
    case of the letters of the path, and is [application/pdf] for every path
    that ends in none of [.jpg], [.jpeg] and [.png]. *)
Theorem mimeTypeOf_cases (filePath : string) :
  mimeTypeOf filePath ∈ ["application/pdf"; "image/jpeg"; "image/png"]
  /\ mimeTypeOf (toLowerCase filePath) = mimeTypeOf filePath
  /\ (endsWith (toLowerCase filePath) ".jpg" = false ->
      endsWith (toLowerCase filePath) ".jpeg" = false ->
      endsWith (toLowerCase filePath) ".png" = false ->
      mimeTypeOf filePath = "application/pdf").
Proof.
  unfold mimeTypeOf. rewrite toLowerCase_idem. split_and!; [| done |].
  - destruct (endsWith _ ".pdf"); [apply list_elem_of_here |].
    destruct (endsWith _ ".jpg" || endsWith _ ".jpeg");
      [apply list_elem_of_further, list_elem_of_here |].
    destruct (endsWith _ ".png"); [| apply list_elem_of_here].
    do 2 apply list_elem_of_further. apply list_elem_of_here.
  - intros -> -> ->. simpl. by destruct (endsWith _ ".pdf").
Qed.

End Extraction.

(* ====================================================================== *)
(** * Facts: the classifier does not depend on the order of the files *)
(* ====================================================================== *)

Section FileOrder.
Import Js GeminiProcessor Props.





End FileOrder.

(* ====================================================================== *)
(** * Facts: the rows of the purchases file *)
(* ====================================================================== *)

Section CsvRows.
Import Js ScraperUtils CsvUtils Props.








End CsvRows.

(* ====================================================================== *)
(** * Facts: the registry queries, and a retry that succeeds *)
(* ====================================================================== *)

Section RegistryAndRetry.
Import Js ScraperUtils ScrapeDocuments Props.

(** X9: The three ways to ask the registry about a code agree; a code just
    added is found, a code that is found is not added again, adding keeps
    what was found, and the new codes after adding one are the new codes
    before without it. *)
Theorem registry_queries_agree (r : ScrapedCodesRegistry) (code now : string)
    (allCodes : list string) :
  (isAlreadyScraped r code = true <-> code ∈ getScrapedCodesSet r)
  /\ (forall c, c ∈ getNewCodesToScrape allCodes r
        <-> c ∈ allCodes /\ isAlreadyScraped r c = false)
  /\ isAlreadyScraped (addToScrapedRegistry r code now) code = true
  /\ (isAlreadyScraped r code = true -> addToScrapedRegistry r code now = r)
  /\ (forall c, isAlreadyScraped r c = true ->
        isAlreadyScraped (addToScrapedRegistry r code now) c = true)
  /\ getNewCodesToScrape allCodes (addToScrapedRegistry r code now)
     = filter (λ c, c <> code) (getNewCodesToScrape allCodes r).
Proof.
  unfold isAlreadyScraped, getScrapedCodesSet, includes.
  split_and!.
  - by rewrite bool_decide_eq_true, elem_of_list_to_set.
  - intros c. rewrite getNewCodesToScrape_filter, list_elem_of_filter.
    rewrite bool_decide_eq_false. tauto.
  - apply bool_decide_eq_true, addToScrapedRegistry_elem.
  - intros Hin. unfold addToScrapedRegistry, includes. by rewrite Hin.
  - intros c Hc%bool_decide_eq_true. apply bool_decide_eq_true.
    apply elem_of_addToScrapedRegistry. by left.
  - rewrite !getNewCodesToScrape_filter, list_filter_filter.
    apply list_filter_iff. intros c.
    rewrite elem_of_addToScrapedRegistry. split.
    + intros Hn. split; [intros ->; apply Hn; by right |].
      intros Hc. apply Hn. by left.
    + intros [Hne Hn] [Hc | ->]; done.
Qed.

(** X6: A code whose fetch succeeds keeps the failed entry it had: the failed
    list and its counter stay as they were, so the next retry run offers the
    code again, and outside fresh mode skips it as processed. *)
Theorem successful_retry_keeps_failed_entry (args : CliArgs)
    (browser : Browser) (clock : string -> string) (total : nat)
    (st : Session) (code : string) :
  skipped args st code = false ->
  dr_success (fst (processCode browser code 1)) = true ->
  let st' := runTask args browser clock total st code in
  failedCodes (checkpoint st') = failedCodes (checkpoint st)
  /\ ScraperUtils.totalFailed (checkpoint st')
     = ScraperUtils.totalFailed (checkpoint st)
  /\ (forall allCodes,
        codesToProcess {| fresh := false; test := None; retry := true |}
                       allCodes (registry st') (checkpoint st')
        = getRetryableCodes (checkpoint st))
  /\ skipped {| fresh := false; test := None; retry := true |} st' code
     = true.
Proof.
  intros Hskip Hs st'.
  destruct (task_checkpoint_lists (fresh args) (checkpoint st) code)
    as (_ & Hf0 & _).
  assert (Ht0 : ScraperUtils.totalFailed
                  (if fresh args then checkpoint st
                   else snd (isProcessed (checkpoint st) code))
                = ScraperUtils.totalFailed (checkpoint st))
    by (by destruct (fresh args)).
  destruct (runTask_cases args browser clock total st code)
    as [(Hsk & _) | [(_ & _ & Hc & _) | (_ & Hfail & _)]];
    [congruence | | congruence].
  fold st' in Hc.
  assert (Hfailed : failedCodes (checkpoint st') = failedCodes (checkpoint st))
    by (by rewrite Hc, markProcessed_failed, Hf0).
  split_and!.
  - exact Hfailed.
  - rewrite Hc. unfold markProcessed. by case_bool_decide.
  - intros allCodes. unfold codesToProcess, getRetryableCodes. simpl.
    by rewrite Hfailed.
  - unfold skipped. simpl. apply bool_decide_eq_true. rewrite Hc.
    apply markProcessed_cache.
Qed.

Lemma successful_retry_keeps_failed_entry_witness :
  let args := {| fresh := false; test := None; retry := true |} in
  let st := startSession
              (markFailed (emptyCheckpoint "2025-12-15T09:00:00Z")
                          "3506-434-SE25" "Timeout" 1 "2025-12-15T09:30:00Z")
              (emptyRegistry "2025-12-15T09:00:00Z") Absent Absent in
  let st' := runTask args mixedBrowser (λ _, "2025-12-15T10:00:00Z") 1 st
                     "3506-434-SE25" in
  "3506-434-SE25" ∈ codes (registry st')
  /\ getRetryableCodes (checkpoint st') = ["3506-434-SE25"].
Proof.
  intros args st st'. split; [vm_compute; repeat constructor |].
  destruct (successful_retry_keeps_failed_entry args mixedBrowser
              (λ _, "2025-12-15T10:00:00Z") 1 st "3506-434-SE25"
              eq_refl eq_refl) as (Hf & _).
  subst st'. unfold getRetryableCodes. rewrite Hf. reflexivity.
Defined.

End RegistryAndRetry.

(* ====================================================================== *)
(** * Further worked cases *)
(* ====================================================================== *)

Section FurtherCases.
Import Js ScraperUtils ScrapeDocuments GeminiProcessor CsvUtils Props.

Example parseInt_samples :
  parseInt "  42px" = Some 42%Z /\ parseInt "-7" = Some (-7)%Z
  /\ parseInt "007" = Some 7%Z /\ parseInt "+15" = Some 15%Z
  /\ parseInt "abc" = None /\ parseInt "" = None /\ parseInt "+" = None.
Proof. vm_compute. done. Qed.

Example parseArgs_last_test_wins :
  parseArgs ["node"; "scrape-documents.ts"; "--test=5"; "--fresh";
             "--test=abc"; "--test=3=4"]
  = {| fresh := true; test := Some 3%nat; retry := false |}.
Proof. vm_compute. reflexivity. Qed.

Example parseArgs_zero_is_no_test :
  parseArgs ["node"; "scrape-documents.ts"; "--test=0"; "--retry";
             "--test="; "--test"]
  = {| fresh := false; test := None; retry := true |}.
Proof. vm_compute. reflexivity. Qed.

Example sanitizeFilename_sample :
  sanitizeFilename "Orden de  Compra: 3506/434 <final>__v2?.pdf"
  = "Orden_de_Compra_3506_434_final_v2_.pdf"
  /\ sanitizeFilename " a_ _b  " = "_a_b_".
Proof. vm_compute. done. Qed.

Example getFallbackFilename_samples :
  getFallbackFilename "3506-434-SE25" 3 = "3506-434-SE25_03.pdf"
  /\ getFallbackFilename "3506-434-SE25" 12 = "3506-434-SE25_12.pdf".
Proof. vm_compute. done. Qed.

Example basename_samples :
  basename "docs/downloads/3506-434-SE25/orden.pdf" = "orden.pdf"
  /\ basename "a/b/" = "b" /\ basename "/" = "" /\ basename "x" = "x".
Proof. vm_compute. done. Qed.

Example extractJson_samples :
  extractJson "Here it is: {a: {b: 1}} and } more" = Some "{a: {b: 1}} and }"
  /\ extractJson "no json" = None /\ extractJson "} {" = None
  /\ extractJson "{}" = Some "{}".
Proof. vm_compute. done. Qed.

Example mimeTypeOf_samples :
  mimeTypeOf "a/B.PDF" = "application/pdf"
  /\ mimeTypeOf "foto.JPeG" = "image/jpeg"
  /\ mimeTypeOf "foto.png" = "image/png"
  /\ mimeTypeOf "anexo.docx" = "application/pdf".
Proof. vm_compute. done. Qed.

Example split_samples :
  split "," "a,b,,c" = ["a"; "b"; ""; "c"] /\ split "," "" = [""]
  /\ split "=" "--test=3=4" = ["--test"; "3"; "4"].
Proof. vm_compute. done. Qed.

Example parseCsv_sample :
  let newline := string_of_list_ascii [ascii_of_nat 10] in
  map asPurchase
    (fst (parseCsv (Some ("id,chilecompra_code,item_id" +:+ newline +:+
                          "1, 3506-434-SE25 ,77" +:+ newline +:+
                          "2,," +:+ newline +:+ "3" +:+ newline))))
  = [mkPurchase "1" (Some " 3506-434-SE25 ") "" "" "" "" "" "" "" "77";
     mkPurchase "2" (Some "") "" "" "" "" "" "" "" "";
     mkPurchase "3" (Some "") "" "" "" "" "" "" "" ""].
Proof. vm_compute. reflexivity. Qed.

Example parseInt_rounds :
  parseInt "9007199254740993" = Some 9007199254740992%Z
  /\ parseInt "9007199254740992" = Some 9007199254740992%Z
  /\ parseInt "-18014398509481987" = Some (-18014398509481988)%Z.
Proof. vm_compute. done. Qed.

#[warnings="-inexact-float"] Example numberToString_samples :
  numberToString 0.1 = "0.1"
  /\ numberToString (0.1 + 0.2) = "0.30000000000000004"
  /\ numberToString 45990 = "45990"
  /\ numberToString 1e21 = "1e+21"
  /\ numberToString 123456789012345680000 = "123456789012345680000"
  /\ numberToString 0.000001 = "0.000001"
  /\ numberToString 0.0000001 = "1e-7"
  /\ numberToString (-2.5) = "-2.5"
  /\ numberToString 27021597764222973 = "27021597764222972".
Proof. vm_compute. done. Qed.

Example stringToNumber_samples :
  numberToString (stringToNumber " 12.50 ") = "12.5"
  /\ numberToString (stringToNumber "9007199254740993") = "9007199254740992"
  /\ numberToString (stringToNumber "0x1F") = "31"
  /\ numberToString (stringToNumber "") = "0"
  /\ numberToString (stringToNumber "1e3") = "1000"
  /\ numberToString (stringToNumber "12 000") = "NaN".
Proof. vm_compute. done. Qed.

(** Prices and quantities that the extraction returned as strings are
    converted by the product. *)
Example total_of_strings :
  let item := Json.JObject [("descripcion", Json.JString "Silla");
                            ("cantidad", Json.JString "4");
                            ("precio_unitario", Json.JString "12500")] in
  Runtime.orderTotal (Some (Json.JArray [item; lineOf "Mesa" 1 80000]))
  = Ok ([item; lineOf "Mesa" 1 80000], 130000%float).
Proof. vm_compute. reflexivity. Qed.

(** An extraction that succeeds without [items] stops [comparAndMark] with
    a [TypeError], which [processSingleCode] reports as a failure. *)
Example extraction_without_items :
  let world :=
    {| Runtime.runScraper :=
         λ code, ProcessBatch.Printed
                   (ProcessBatch.mkScraperResult true code None (Some 1%nat)
                                                 None);
       Runtime.parseMessage := λ _, "Unexpected end of JSON input";
       Runtime.existsDir := λ _, true;
       Runtime.readdir := λ _, Ok ["orden.pdf"];
       Runtime.processFiles :=
         λ files,
           map (λ _, answered (Json.JObject [("legible", Json.JBool false)]))
               files;
       Runtime.rmSync := λ _, Ok tt |} in
  fst (Runtime.processSingleCode world "3506-434-SE25" "2025-12-15T10:00:00Z")
  = Ok (Runtime.failure
          (Some "Cannot read properties of undefined (reading 'length')")).
Proof. vm_compute. reflexivity. Qed.

(** What the removal of the directory throws in the [catch] block leaves
    [processSingleCode]. *)
Example removal_failure_is_thrown :
  let world :=
    {| Runtime.runScraper :=
         λ _, ProcessBatch.ExecFailed "" "Command failed: npx tsx";
       Runtime.parseMessage := λ _, "Unexpected end of JSON input";
       Runtime.existsDir := λ _, true;
       Runtime.readdir := λ _, Ok [];
       Runtime.processFiles := λ _, [];
       Runtime.rmSync :=
         λ _, Throw (ErrorWith "EACCES: permission denied, rm") |} in
  fst (Runtime.processSingleCode world "3506-434-SE25" "2025-12-15T10:00:00Z")
  = Throw (ErrorWith "EACCES: permission denied, rm").
Proof. vm_compute. reflexivity. Qed.

End FurtherCases.
